(** * Zyrex code relocation core: analysis, relocation and offset fix-up

    A shallow embedding of [src/Analysis.c] and [src/Relocation.c] of the
    Zyan hook engine (x64 build: [ZyanUSize], [ZyanUPointer] and [ZyanU64]
    are 64 bits wide), together with the properties of the relocation core
    that the specification states about them. *)

From Stdlib Require Import ZArith List Bool Lia.
From stdpp Require Import base list.

Local Open Scope Z_scope.

(* ====================================================================== *)
(** * Machine integers *)
(* ====================================================================== *)

(** Conversion to an unsigned [w]-bit integer: the value modulo [2^w]. *)
Definition to_unsigned (w x : Z) : Z := x mod 2 ^ w.

(** Conversion to a signed [w]-bit integer (two's complement). *)
Definition to_signed (w x : Z) : Z := (x + 2 ^ (w - 1)) mod 2 ^ w - 2 ^ (w - 1).

Definition to_u8 (x : Z) : Z := to_unsigned 8 x.
Definition to_u64 (x : Z) : Z := to_unsigned 64 x.
Definition to_i8 (x : Z) : Z := to_signed 8 x.
Definition to_i16 (x : Z) : Z := to_signed 16 x.
Definition to_i32 (x : Z) : Z := to_signed 32 x.
Definition to_i64 (x : Z) : Z := to_signed 64 x.

Arguments to_unsigned : simpl never.
Arguments to_signed : simpl never.
Arguments to_u8 : simpl never.
Arguments to_u64 : simpl never.
Arguments to_i8 : simpl never.
Arguments to_i16 : simpl never.
Arguments to_i32 : simpl never.
Arguments to_i64 : simpl never.

Definition ZYAN_INT8_MIN : Z := -128.
Definition ZYAN_INT8_MAX : Z := 127.
Definition ZYAN_INT16_MIN : Z := -32768.
Definition ZYAN_INT16_MAX : Z := 32767.
Definition ZYAN_INT32_MIN : Z := -2147483648.
Definition ZYAN_INT32_MAX : Z := 2147483647.

(** Smallest and largest value of a signed [w]-bit integer. *)
Definition int_min (w : Z) : Z := - 2 ^ (w - 1).
Definition int_max (w : Z) : Z := 2 ^ (w - 1) - 1.

(* ====================================================================== *)
(** * Status codes *)
(* ====================================================================== *)

(** The Zycore status codes the core deals with.  [ZYAN_STATUS_FAILED c]
    stands for any other failing code handed up by a collaborator (the
    decoder, the address helper). *)
Inductive ZyanStatus : Type :=
| ZYAN_STATUS_SUCCESS
| ZYAN_STATUS_NOT_FOUND
| ZYAN_STATUS_FAILED (code : Z).

Definition ZYAN_SUCCESS (s : ZyanStatus) : bool :=
  match s with
  | ZYAN_STATUS_SUCCESS => true
  | _ => false
  end.

(** How a call of a relocation routine ends: it returns a status, or it runs
    into [ZYAN_UNREACHABLE] (or dereferences a null element pointer) and the
    program aborts. *)
Inductive outcome : Type :=
| Returned (s : ZyanStatus)
| Unreachable.

Definition succeeded (r : outcome) : bool :=
  match r with
  | Returned s => ZYAN_SUCCESS s
  | Unreachable => false
  end.

(* ====================================================================== *)
(** * The decoder's view of an instruction *)
(* ====================================================================== *)

Inductive ZydisMnemonic : Type :=
| ZYDIS_MNEMONIC_JMP
| ZYDIS_MNEMONIC_JO
| ZYDIS_MNEMONIC_JNO
| ZYDIS_MNEMONIC_JB
| ZYDIS_MNEMONIC_JNB
| ZYDIS_MNEMONIC_JZ
| ZYDIS_MNEMONIC_JNZ
| ZYDIS_MNEMONIC_JBE
| ZYDIS_MNEMONIC_JNBE
| ZYDIS_MNEMONIC_JS
| ZYDIS_MNEMONIC_JNS
| ZYDIS_MNEMONIC_JP
| ZYDIS_MNEMONIC_JNP
| ZYDIS_MNEMONIC_JL
| ZYDIS_MNEMONIC_JNL
| ZYDIS_MNEMONIC_JLE
| ZYDIS_MNEMONIC_JNLE
| ZYDIS_MNEMONIC_JCXZ
| ZYDIS_MNEMONIC_JECXZ
| ZYDIS_MNEMONIC_JRCXZ
| ZYDIS_MNEMONIC_LOOP
| ZYDIS_MNEMONIC_LOOPE
| ZYDIS_MNEMONIC_LOOPNE
| ZYDIS_MNEMONIC_CALL
| ZYDIS_MNEMONIC_MOV
| ZYDIS_MNEMONIC_NOP
| ZYDIS_MNEMONIC_RET
| ZYDIS_MNEMONIC_OTHER (id : Z).

(** The attribute masks of Zydis (declared in the decoder's headers); the
    core only tests these two bits. *)
Definition ZYDIS_ATTRIB_HAS_MODRM : Z := 0x01.
Definition ZYDIS_ATTRIB_IS_RELATIVE : Z := 0x80.

(** The fields of [ZydisDecodedInstruction] the core reads.  They live in a
    module of their own because the record has a field called [length]. *)
Module Zydis.

(** [raw.imm[0]] *)
Record RawImm : Type := {
  imm_is_relative : bool;
  imm_value : Z;
  imm_size : Z;
  imm_offset : Z
}.

(** [raw.disp] *)
Record RawDisp : Type := {
  disp_value : Z;
  disp_size : Z;
  disp_offset : Z
}.

(** [raw.modrm] *)
Record RawModrm : Type := {
  modrm_mod : Z;
  modrm_rm : Z
}.

Record Raw : Type := {
  modrm : RawModrm;
  disp : RawDisp;
  imm0 : RawImm
}.

Record DecodedInstruction : Type := {
  mnemonic : ZydisMnemonic;
  length : Z;
  attributes : Z;
  raw : Raw
}.

End Zydis.

Abbreviation ZydisDecodedInstruction := Zydis.DecodedInstruction.

(* ====================================================================== *)
(** * Analysis ([Analysis.c]) *)
(* ====================================================================== *)

Record ZyrexAnalyzedInstruction : Type := {
  address_offset : Z;
  address : Z;
  instruction : ZydisDecodedInstruction;
  has_relative_target : bool;
  has_external_target : bool;
  is_internal_target : bool;
  absolute_target_address : Z;
  incoming : list Z;
  outgoing : Z
}.

(** [&item->instruction], for use where a parameter is itself called
    [instruction]. *)
Definition decoded (item : ZyrexAnalyzedInstruction) : ZydisDecodedInstruction :=
  instruction item.

(** [(ZyanU8)(-1)], the value of [outgoing] that stands for "no target". *)
Definition OUTGOING_NONE : Z := to_u8 (-1).

Definition ZyrexIsRelativeBranchInstruction (instruction : ZydisDecodedInstruction) : bool :=
  if negb (Zydis.imm_is_relative (Zydis.imm0 (Zydis.raw instruction))) then false
  else
    match Zydis.mnemonic instruction with
    | ZYDIS_MNEMONIC_JMP
    | ZYDIS_MNEMONIC_JO
    | ZYDIS_MNEMONIC_JNO
    | ZYDIS_MNEMONIC_JB
    | ZYDIS_MNEMONIC_JNB
    | ZYDIS_MNEMONIC_JZ
    | ZYDIS_MNEMONIC_JNZ
    | ZYDIS_MNEMONIC_JBE
    | ZYDIS_MNEMONIC_JNBE
    | ZYDIS_MNEMONIC_JS
    | ZYDIS_MNEMONIC_JNS
    | ZYDIS_MNEMONIC_JP
    | ZYDIS_MNEMONIC_JNP
    | ZYDIS_MNEMONIC_JL
    | ZYDIS_MNEMONIC_JNL
    | ZYDIS_MNEMONIC_JLE
    | ZYDIS_MNEMONIC_JNLE
    | ZYDIS_MNEMONIC_JCXZ
    | ZYDIS_MNEMONIC_JECXZ
    | ZYDIS_MNEMONIC_JRCXZ
    | ZYDIS_MNEMONIC_LOOP
    | ZYDIS_MNEMONIC_LOOPE
    | ZYDIS_MNEMONIC_LOOPNE => true
    | _ => false
    end.

Definition ZyrexIsRelativeMemoryInstruction (instruction : ZydisDecodedInstruction) : bool :=
  negb (Z.land (Zydis.attributes instruction) ZYDIS_ATTRIB_HAS_MODRM =? 0)
  && (Zydis.modrm_mod (Zydis.modrm (Zydis.raw instruction)) =? 0)
  && (Zydis.modrm_rm (Zydis.modrm (Zydis.raw instruction)) =? 5).

(** ** The cross-reference pass *)

(** [item->has_external_target = ZYAN_FALSE; item->outgoing = (ZyanU8)i;] *)
Definition mark_outgoing (i : nat) (item : ZyrexAnalyzedInstruction) : ZyrexAnalyzedInstruction :=
  {| address_offset := address_offset item;
     address := address item;
     instruction := instruction item;
     has_relative_target := has_relative_target item;
     has_external_target := false;
     is_internal_target := is_internal_target item;
     absolute_target_address := absolute_target_address item;
     incoming := incoming item;
     outgoing := to_u8 (Z.of_nat i) |}.

(** The first time [current] is found to be a target its [incoming] vector
    is initialised (empty); then [(ZyanU8)j] is pushed onto it. *)
Definition mark_incoming (j : nat) (current : ZyrexAnalyzedInstruction) : ZyrexAnalyzedInstruction :=
  {| address_offset := address_offset current;
     address := address current;
     instruction := instruction current;
     has_relative_target := has_relative_target current;
     has_external_target := has_external_target current;
     is_internal_target := true;
     absolute_target_address := absolute_target_address current;
     incoming := (if is_internal_target current then incoming current else []) ++ [to_u8 (Z.of_nat j)];
     outgoing := outgoing current |}.

(** Does [item] target [current]?  The test of the inner loop. *)
Definition targets (item current : ZyrexAnalyzedInstruction) : bool :=
  has_relative_target item && (absolute_target_address item =? address current).

(** One iteration of the inner loop.  [item] and [current] point into the
    vector, so the body updates element [j] and then element [i] in place
    (the same element twice when [i = j]). *)
Definition xref_step (i j : nat) (instructions : list ZyrexAnalyzedInstruction)
  : list ZyrexAnalyzedInstruction :=
  match instructions !! i, instructions !! j with
  | Some current, Some item =>
      if targets item current
      then alter (mark_incoming j) i (alter (mark_outgoing i) j instructions)
      else instructions
  | _, _ => instructions
  end.

Definition xref_inner (i : nat) (instructions : list ZyrexAnalyzedInstruction)
  : list ZyrexAnalyzedInstruction :=
  fold_left (fun v j => xref_step i j v) (seq 0 (length instructions)) instructions.

Definition second_pass (instructions : list ZyrexAnalyzedInstruction)
  : list ZyrexAnalyzedInstruction :=
  fold_left (fun v i => xref_inner i v) (seq 0 (length instructions)) instructions.

Section Analysis.

(** The decoder is a collaborator: it is handed the bytes at
    [buffer + offset] and the number of bytes left, and returns a failing
    status or the decoded instruction. *)
Variable ZydisDecoderDecodeInstruction : list Z -> Z -> ZyanStatus + ZydisDecodedInstruction.

(** So is the helper that resolves a relative operand to its absolute
    target, given the instruction's runtime address. *)
Variable ZyrexCalcAbsoluteAddress : ZydisDecodedInstruction -> Z -> ZyanStatus + Z.

(** The decode pass.  [first_pass fuel buffer bytes length n offset acc]
    runs the [while (offset < bytes_to_analyze)] loop from [offset] with
    the vector holding [acc]; [None] when [fuel] iterations were not
    enough.  [buffer] is the address of the buffer, [bytes] its content. *)
Fixpoint first_pass (fuel : nat) (buffer : Z) (bytes : list Z) (length bytes_to_analyze : Z)
    (offset : Z) (instructions : list ZyrexAnalyzedInstruction)
  : option (ZyanStatus + (list ZyrexAnalyzedInstruction * Z)) :=
  match fuel with
  | O => None
  | S fuel' =>
      if offset <? bytes_to_analyze then
        match ZydisDecoderDecodeInstruction (drop (Z.to_nat offset) bytes)
                (to_u64 (length - offset)) with
        | inl status => Some (inl status)
        | inr decoded =>
            let relative :=
              negb (Z.land (Zydis.attributes decoded) ZYDIS_ATTRIB_IS_RELATIVE =? 0) in
            let resolved :=
              if relative
              then ZyrexCalcAbsoluteAddress decoded (to_u64 (buffer + offset))
              else inr 0 in
            match resolved with
            | inl status => Some (inl status)
            | inr target =>
                let item :=
                  {| address_offset := offset;
                     address := to_u64 (buffer + offset);
                     instruction := decoded;
                     has_relative_target := relative;
                     has_external_target := relative;
                     is_internal_target := false;
                     absolute_target_address := target;
                     incoming := [];
                     outgoing := OUTGOING_NONE |} in
                first_pass fuel' buffer bytes length bytes_to_analyze
                  (to_u64 (offset + Zydis.length decoded)) (instructions ++ [item])
            end
        end
      else Some (inr (instructions, offset))
  end.

(** [ZyrexAnalyzeInstructions]: a failing status, or the analyzed
    instructions together with [*bytes_read].  Allocation is taken to
    succeed.  The decode loop is given one more iteration than
    [bytes_to_analyze], which is enough whenever every decoded instruction
    has at least one byte. *)
Definition ZyrexAnalyzeInstructions (buffer : Z) (bytes : list Z) (length bytes_to_analyze : Z)
  : option (ZyanStatus + (list ZyrexAnalyzedInstruction * Z)) :=
  match first_pass (S (Z.to_nat bytes_to_analyze)) buffer bytes length bytes_to_analyze 0 [] with
  | None => None
  | Some (inl status) => Some (inl status)
  | Some (inr (instructions, offset)) => Some (inr (second_pass instructions, offset))
  end.

End Analysis.

(* ====================================================================== *)
(** * Relocation ([Relocation.c]) *)
(* ====================================================================== *)

(** ** Memory behind the [source] and [destination] pointers

    The relocation routines read and write through raw pointers and never
    look at a capacity, so a buffer is the byte found at each offset from
    its base pointer. *)
Definition memory : Type := Z -> Z.

Definition store8 (m : memory) (a v : Z) : memory :=
  fun x => if x =? a then v else m x.

(** Store the low [n] bytes of [v] at [a], least significant byte first. *)
Fixpoint store_le (n : nat) (m : memory) (a v : Z) : memory :=
  match n with
  | O => m
  | S n' => store_le n' (store8 m a (to_u8 v)) (a + 1) (Z.shiftr v 8)
  end.

(** [ZYAN_MEMCPY(dst + d, src + s, n)] *)
Definition memcpy (dst : memory) (d : Z) (src : memory) (s n : Z) : memory :=
  fun x => if (d <=? x) && (x <? d + n) then src (s + (x - d)) else dst x.

(** The [n] bytes at [a]. *)
Definition load_bytes (m : memory) (a : Z) (n : nat) : list Z :=
  map (fun k => m (a + Z.of_nat k)) (seq 0 n).

(** The unsigned little-endian value of a byte string. *)
Fixpoint le_combine (bs : list Z) : Z :=
  match bs with
  | [] => 0
  | b :: bs' => b + 256 * le_combine bs'
  end.

(** The [n] bytes at [a] read as a signed little-endian integer. *)
Definition load_signed (m : memory) (a : Z) (n : nat) : Z :=
  to_signed (8 * Z.of_nat n) (le_combine (load_bytes m a n)).

(** The bytes of a list laid out from offset 0 (zero elsewhere). *)
Definition memory_of_list (bs : list Z) : memory :=
  fun x => if x <? 0 then 0 else nth (Z.to_nat x) bs 0.

(** ** The translation context *)

Record ZyrexInstructionTranslationItem : Type := {
  offset_source : Z;
  offset_destination : Z
}.

(** Modelled from the spec: the declaration of [ZyrexTranslationContext]
    (in the trampoline header) is missing from the sources; the fields are
    the ones the spec lists and [Relocation.c] uses.  [source_bytes] and
    [destination_bytes] are the memory behind the two pointers, and
    [translation_map] is [translation_map->items[0 .. count)]. *)
Record ZyrexTranslationContext : Type := {
  source : Z;
  source_bytes : memory;
  destination : Z;
  destination_bytes : memory;
  bytes_read : Z;
  bytes_written : Z;
  instructions_read : Z;
  instructions : list ZyrexAnalyzedInstruction;
  translation_map : list ZyrexInstructionTranslationItem
}.

Definition with_destination_bytes (context : ZyrexTranslationContext) (m : memory)
  : ZyrexTranslationContext :=
  {| source := source context;
     source_bytes := source_bytes context;
     destination := destination context;
     destination_bytes := m;
     bytes_read := bytes_read context;
     bytes_written := bytes_written context;
     instructions_read := instructions_read context;
     instructions := instructions context;
     translation_map := translation_map context |}.

(** Modelled from the spec: [ZyrexUpdateTranslationContext] is missing from
    the sources.  Per the spec (4.3 Common copy and 4.5) it appends the item
    [(offset_source, offset_destination)] to the translation map and advances
    [bytes_written] by [length]; the two offsets are [ZyanU8] parameters. *)
Definition ZyrexUpdateTranslationContext (context : ZyrexTranslationContext)
    (length offset_source offset_destination : Z) : ZyrexTranslationContext :=
  {| source := source context;
     source_bytes := source_bytes context;
     destination := destination context;
     destination_bytes := destination_bytes context;
     bytes_read := bytes_read context;
     bytes_written := to_u64 (bytes_written context + length);
     instructions_read := instructions_read context;
     instructions := instructions context;
     translation_map :=
       translation_map context ++
       [ {| offset_source := to_u8 offset_source;
            offset_destination := to_u8 offset_destination |} ] |}.

(** Modelled from the spec: [ZyrexCalculateRelativeOffset] is missing from
    the sources.  Per the spec (6, calc-relative-offset) it returns
    [target - source - instruction_length] as a signed 32-bit integer. *)
Definition ZyrexCalculateRelativeOffset (instruction_length source_address destination_address : Z)
  : Z :=
  to_i32 (destination_address - source_address - instruction_length).

(** Modelled from the spec: [ZyrexWriteRelativeJump] is missing from the
    sources.  Per the spec (6, write-relative-jump) it emits [E9 dd dd dd dd]
    with the displacement relative to the end of these five bytes.  The
    pointer is given as the buffer's base address and the offset in it. *)
Definition ZyrexWriteRelativeJump (m : memory) (base offset target : Z) : memory :=
  store_le 4 (store8 m offset 0xE9) (offset + 1)
    (ZyrexCalculateRelativeOffset 5 (to_u64 (base + offset)) target).

(** ** Relocation analysis *)

(** [distance] of [ZyrexShouldRewriteBranchInstruction]: from the end of the
    instruction at its new place to its target, as a [ZyanI64]. *)
Definition branch_distance (context : ZyrexTranslationContext)
    (instruction : ZyrexAnalyzedInstruction) : Z :=
  let source_address := to_u64 (destination context + bytes_written context) in
  to_i64 (absolute_target_address instruction - source_address
          - Zydis.length (decoded instruction)).

(** [None]: the [default] arm, [ZYAN_UNREACHABLE]. *)
Definition ZyrexShouldRewriteBranchInstruction (context : ZyrexTranslationContext)
    (instruction : ZyrexAnalyzedInstruction) : option bool :=
  let distance := branch_distance context instruction in
  match Zydis.imm_size (Zydis.imm0 (Zydis.raw (decoded instruction))) with
  | 8 => Some ((distance <? ZYAN_INT8_MIN) || (distance >? ZYAN_INT8_MAX))
  | 16 => Some ((distance <? ZYAN_INT16_MIN) || (distance >? ZYAN_INT16_MAX))
  | 32 => Some ((distance <? ZYAN_INT32_MIN) || (distance >? ZYAN_INT32_MAX))
  | _ => None
  end.

(** ** Relocation *)

Definition ZyrexRelocateCommonInstruction (context : ZyrexTranslationContext)
    (instruction : ZyrexAnalyzedInstruction) : outcome * ZyrexTranslationContext :=
  let length := Zydis.length (decoded instruction) in
  let copied :=
    memcpy (destination_bytes context) (bytes_written context)
           (source_bytes context) (bytes_read context) length in
  (Returned ZYAN_STATUS_SUCCESS,
   ZyrexUpdateTranslationContext (with_destination_bytes context copied) length
     (to_u8 (bytes_read context)) (to_u8 (bytes_written context))).

(** The branches without a 32-bit form. *)
Definition is_unenlargeable (m : ZydisMnemonic) : bool :=
  match m with
  | ZYDIS_MNEMONIC_JCXZ
  | ZYDIS_MNEMONIC_JECXZ
  | ZYDIS_MNEMONIC_JRCXZ
  | ZYDIS_MNEMONIC_LOOP
  | ZYDIS_MNEMONIC_LOOPE
  | ZYDIS_MNEMONIC_LOOPNE => true
  | _ => false
  end.

(** The first [switch] arm of the rewrite: the instruction with its offset
    set to 2, a short jump over the near jump, and the near jump to the
    target.  The pointer [address] is kept as an offset into the destination
    buffer. *)
Definition rewrite_unenlargeable (context : ZyrexTranslationContext)
    (instruction : ZyrexAnalyzedInstruction) : outcome * ZyrexTranslationContext :=
  let length := Zydis.length (decoded instruction) in
  let address := bytes_written context in
  let m1 :=
    memcpy (destination_bytes context) address (source_bytes context) (bytes_read context) length in
  let m2 :=
    store8 m1 (address + Zydis.imm_offset (Zydis.imm0 (Zydis.raw (decoded instruction)))) 0x02 in
  let address := address + length in
  let context :=
    ZyrexUpdateTranslationContext (with_destination_bytes context m2) length
      (to_u8 (bytes_read context)) (to_u8 (bytes_written context)) in
  let m3 := store8 (store8 m2 address 0xEB) (address + 1) 0x05 in
  let address := address + 2 in
  let context :=
    ZyrexUpdateTranslationContext (with_destination_bytes context m3) 2
      (to_u8 (bytes_read context)) (to_u8 (bytes_written context) + length) in
  let m4 :=
    ZyrexWriteRelativeJump m3 (destination context) address
      (absolute_target_address instruction) in
  let context :=
    ZyrexUpdateTranslationContext (with_destination_bytes context m4) 5
      (to_u8 (bytes_read context)) (to_u8 (bytes_written context) + length + 2) in
  (Returned ZYAN_STATUS_SUCCESS, context).

(** The second [switch]: [(opcode, length)] of the form with a 32-bit
    offset; [None] is the [default] arm, [ZYAN_UNREACHABLE]. *)
Definition enlarged_opcode (m : ZydisMnemonic) : option (Z * Z) :=
  match m with
  | ZYDIS_MNEMONIC_JMP => Some (0xE9, 5)
  | ZYDIS_MNEMONIC_JO => Some (0x80, 6)
  | ZYDIS_MNEMONIC_JNO => Some (0x81, 6)
  | ZYDIS_MNEMONIC_JB => Some (0x82, 6)
  | ZYDIS_MNEMONIC_JNB => Some (0x83, 6)
  | ZYDIS_MNEMONIC_JZ => Some (0x84, 6)
  | ZYDIS_MNEMONIC_JNZ => Some (0x85, 6)
  | ZYDIS_MNEMONIC_JBE => Some (0x86, 6)
  | ZYDIS_MNEMONIC_JNBE => Some (0x87, 6)
  | ZYDIS_MNEMONIC_JS => Some (0x88, 6)
  | ZYDIS_MNEMONIC_JNS => Some (0x89, 6)
  | ZYDIS_MNEMONIC_JP => Some (0x8A, 6)
  | ZYDIS_MNEMONIC_JNP => Some (0x8B, 6)
  | ZYDIS_MNEMONIC_JL => Some (0x8C, 6)
  | ZYDIS_MNEMONIC_JNL => Some (0x8D, 6)
  | ZYDIS_MNEMONIC_JLE => Some (0x8E, 6)
  | ZYDIS_MNEMONIC_JNLE => Some (0x8F, 6)
  | _ => None
  end.

(** The enlargement: the near opcode, then the 32-bit offset to the target. *)
Definition rewrite_enlarged (context : ZyrexTranslationContext)
    (instruction : ZyrexAnalyzedInstruction) : outcome * ZyrexTranslationContext :=
  match enlarged_opcode (Zydis.mnemonic (decoded instruction)) with
  | None => (Unreachable, context)
  | Some (opcode, length) =>
      let address := bytes_written context in
      let '(m1, address) :=
        if opcode =? 0xE9
        then (store8 (destination_bytes context) address 0xE9, address + 1)
        else (store8 (store8 (destination_bytes context) address 0x0F) (address + 1) opcode,
              address + 2) in
      let m2 :=
        store_le 4 m1 address
          (ZyrexCalculateRelativeOffset 4 (to_u64 (destination context + address))
             (absolute_target_address instruction)) in
      (Returned ZYAN_STATUS_SUCCESS,
       ZyrexUpdateTranslationContext (with_destination_bytes context m2) length
         (to_u8 (bytes_read context)) (to_u8 (bytes_written context)))
  end.

(** Copy the instruction, then store the offset from its new place to the
    target in the field of [size] bits at [offset_address]: the tail shared
    by the branch and the memory routine. *)
Definition copy_and_patch (context : ZyrexTranslationContext)
    (instruction : ZyrexAnalyzedInstruction) (offset_address size : Z)
  : outcome * ZyrexTranslationContext :=
  let '(status, context) := ZyrexRelocateCommonInstruction context instruction in
  if negb (succeeded status) then (status, context)
  else
    let value :=
      ZyrexCalculateRelativeOffset 0 (to_u64 (destination context + bytes_written context))
        (absolute_target_address instruction) in
    match size with
    | 8 =>
        (Returned ZYAN_STATUS_SUCCESS,
         with_destination_bytes context
           (store_le 1 (destination_bytes context) offset_address (to_i8 value)))
    | 16 =>
        (Returned ZYAN_STATUS_SUCCESS,
         with_destination_bytes context
           (store_le 2 (destination_bytes context) offset_address (to_i16 value)))
    | 32 =>
        (Returned ZYAN_STATUS_SUCCESS,
         with_destination_bytes context
           (store_le 4 (destination_bytes context) offset_address (to_i32 value)))
    | _ => (Unreachable, context)
    end.

Definition ZyrexRelocateRelativeBranchInstruction (context : ZyrexTranslationContext)
    (instruction : ZyrexAnalyzedInstruction) : outcome * ZyrexTranslationContext :=
  if negb (has_external_target instruction)
  then ZyrexRelocateCommonInstruction context instruction
  else
    match ZyrexShouldRewriteBranchInstruction context instruction with
    | None => (Unreachable, context)
    | Some true =>
        if is_unenlargeable (Zydis.mnemonic (decoded instruction))
        then rewrite_unenlargeable context instruction
        else rewrite_enlarged context instruction
    | Some false =>
        copy_and_patch context instruction
          (bytes_written context
           + Zydis.imm_offset (Zydis.imm0 (Zydis.raw (decoded instruction))))
          (Zydis.imm_size (Zydis.imm0 (Zydis.raw (decoded instruction))))
    end.

Definition ZyrexRelocateRelativeMemoryInstruction (context : ZyrexTranslationContext)
    (instruction : ZyrexAnalyzedInstruction) : outcome * ZyrexTranslationContext :=
  if has_external_target instruction
  then
    copy_and_patch context instruction
      (bytes_written context + Zydis.disp_offset (Zydis.disp (Zydis.raw (decoded instruction))))
      (Zydis.disp_size (Zydis.disp (Zydis.raw (decoded instruction))))
  else ZyrexRelocateCommonInstruction context instruction.

Definition ZyrexRelocateRelativeInstruction (context : ZyrexTranslationContext)
    (instruction : ZyrexAnalyzedInstruction) : outcome * ZyrexTranslationContext :=
  if ZyrexIsRelativeBranchInstruction (decoded instruction)
  then ZyrexRelocateRelativeBranchInstruction context instruction
  else if ZyrexIsRelativeMemoryInstruction (decoded instruction)
  then ZyrexRelocateRelativeMemoryInstruction context instruction
  else (Unreachable, context).

(** The conditional expression under [ZYAN_CHECK] in
    [ZyrexRelocateInstruction]. *)
Definition relocate_dispatch (context : ZyrexTranslationContext)
    (instruction : ZyrexAnalyzedInstruction) : outcome * ZyrexTranslationContext :=
  if has_relative_target instruction
  then ZyrexRelocateRelativeInstruction context instruction
  else ZyrexRelocateCommonInstruction context instruction.

Definition ZyrexRelocateInstruction (context : ZyrexTranslationContext)
    (instruction : ZyrexAnalyzedInstruction) : outcome * ZyrexTranslationContext :=
  let '(status, context) := relocate_dispatch context instruction in
  if negb (succeeded status) then (status, context)
  else
    (Returned ZYAN_STATUS_SUCCESS,
     {| source := source context;
        source_bytes := source_bytes context;
        destination := destination context;
        destination_bytes := destination_bytes context;
        bytes_read := to_u64 (bytes_read context + Zydis.length (decoded instruction));
        bytes_written := bytes_written context;
        instructions_read := to_u64 (instructions_read context + 1);
        instructions := instructions context;
        translation_map := translation_map context |}).

(** ** The offset fix-up *)

(** The scan of the translation map: the destination offset of the first
    item whose source offset is [offset_source]. *)
Fixpoint find_relocated_offset (items : list ZyrexInstructionTranslationItem) (wanted : Z)
  : option Z :=
  match items with
  | [] => None
  | item :: rest =>
      if offset_source item =? wanted
      then Some (offset_destination item)
      else find_relocated_offset rest wanted
  end.

(** The scan is what the routine does once its entry assertion
    [instructions.size <= translation_map->count] has passed; the assertion
    itself is [lookup_asserted], a hypothesis where a statement depends on
    it. *)
Definition ZyrexGetRelocatedInstructionOffset (context : ZyrexTranslationContext)
    (offset_source : Z) : ZyanStatus + Z :=
  match find_relocated_offset (translation_map context) offset_source with
  | Some found => inr found
  | None => inl ZYAN_STATUS_NOT_FOUND
  end.

(** The field the fix-up patches: [(offset, size)]. *)
Definition patched_field (instruction : ZydisDecodedInstruction) : Z * Z :=
  let field := (0, 0) in
  let field :=
    if ZyrexIsRelativeBranchInstruction instruction
    then (Zydis.imm_offset (Zydis.imm0 (Zydis.raw instruction)),
          Zydis.imm_size (Zydis.imm0 (Zydis.raw instruction)))
    else field in
  if ZyrexIsRelativeMemoryInstruction instruction
  then (Zydis.disp_offset (Zydis.disp (Zydis.raw instruction)),
        Zydis.disp_size (Zydis.disp (Zydis.raw instruction)))
  else field.

(** The body of the loop of [ZyrexUpdateInstructionsOffsets] for one
    instruction; [Returned ZYAN_STATUS_SUCCESS] means the loop goes on.  The
    assertion [size > 0] before the lookups is not a step of its own: with
    a field of size 0 the lookups are still made, and when both succeed the
    [default] arm of the [switch], [ZYAN_UNREACHABLE], is what ends the
    iteration. *)
Definition update_instruction_offset (context : ZyrexTranslationContext)
    (instruction : ZyrexAnalyzedInstruction) : outcome * ZyrexTranslationContext :=
  if negb (has_relative_target instruction) || has_external_target instruction
  then (Returned ZYAN_STATUS_SUCCESS, context)
  else
    let '(offset, size) := patched_field (decoded instruction) in
    match ZyrexGetRelocatedInstructionOffset context (to_u8 (address_offset instruction)) with
    | inl status => (Returned status, context)
    | inr offset_instruction =>
        match instructions context !! Z.to_nat (outgoing instruction) with
        | None => (Unreachable, context)
        | Some destination_instruction =>
            match ZyrexGetRelocatedInstructionOffset context
                    (to_u8 (address_offset destination_instruction)) with
            | inl status => (Returned status, context)
            | inr offset_destination =>
                let address_of_offset := offset_instruction + offset in
                let value :=
                  ZyrexCalculateRelativeOffset (Zydis.length (decoded instruction))
                    offset_instruction offset_destination in
                match size with
                | 8 =>
                    (Returned ZYAN_STATUS_SUCCESS,
                     with_destination_bytes context
                       (store_le 1 (destination_bytes context) address_of_offset (to_i8 value)))
                | 16 =>
                    (Returned ZYAN_STATUS_SUCCESS,
                     with_destination_bytes context
                       (store_le 2 (destination_bytes context) address_of_offset (to_i16 value)))
                | 32 =>
                    (Returned ZYAN_STATUS_SUCCESS,
                     with_destination_bytes context
                       (store_le 4 (destination_bytes context) address_of_offset (to_i32 value)))
                | _ => (Unreachable, context)
                end
            end
        end
    end.

Fixpoint update_offsets_loop (todo : list ZyrexAnalyzedInstruction)
    (context : ZyrexTranslationContext) : outcome * ZyrexTranslationContext :=
  match todo with
  | [] => (Returned ZYAN_STATUS_SUCCESS, context)
  | instruction :: rest =>
      let '(status, context) := update_instruction_offset context instruction in
      if negb (succeeded status) then (status, context)
      else update_offsets_loop rest context
  end.

Definition ZyrexUpdateInstructionsOffsets (context : ZyrexTranslationContext)
  : outcome * ZyrexTranslationContext :=
  update_offsets_loop (instructions context) context.

(* ====================================================================== *)
(** * Collaborators for the worked examples *)
(* ====================================================================== *)

(** A decoder for the handful of x64 encodings the examples use: [NOP],
    [RET], [JMP rel8], [JMP rel32], [CALL rel32], [Jcc rel8], [JRCXZ rel8],
    [JECXZ rel8] (address-size prefix) and [MOV RAX, [RIP + disp32]].  It
    stands in for Zydis in the examples only; the general results are stated
    for any decoder. *)
Module Example.

Definition plain (m : ZydisMnemonic) (len : Z) : ZydisDecodedInstruction :=
  {| Zydis.mnemonic := m;
     Zydis.length := len;
     Zydis.attributes := 0;
     Zydis.raw :=
       {| Zydis.modrm := {| Zydis.modrm_mod := 0; Zydis.modrm_rm := 0 |};
          Zydis.disp := {| Zydis.disp_value := 0; Zydis.disp_size := 0; Zydis.disp_offset := 0 |};
          Zydis.imm0 :=
            {| Zydis.imm_is_relative := false; Zydis.imm_value := 0;
               Zydis.imm_size := 0; Zydis.imm_offset := 0 |} |} |}.

(** A branch with a relative immediate of [size] bits at [offset]. *)
Definition branch (m : ZydisMnemonic) (len offset size value : Z) : ZydisDecodedInstruction :=
  {| Zydis.mnemonic := m;
     Zydis.length := len;
     Zydis.attributes := ZYDIS_ATTRIB_IS_RELATIVE;
     Zydis.raw :=
       {| Zydis.modrm := {| Zydis.modrm_mod := 0; Zydis.modrm_rm := 0 |};
          Zydis.disp := {| Zydis.disp_value := 0; Zydis.disp_size := 0; Zydis.disp_offset := 0 |};
          Zydis.imm0 :=
            {| Zydis.imm_is_relative := true; Zydis.imm_value := to_signed size value;
               Zydis.imm_size := size; Zydis.imm_offset := offset |} |} |}.

(** An instruction with a ModR/M byte [mod = 0, rm = 5] and a 32-bit
    displacement at [offset]. *)
Definition rip_relative (m : ZydisMnemonic) (len offset value : Z) : ZydisDecodedInstruction :=
  {| Zydis.mnemonic := m;
     Zydis.length := len;
     Zydis.attributes := Z.lor ZYDIS_ATTRIB_HAS_MODRM ZYDIS_ATTRIB_IS_RELATIVE;
     Zydis.raw :=
       {| Zydis.modrm := {| Zydis.modrm_mod := 0; Zydis.modrm_rm := 5 |};
          Zydis.disp :=
            {| Zydis.disp_value := to_signed 32 value; Zydis.disp_size := 32;
               Zydis.disp_offset := offset |};
          Zydis.imm0 :=
            {| Zydis.imm_is_relative := false; Zydis.imm_value := 0;
               Zydis.imm_size := 0; Zydis.imm_offset := 0 |} |} |}.

Definition jcc (cc : Z) : ZydisMnemonic :=
  match cc with
  | 0 => ZYDIS_MNEMONIC_JO
  | 1 => ZYDIS_MNEMONIC_JNO
  | 2 => ZYDIS_MNEMONIC_JB
  | 3 => ZYDIS_MNEMONIC_JNB
  | 4 => ZYDIS_MNEMONIC_JZ
  | 5 => ZYDIS_MNEMONIC_JNZ
  | 6 => ZYDIS_MNEMONIC_JBE
  | 7 => ZYDIS_MNEMONIC_JNBE
  | 8 => ZYDIS_MNEMONIC_JS
  | 9 => ZYDIS_MNEMONIC_JNS
  | 10 => ZYDIS_MNEMONIC_JP
  | 11 => ZYDIS_MNEMONIC_JNP
  | 12 => ZYDIS_MNEMONIC_JL
  | 13 => ZYDIS_MNEMONIC_JNL
  | 14 => ZYDIS_MNEMONIC_JLE
  | _ => ZYDIS_MNEMONIC_JNLE
  end.

Definition NO_MORE_DATA : ZyanStatus := ZYAN_STATUS_FAILED 0.
Definition DECODING_ERROR : ZyanStatus := ZYAN_STATUS_FAILED 1.

Definition decode_bytes (bytes : list Z) : ZyanStatus + ZydisDecodedInstruction :=
  match bytes with
  | 0x90 :: _ => inr (plain ZYDIS_MNEMONIC_NOP 1)
  | 0xC3 :: _ => inr (plain ZYDIS_MNEMONIC_RET 1)
  | 0xEB :: b :: _ => inr (branch ZYDIS_MNEMONIC_JMP 2 1 8 b)
  | 0xE3 :: b :: _ => inr (branch ZYDIS_MNEMONIC_JRCXZ 2 1 8 b)
  | 0x67 :: 0xE3 :: b :: _ => inr (branch ZYDIS_MNEMONIC_JECXZ 3 2 8 b)
  | 0xE9 :: b0 :: b1 :: b2 :: b3 :: _ =>
      inr (branch ZYDIS_MNEMONIC_JMP 5 1 32 (le_combine [b0; b1; b2; b3]))
  | 0xE8 :: b0 :: b1 :: b2 :: b3 :: _ =>
      inr (branch ZYDIS_MNEMONIC_CALL 5 1 32 (le_combine [b0; b1; b2; b3]))
  | 0x48 :: 0x8B :: 0x05 :: b0 :: b1 :: b2 :: b3 :: _ =>
      inr (rip_relative ZYDIS_MNEMONIC_MOV 7 3 (le_combine [b0; b1; b2; b3]))
  | op :: b :: _ =>
      if (0x70 <=? op) && (op <=? 0x7F)
      then inr (branch (jcc (op - 0x70)) 2 1 8 b)
      else inl DECODING_ERROR
  | _ => inl NO_MORE_DATA
  end.

(** The decoder proper: only the first [available] bytes may be used. *)
Definition decoder (bytes : list Z) (available : Z) : ZyanStatus + ZydisDecodedInstruction :=
  match decode_bytes (take (Z.to_nat available) bytes) with
  | inl status => inl status
  | inr decoded =>
      if (1 <=? Zydis.length decoded) && (Zydis.length decoded <=? available)
      then inr decoded
      else inl NO_MORE_DATA
  end.

(** The target of a relative operand: the end of the instruction plus the
    signed immediate or displacement. *)
Definition calc_absolute_address (decoded : ZydisDecodedInstruction) (runtime_address : Z)
  : ZyanStatus + Z :=
  if Zydis.imm_is_relative (Zydis.imm0 (Zydis.raw decoded))
  then inr (to_u64 (runtime_address + Zydis.length decoded
                    + Zydis.imm_value (Zydis.imm0 (Zydis.raw decoded))))
  else if ZyrexIsRelativeMemoryInstruction decoded
  then inr (to_u64 (runtime_address + Zydis.length decoded
                    + Zydis.disp_value (Zydis.disp (Zydis.raw decoded))))
  else inl (ZYAN_STATUS_FAILED 2).

Definition analyze (buffer : Z) (bytes : list Z) (bytes_to_analyze : Z)
  : option (ZyanStatus + (list ZyrexAnalyzedInstruction * Z)) :=
  ZyrexAnalyzeInstructions decoder calc_absolute_address buffer bytes
    (Z.of_nat (length bytes)) bytes_to_analyze.

(** What the hook installer does with an analyzed chunk: a fresh context,
    then [ZyrexRelocateInstruction] on each instruction in turn. *)
Definition fresh_context (source : Z) (bytes : list Z) (destination : Z)
    (analyzed : list ZyrexAnalyzedInstruction) : ZyrexTranslationContext :=
  {| source := source;
     source_bytes := memory_of_list bytes;
     destination := destination;
     destination_bytes := fun _ => 0;
     bytes_read := 0;
     bytes_written := 0;
     instructions_read := 0;
     instructions := analyzed;
     translation_map := [] |}.

Fixpoint relocate_all (todo : list ZyrexAnalyzedInstruction) (context : ZyrexTranslationContext)
  : outcome * ZyrexTranslationContext :=
  match todo with
  | [] => (Returned ZYAN_STATUS_SUCCESS, context)
  | item :: rest =>
      let '(status, context) := ZyrexRelocateInstruction context item in
      if negb (succeeded status) then (status, context) else relocate_all rest context
  end.

(** Analysis, relocation of every instruction, fix-up. *)
Definition relocate_chunk (source : Z) (bytes : list Z) (bytes_to_analyze destination : Z)
  : option (outcome * ZyrexTranslationContext) :=
  match analyze source bytes bytes_to_analyze with
  | Some (inr (analyzed, _)) =>
      let '(status, context) :=
        relocate_all analyzed (fresh_context source bytes destination analyzed) in
      if negb (succeeded status) then Some (status, context)
      else Some (ZyrexUpdateInstructionsOffsets context)
  | _ => None
  end.

(** The observable part of a relocation: written bytes and the map. *)
Definition written (r : option (outcome * ZyrexTranslationContext))
  : option (list Z * list (Z * Z)) :=
  match r with
  | Some (Returned ZYAN_STATUS_SUCCESS, context) =>
      Some (load_bytes (destination_bytes context) 0 (Z.to_nat (bytes_written context)),
            map (fun item => (offset_source item, offset_destination item))
                (translation_map context))
  | _ => None
  end.

End Example.

(* ====================================================================== *)
(** * Notions used in the statements *)
(* ====================================================================== *)

(** Congruence modulo [2^k]: equality of the low [k] bits. *)
Definition eqm (k x y : Z) : Prop := x mod 2 ^ k = y mod 2 ^ k.

(** The [n] low bytes of [v], least significant first. *)
Fixpoint le_bytes (n : nat) (v : Z) : list Z :=
  match n with
  | O => []
  | S n' => to_u8 v :: le_bytes n' (Z.shiftr v 8)
  end.

(** [distance] fits a signed immediate of [w] bits, bounds included. *)
Definition fits (w distance : Z) : bool :=
  (int_min w <=? distance) && (distance <=? int_max w).

(** The condition code of a conditional jump: the low four bits of its
    opcode ([70+cc] short, [0F 80+cc] near). *)
Definition condition_code (m : ZydisMnemonic) : option Z :=
  match m with
  | ZYDIS_MNEMONIC_JO => Some 0
  | ZYDIS_MNEMONIC_JNO => Some 1
  | ZYDIS_MNEMONIC_JB => Some 2
  | ZYDIS_MNEMONIC_JNB => Some 3
  | ZYDIS_MNEMONIC_JZ => Some 4
  | ZYDIS_MNEMONIC_JNZ => Some 5
  | ZYDIS_MNEMONIC_JBE => Some 6
  | ZYDIS_MNEMONIC_JNBE => Some 7
  | ZYDIS_MNEMONIC_JS => Some 8
  | ZYDIS_MNEMONIC_JNS => Some 9
  | ZYDIS_MNEMONIC_JP => Some 10
  | ZYDIS_MNEMONIC_JNP => Some 11
  | ZYDIS_MNEMONIC_JL => Some 12
  | ZYDIS_MNEMONIC_JNL => Some 13
  | ZYDIS_MNEMONIC_JLE => Some 14
  | ZYDIS_MNEMONIC_JNLE => Some 15
  | _ => None
  end.

(** The mnemonics the specification lists as unenlargeable: no form with a
    32-bit displacement exists for them. *)
Definition synthesis_mnemonic (m : ZydisMnemonic) : Prop :=
  m = ZYDIS_MNEMONIC_JCXZ \/ m = ZYDIS_MNEMONIC_JECXZ \/ m = ZYDIS_MNEMONIC_JRCXZ
  \/ m = ZYDIS_MNEMONIC_LOOP \/ m = ZYDIS_MNEMONIC_LOOPE \/ m = ZYDIS_MNEMONIC_LOOPNE.

(** The three-instruction sequence of the specification, left at
    [bytes_written] by the step from [context] to [context']: the bytes of
    the instruction with [02] as immediate, then [EB 05], then [E9] and the
    32-bit displacement from the end of the sequence to the target; three
    translation items more. *)
Definition synthesis_sequence (context : ZyrexTranslationContext)
    (instruction : ZyrexAnalyzedInstruction) (context' : ZyrexTranslationContext) : Prop :=
  let length := Zydis.length (decoded instruction) in
  let imm := Zydis.imm_offset (Zydis.imm0 (Zydis.raw (decoded instruction))) in
  let written := bytes_written context in
  load_bytes (destination_bytes context') written (Z.to_nat length)
  = <[Z.to_nat imm := 0x02]>
      (load_bytes (source_bytes context) (bytes_read context) (Z.to_nat length))
  /\ load_bytes (destination_bytes context') (written + length) 7
     = [0xEB; 0x05; 0xE9]
       ++ le_bytes 4 (absolute_target_address instruction
                      - (destination context + written + length + 7))
  /\ bytes_written context' = to_u64 (written + length + 7)
  /\ List.length (translation_map context')
     = (List.length (translation_map context) + 3)%nat.

(** The near form of the specification, left at [bytes_written] by the step
    from [context] to [context']: [E9] for a [JMP] and [0F 80+cc] for a
    conditional jump, then the 32-bit displacement from the end of the form
    to the target; one translation item more. *)
Definition near_form (context : ZyrexTranslationContext)
    (instruction : ZyrexAnalyzedInstruction) (context' : ZyrexTranslationContext) : Prop :=
  let m := Zydis.mnemonic (decoded instruction) in
  let written := bytes_written context in
  exists opcode,
    ((m = ZYDIS_MNEMONIC_JMP /\ opcode = [0xE9])
     \/ exists cc, condition_code m = Some cc /\ opcode = [0x0F; 0x80 + cc])
    /\ load_bytes (destination_bytes context') written (List.length opcode + 4)
       = opcode
         ++ le_bytes 4 (absolute_target_address instruction
                        - (destination context + written + Z.of_nat (List.length opcode) + 4))
    /\ bytes_written context' = to_u64 (written + Z.of_nat (List.length opcode) + 4)
    /\ List.length (translation_map context') = S (List.length (translation_map context)).

(** The condition [ZyrexGetRelocatedInstructionOffset] asserts on entry: the
    translation map has at least as many items as there are instructions. *)
Definition lookup_asserted (context : ZyrexTranslationContext) : Prop :=
  (List.length (instructions context) <= List.length (translation_map context))%nat.

(** [c'] has the read counters of [c]. *)
Definition same_counters (c c' : ZyrexTranslationContext) : Prop :=
  bytes_read c' = bytes_read c /\ instructions_read c' = instructions_read c.

(** A routine ended well or in [ZYAN_UNREACHABLE], not with a failing status. *)
Definition success_or_unreachable (r : outcome) : Prop :=
  r = Returned ZYAN_STATUS_SUCCESS \/ r = Unreachable.

(** The translation-map item [(s, d)]. *)
Definition map_item (s d : Z) : ZyrexInstructionTranslationItem :=
  {| offset_source := s; offset_destination := d |}.

(** The displacement an internal-target instruction carries after the
    fix-up, read as a signed integer of the width of its patched field: the
    instruction's place in the destination is looked up in the translation
    map as the fix-up does. *)
Definition patched_reading (context : ZyrexTranslationContext)
    (instruction : ZyrexAnalyzedInstruction) : option Z :=
  let '(offset, size) := patched_field (decoded instruction) in
  match ZyrexGetRelocatedInstructionOffset context (to_u8 (address_offset instruction)) with
  | inr own =>
      Some (load_signed (destination_bytes context) (own + offset) (Z.to_nat (size / 8)))
  | inl _ => None
  end.

(** The displacement the specification assigns to it: the destination
    offset of its [outgoing] target, minus its own destination offset, minus
    its length. *)
Definition specified_displacement (context : ZyrexTranslationContext)
    (instruction : ZyrexAnalyzedInstruction) : option Z :=
  match ZyrexGetRelocatedInstructionOffset context (to_u8 (address_offset instruction)),
        instructions context !! Z.to_nat (outgoing instruction) with
  | inr own, Some destination_instruction =>
      match ZyrexGetRelocatedInstructionOffset context
              (to_u8 (address_offset destination_instruction)) with
      | inr target => Some (target - own - Zydis.length (decoded instruction))
      | inl _ => None
      end
  | _, _ => None
  end.

(** A chunk whose first instruction, a short [JMP], targets its last one, a
    [NOP], across 22 short [JZ] with external targets. *)
Definition long_chunk : list Z := [0xEB; 0x2C] ++ concat (repeat [0x74; 0x7F] 22) ++ [0x90].

(** ** Notions about analyzed chunks *)

(** The part of an analyzed instruction the cross-reference pass never
    writes. *)
Definition static (x : ZyrexAnalyzedInstruction)
  : Z * Z * ZydisDecodedInstruction * bool * Z :=
  (address_offset x, address x, instruction x, has_relative_target x,
   absolute_target_address x).

(** The summed decoded length of a list of instructions. *)
Definition sum_lengths (l : list ZyrexAnalyzedInstruction) : Z :=
  foldr (fun x total => Zydis.length (instruction x) + total) 0 l.

(** The instructions of [l] lie back to back from offset [start] to offset
    [stop], each at least one byte long. *)
Fixpoint layout (start : Z) (l : list ZyrexAnalyzedInstruction) (stop : Z) : Prop :=
  match l with
  | [] => start = stop
  | x :: rest =>
      address_offset x = start
      /\ 1 <= Zydis.length (instruction x)
      /\ layout (start + Zydis.length (instruction x)) rest stop
  end.

(** What the core relies on from the decoder: a decoded instruction has at
    least one byte and no more than the bytes it was given. *)
Definition decoder_contract (decode : list Z -> Z -> ZyanStatus + ZydisDecodedInstruction) : Prop :=
  forall bytes available decoded,
    decode bytes available = inr decoded -> 1 <= Zydis.length decoded <= available.

(** An item as the decode pass pushes it. *)
Definition fresh (buffer : Z) (x : ZyrexAnalyzedInstruction) : Prop :=
  has_external_target x = has_relative_target x
  /\ outgoing x = OUTGOING_NONE
  /\ is_internal_target x = false
  /\ address x = to_u64 (buffer + address_offset x).

(** The iterations of the cross-reference pass over a vector of [n]
    instructions, in order, and the pass as a single loop over them. *)
Definition xref_pairs (n : nat) : list (nat * nat) :=
  flat_map (fun i => map (pair i) (seq 0 n)) (seq 0 n).

Definition xref_run (pairs : list (nat * nat)) (v : list ZyrexAnalyzedInstruction)
  : list ZyrexAnalyzedInstruction :=
  fold_left (fun v p => xref_step (fst p) (snd p) v) pairs v.

(** [x'] is a later state of the element [x]: the pass only ever clears
    [has_external_target], sets [is_internal_target] and appends to
    [incoming]. *)
Definition evolves (x x' : ZyrexAnalyzedInstruction) : Prop :=
  static x' = static x
  /\ (has_external_target x' = true -> has_external_target x = true)
  /\ (is_internal_target x = true ->
      is_internal_target x' = true /\ exists more, incoming x' = incoming x ++ more).

(** What the flags of an element say during the pass, [v0] being the vector
    the pass started from. *)
Definition tracked (v0 : list ZyrexAnalyzedInstruction) (x : ZyrexAnalyzedInstruction) : Prop :=
  (has_external_target x = true ->
   has_relative_target x = true /\ outgoing x = OUTGOING_NONE)
  /\ (has_relative_target x = false ->
      has_external_target x = false /\ outgoing x = OUTGOING_NONE)
  /\ (has_relative_target x = true -> has_external_target x = false ->
      exists (i : nat) y,
        v0 !! i = Some y
        /\ address y = absolute_target_address x
        /\ outgoing x = to_u8 (Z.of_nat i)).

(** The invariant of the pass. *)
Definition xref_invariant (v0 v : list ZyrexAnalyzedInstruction) : Prop :=
  static <$> v = static <$> v0
  /\ (forall (k : nat) x, v !! k = Some x -> tracked v0 x).

(** ** Notions about the fix-up *)

(** The fix-up writes nothing but destination bytes. *)
Definition same_tables (c c' : ZyrexTranslationContext) : Prop :=
  translation_map c' = translation_map c /\ instructions c' = instructions c.

(** The bytes the fix-up patches for [instruction]: first offset in the
    destination and width in bits; [None] when it patches nothing or fails. *)
Definition patched_range (context : ZyrexTranslationContext)
    (instruction : ZyrexAnalyzedInstruction) : option (Z * Z) :=
  if negb (has_relative_target instruction) || has_external_target instruction then None
  else
    match ZyrexGetRelocatedInstructionOffset context (to_u8 (address_offset instruction)) with
    | inr own =>
        Some (own + fst (patched_field (decoded instruction)),
              snd (patched_field (decoded instruction)))
    | inl _ => None
    end.

(** Two patched ranges share no byte. *)
Definition disjoint_ranges (r1 r2 : option (Z * Z)) : Prop :=
  match r1, r2 with
  | Some (a1, w1), Some (a2, w2) => a1 + w1 / 8 <= a2 \/ a2 + w2 / 8 <= a1
  | _, _ => True
  end.

(** ** Notions about the relocation of one instruction *)

(** The operand widths the relocation and the fix-up can patch. *)
Definition supported_width (size : Z) : bool :=
  (size =? 8) || (size =? 16) || (size =? 32).

(** The instructions [ZyrexRelocateInstruction] can relocate: the ones
    without relative operand, the supported relative branches and the
    instructions with a relative memory operand; with an external target the
    operand has to have a supported width. *)
Definition relocatable (instruction : ZyrexAnalyzedInstruction) : bool :=
  if has_relative_target instruction then
    if ZyrexIsRelativeBranchInstruction (decoded instruction) then
      negb (has_external_target instruction)
      || supported_width (Zydis.imm_size (Zydis.imm0 (Zydis.raw (decoded instruction))))
    else if ZyrexIsRelativeMemoryInstruction (decoded instruction) then
      negb (has_external_target instruction)
      || supported_width (Zydis.disp_size (Zydis.disp (Zydis.raw (decoded instruction))))
    else false
  else true.

(** The instructions that are copied byte for byte: no relative operand, or
    a supported relative instruction whose target is inside the chunk. *)
Definition copied_verbatim (instruction : ZyrexAnalyzedInstruction) : bool :=
  negb (has_relative_target instruction)
  || (negb (has_external_target instruction)
      && (ZyrexIsRelativeBranchInstruction (decoded instruction)
          || ZyrexIsRelativeMemoryInstruction (decoded instruction))).

(** The operand a relocation may patch lies inside the instruction: what
    a decoder guarantees for the immediate of a branch and the displacement
    of a memory operand. *)
Definition operand_inside (instruction : ZyrexAnalyzedInstruction) : Prop :=
  0 <= Zydis.length (decoded instruction)
  /\ (ZyrexIsRelativeBranchInstruction (decoded instruction) = true ->
      0 <= Zydis.imm_offset (Zydis.imm0 (Zydis.raw (decoded instruction)))
      /\ Zydis.imm_offset (Zydis.imm0 (Zydis.raw (decoded instruction)))
         + Zydis.imm_size (Zydis.imm0 (Zydis.raw (decoded instruction))) / 8
         <= Zydis.length (decoded instruction))
  /\ (ZyrexIsRelativeMemoryInstruction (decoded instruction) = true ->
      0 <= Zydis.disp_offset (Zydis.disp (Zydis.raw (decoded instruction)))
      /\ Zydis.disp_offset (Zydis.disp (Zydis.raw (decoded instruction)))
         + Zydis.disp_size (Zydis.disp (Zydis.raw (decoded instruction))) / 8
         <= Zydis.length (decoded instruction)).

(** The routine wrote [n] bytes at [bytes_written] and nothing else. *)
Definition emitted (context context' : ZyrexTranslationContext) (n : Z) : Prop :=
  bytes_written context' = to_u64 (bytes_written context + n)
  /\ forall x, x < bytes_written context \/ bytes_written context + n <= x ->
       destination_bytes context' x = destination_bytes context x.

(** [c'] differs from [c] in the destination bytes at most. *)
Definition same_but_destination (c c' : ZyrexTranslationContext) : Prop :=
  source c' = source c
  /\ source_bytes c' = source_bytes c
  /\ destination c' = destination c
  /\ bytes_read c' = bytes_read c
  /\ bytes_written c' = bytes_written c
  /\ instructions_read c' = instructions_read c
  /\ instructions c' = instructions c
  /\ translation_map c' = translation_map c.

(** The byte at [x] belongs to no field the fix-up of [todo] patches. *)
Definition unpatched (context : ZyrexTranslationContext)
    (todo : list ZyrexAnalyzedInstruction) (x : Z) : Prop :=
  forall y a w, In y todo -> patched_range context y = Some (a, w) -> x < a \/ a + w / 8 <= x.

(** What the decode pass records in an item: its address, the decoded
    instruction found at its offset, whether that has a relative operand,
    and the resolved target (0 without relative operand). *)
Definition recorded
    (decode : list Z -> Z -> ZyanStatus + ZydisDecodedInstruction)
    (calc : ZydisDecodedInstruction -> Z -> ZyanStatus + Z)
    (buffer : Z) (bytes : list Z) (length : Z) (x : ZyrexAnalyzedInstruction) : Prop :=
  address x = to_u64 (buffer + address_offset x)
  /\ decode (drop (Z.to_nat (address_offset x)) bytes) (to_u64 (length - address_offset x))
     = inr (instruction x)
  /\ has_relative_target x
     = negb (Z.land (Zydis.attributes (instruction x)) ZYDIS_ATTRIB_IS_RELATIVE =? 0)
  /\ (if has_relative_target x
      then calc (instruction x) (address x) = inr (absolute_target_address x)
      else absolute_target_address x = 0).

(** The [incoming] list of a target is not empty and every entry is the
    index (as [ZyanU8]) of an instruction of [v0] that targets it. *)
Definition sourced (v0 : list ZyrexAnalyzedInstruction) (x : ZyrexAnalyzedInstruction) : Prop :=
  is_internal_target x = true ->
  incoming x <> []
  /\ forall e, In e (incoming x) ->
       exists (j : nat) item,
         v0 !! j = Some item /\ targets item x = true /\ e = to_u8 (Z.of_nat j).

(** Tactic for the worked examples: provide the analyzed instructions of
    [bytes] (at 0x1000) and the one with index [k] as witnesses. *)
Ltac analyzed_example bytes n k :=
  let v := eval vm_compute in (Example.analyze 0x1000 bytes n) in
  match v with
  | Some (inr (?l, _)) =>
      exists l;
      let found := eval vm_compute in (l !! k) in
      match found with
      | Some ?x => exists x
      end
  end.

(* ====================================================================== *)
(** * Facts about machine integers and memory *)
(* ====================================================================== *)

Lemma eqm_refl k x : eqm k x x.
Proof. reflexivity. Qed.

Lemma eqm_sym k x y : eqm k x y -> eqm k y x.
Proof. unfold eqm; congruence. Qed.

Lemma eqm_trans k x y z : eqm k x y -> eqm k y z -> eqm k x z.
Proof. unfold eqm; congruence. Qed.

Lemma eqm_add k x x' y y' : eqm k x x' -> eqm k y y' -> eqm k (x + y) (x' + y').
Proof.
  unfold eqm; intros Hx Hy.
  rewrite (Zplus_mod x y), (Zplus_mod x' y'). congruence.
Qed.

Lemma eqm_sub k x x' y y' : eqm k x x' -> eqm k y y' -> eqm k (x - y) (x' - y').
Proof.
  unfold eqm; intros Hx Hy.
  rewrite (Zminus_mod x y), (Zminus_mod x' y'). congruence.
Qed.

(** Congruence modulo [2^w] is congruence modulo every smaller power. *)
Lemma eqm_weaken k w x y : 0 <= k <= w -> eqm w x y -> eqm k x y.
Proof.
  unfold eqm; intros Hk H.
  assert (Hw : 2 ^ w = 2 ^ k * 2 ^ (w - k)).
  { rewrite <- Z.pow_add_r by lia. f_equal; lia. }
  assert (Hpos : 0 < 2 ^ k) by (apply Z.pow_pos_nonneg; lia).
  assert (Hpos' : 0 < 2 ^ (w - k)) by (apply Z.pow_pos_nonneg; lia).
  rewrite Hw in H.
  rewrite !Z.rem_mul_r in H by lia.
  apply (f_equal (fun z => z mod 2 ^ k)) in H.
  rewrite !(Z.mul_comm (2 ^ k)), !Z_mod_plus_full, !Zmod_mod in H. exact H.
Qed.

Lemma eqm_to_unsigned w x : eqm w (to_unsigned w x) x.
Proof. unfold eqm, to_unsigned. apply Zmod_mod. Qed.

Lemma eqm_to_signed w x : eqm w (to_signed w x) x.
Proof.
  unfold eqm, to_signed.
  rewrite Zminus_mod, Zmod_mod, <- Zminus_mod. f_equal; lia.
Qed.

Lemma to_signed_range w x : 0 < w -> - 2 ^ (w - 1) <= to_signed w x < 2 ^ (w - 1).
Proof.
  intros Hw. unfold to_signed.
  assert (H2 : 2 ^ w = 2 * 2 ^ (w - 1)).
  { rewrite <- Z.pow_succ_r by lia. f_equal; lia. }
  assert (0 < 2 ^ w) by (apply Z.pow_pos_nonneg; lia).
  pose proof (Z.mod_pos_bound (x + 2 ^ (w - 1)) (2 ^ w)). lia.
Qed.

(** A value in the range of a signed [w]-bit integer is unchanged. *)
Lemma to_signed_id w x : 0 < w -> - 2 ^ (w - 1) <= x < 2 ^ (w - 1) -> to_signed w x = x.
Proof.
  intros Hw Hx. unfold to_signed.
  assert (H2 : 2 ^ w = 2 * 2 ^ (w - 1)).
  { rewrite <- Z.pow_succ_r by lia. f_equal; lia. }
  rewrite Z.mod_small by lia. lia.
Qed.

(** Two signed [w]-bit readings agree exactly when the values are congruent. *)
Lemma to_signed_eqm w x y : eqm w x y -> to_signed w x = to_signed w y.
Proof.
  unfold eqm, to_signed; intros H.
  rewrite (Zplus_mod x), (Zplus_mod y), H. reflexivity.
Qed.

(** ** Bytes of an integer *)

Lemma shiftr_8 v : Z.shiftr v 8 = v / 256.
Proof. rewrite Z.shiftr_div_pow2 by lia. reflexivity. Qed.

Lemma eqm_split_byte n x y :
  eqm (8 * Z.of_nat (S n)) x y ->
  to_u8 x = to_u8 y /\ eqm (8 * Z.of_nat n) (Z.shiftr x 8) (Z.shiftr y 8).
Proof.
  unfold eqm, to_u8, to_unsigned; intros H.
  rewrite !shiftr_8.
  assert (Hw : 2 ^ (8 * Z.of_nat (S n)) = 2 ^ 8 * 2 ^ (8 * Z.of_nat n)).
  { rewrite <- Z.pow_add_r by lia. f_equal; lia. }
  assert (Hpos : 0 < 2 ^ (8 * Z.of_nat n)) by (apply Z.pow_pos_nonneg; lia).
  rewrite Hw in H. rewrite !Z.rem_mul_r in H by lia.
  change (2 ^ 8) with 256 in *.
  pose proof (Z.mod_pos_bound x 256). pose proof (Z.mod_pos_bound y 256).
  assert (Hlow : x mod 256 = y mod 256).
  { apply (f_equal (fun z => z mod 256)) in H.
    rewrite !(Z.mul_comm 256), !Z_mod_plus_full, !Zmod_mod in H. exact H. }
  split; [exact Hlow|lia].
Qed.

(** The low [n] bytes depend on the value modulo [2^(8n)] only. *)
Lemma le_bytes_eqm n : forall x y, eqm (8 * Z.of_nat n) x y -> le_bytes n x = le_bytes n y.
Proof.
  induction n as [|n IH]; intros x y H; [reflexivity|].
  apply eqm_split_byte in H as [H0 H1].
  simpl. rewrite H0. f_equal. apply IH, H1.
Qed.

Lemma le_combine_le_bytes n : forall v, le_combine (le_bytes n v) = v mod 2 ^ (8 * Z.of_nat n).
Proof.
  induction n as [|n IH]; intros v.
  - simpl. rewrite Z.mod_1_r. reflexivity.
  - cbn [le_bytes le_combine]. rewrite IH, shiftr_8.
    assert (Hw : 2 ^ (8 * Z.of_nat (S n)) = 2 ^ 8 * 2 ^ (8 * Z.of_nat n)).
    { rewrite <- Z.pow_add_r by lia. f_equal; lia. }
    assert (Hpos : 0 < 2 ^ (8 * Z.of_nat n)) by (apply Z.pow_pos_nonneg; lia).
    rewrite Hw, Z.rem_mul_r by lia. reflexivity.
Qed.

(** ** Stores and loads *)

Lemma store8_eq m a v : store8 m a v a = v.
Proof. unfold store8. rewrite Z.eqb_refl. reflexivity. Qed.

Lemma store8_ne m a v x : x <> a -> store8 m a v x = m x.
Proof. unfold store8. intros H. destruct (Z.eqb_spec x a); [contradiction|reflexivity]. Qed.

(** A store of [n] bytes at [a] leaves every other location alone. *)
Lemma store_le_outside n : forall m a v x,
  x < a \/ a + Z.of_nat n <= x -> store_le n m a v x = m x.
Proof.
  induction n as [|n IH]; intros m a v x Hx; [reflexivity|].
  cbn [store_le]. rewrite IH by lia. apply store8_ne. lia.
Qed.

(** The bytes found where [n] bytes of [v] were stored. *)
Lemma load_store_le n : forall m a v, load_bytes (store_le n m a v) a n = le_bytes n v.
Proof.
  unfold load_bytes.
  induction n as [|n IH]; intros m a v; [reflexivity|].
  cbn [store_le le_bytes seq map]. f_equal.
  - rewrite Z.add_0_r, store_le_outside by lia. apply store8_eq.
  - rewrite <- (IH (store8 m a (to_u8 v)) (a + 1) (Z.shiftr v 8)).
    rewrite <- seq_shift, map_map. apply map_ext. intros k. f_equal. lia.
Qed.

(** Reading back a stored value as a signed integer of the stored width. *)
Lemma load_signed_store_le n m a v :
  load_signed (store_le n m a v) a n = to_signed (8 * Z.of_nat n) v.
Proof.
  unfold load_signed. rewrite load_store_le, le_combine_le_bytes.
  apply to_signed_eqm. apply eqm_to_unsigned.
Qed.

Lemma memcpy_inside dst d src s n x :
  d <= x < d + n -> memcpy dst d src s n x = src (s + (x - d)).
Proof.
  intros H. unfold memcpy.
  destruct (Z.leb_spec d x), (Z.ltb_spec x (d + n)); simpl; try reflexivity; lia.
Qed.

Lemma memcpy_outside dst d src s n x :
  x < d \/ d + n <= x -> memcpy dst d src s n x = dst x.
Proof.
  intros H. unfold memcpy.
  destruct (Z.leb_spec d x), (Z.ltb_spec x (d + n)); simpl; try reflexivity; lia.
Qed.

Lemma load_bytes_length m a n : length (load_bytes m a n) = n.
Proof. unfold load_bytes. rewrite length_map, length_seq. reflexivity. Qed.

Lemma load_bytes_lookup m a n k :
  (k < n)%nat -> load_bytes m a n !! k = Some (m (a + Z.of_nat k)).
Proof.
  intros Hk. unfold load_bytes.
  rewrite list_lookup_fmap, lookup_seq_lt by lia. reflexivity.
Qed.

Arguments store_le : simpl never.
Arguments le_bytes : simpl never.
Arguments load_bytes : simpl never.
Arguments load_signed : simpl never.
Arguments memcpy : simpl never.
Arguments store8 : simpl never.

Lemma to_u8_idem x : to_u8 (to_u8 x) = to_u8 x.
Proof. unfold to_u8, to_unsigned. apply Zmod_mod. Qed.

Lemma eqm_signed_l k w x y : 0 <= k <= w -> eqm k x y -> eqm k (to_signed w x) y.
Proof.
  intros Hk H. eapply eqm_trans; [|exact H].
  apply (eqm_weaken k w); [exact Hk|apply eqm_to_signed].
Qed.

Lemma eqm_unsigned_l k w x y : 0 <= k <= w -> eqm k x y -> eqm k (to_unsigned w x) y.
Proof.
  intros Hk H. eapply eqm_trans; [|exact H].
  apply (eqm_weaken k w); [exact Hk|apply eqm_to_unsigned].
Qed.

Lemma eqm_to_u64 k x y : 0 <= k <= 64 -> eqm k x y -> eqm k (to_u64 x) y.
Proof. apply eqm_unsigned_l. Qed.

(** The helper's result has the low 32 bits of [target - source - length]. *)
Lemma relative_offset_eqm k len src dst x :
  0 <= k <= 32 -> eqm k (dst - src - len) x ->
  eqm k (ZyrexCalculateRelativeOffset len src dst) x.
Proof. intros Hk H. unfold ZyrexCalculateRelativeOffset, to_i32. apply eqm_signed_l; assumption. Qed.

(** ** The routines never touch the read counters *)

Lemma common_counters context instruction :
  same_counters context (snd (ZyrexRelocateCommonInstruction context instruction)).
Proof. split; reflexivity. Qed.

Lemma copy_and_patch_counters context instruction a size :
  same_counters context (snd (copy_and_patch context instruction a size)).
Proof.
  unfold copy_and_patch, ZyrexRelocateCommonInstruction; simpl.
  destruct size as [|p|p]; try (split; reflexivity).
  do 6 (destruct p as [p|p|]; try (split; reflexivity)).
Qed.

Lemma rewrite_unenlargeable_counters context instruction :
  same_counters context (snd (rewrite_unenlargeable context instruction)).
Proof. split; reflexivity. Qed.

Lemma rewrite_enlarged_counters context instruction :
  same_counters context (snd (rewrite_enlarged context instruction)).
Proof.
  unfold rewrite_enlarged.
  destruct (enlarged_opcode _) as [[opcode len]|]; [|split; reflexivity].
  destruct (opcode =? 233); split; reflexivity.
Qed.

Lemma relocate_dispatch_counters context instruction :
  same_counters context (snd (relocate_dispatch context instruction)).
Proof.
  unfold relocate_dispatch, ZyrexRelocateRelativeInstruction,
    ZyrexRelocateRelativeBranchInstruction, ZyrexRelocateRelativeMemoryInstruction.
  repeat match goal with
         | |- context [if ?b then _ else _] => destruct b
         | |- context [match ZyrexShouldRewriteBranchInstruction ?c ?i with _ => _ end] =>
             destruct (ZyrexShouldRewriteBranchInstruction c i) as [[|]|]
         end;
    auto using common_counters, copy_and_patch_counters, rewrite_unenlargeable_counters,
      rewrite_enlarged_counters.
  all: split; reflexivity.
Qed.

(** ** The dispatch either succeeds or hits [ZYAN_UNREACHABLE]

    None of the routines it calls returns a failing status. *)

Lemma copy_and_patch_outcome context instruction a size :
  success_or_unreachable (fst (copy_and_patch context instruction a size)).
Proof.
  unfold copy_and_patch, ZyrexRelocateCommonInstruction, success_or_unreachable; simpl.
  destruct size as [|p|p]; auto.
  do 6 (destruct p as [p|p|]; auto).
Qed.

Lemma rewrite_enlarged_outcome context instruction :
  success_or_unreachable (fst (rewrite_enlarged context instruction)).
Proof.
  unfold rewrite_enlarged, success_or_unreachable.
  destruct (enlarged_opcode _) as [[opcode len]|]; [|auto].
  destruct (opcode =? 233); auto.
Qed.

Lemma relocate_dispatch_outcome context instruction :
  success_or_unreachable (fst (relocate_dispatch context instruction)).
Proof.
  unfold relocate_dispatch, ZyrexRelocateRelativeInstruction,
    ZyrexRelocateRelativeBranchInstruction, ZyrexRelocateRelativeMemoryInstruction.
  repeat match goal with
         | |- context [if ?b then _ else _] => destruct b
         | |- context [match ZyrexShouldRewriteBranchInstruction ?c ?i with _ => _ end] =>
             destruct (ZyrexShouldRewriteBranchInstruction c i) as [[|]|]
         end;
    auto using copy_and_patch_outcome, rewrite_enlarged_outcome.
  all: unfold success_or_unreachable; simpl; auto.
Qed.

(* ====================================================================== *)
(** * [ZyrexRelocateInstruction]: the counters *)
(* ====================================================================== *)

(** A relative instruction that is neither a supported branch nor a memory
    access (a near [CALL]) makes the dispatch fail. *)
Example dispatch_fails_on_call :
  let call :=
    {| address_offset := 0; address := 0x1000;
       instruction := Example.branch ZYDIS_MNEMONIC_CALL 5 1 32 0x100;
       has_relative_target := true; has_external_target := true;
       is_internal_target := false; absolute_target_address := 0x1105;
       incoming := []; outgoing := OUTGOING_NONE |} in
  forall context, fst (relocate_dispatch context call) = Unreachable.
Proof. reflexivity. Qed.

(** C9.  When the dispatched relocation fails, [ZyrexRelocateInstruction]
    ends the way the dispatch ended and [bytes_read] and [instructions_read]
    are what they were before the call; when it succeeds, they are advanced
    by the length of the instruction and by one.  (The dispatch itself never
    changes the two counters.) *)
Theorem relocate_instruction_counters context instruction :
  let dispatched := relocate_dispatch context instruction in
  let result := ZyrexRelocateInstruction context instruction in
  if succeeded (fst dispatched)
  then fst result = Returned ZYAN_STATUS_SUCCESS
       /\ bytes_read (snd result)
          = to_u64 (bytes_read context + Zydis.length (decoded instruction))
       /\ instructions_read (snd result) = to_u64 (instructions_read context + 1)
  else result = dispatched
       /\ bytes_read (snd result) = bytes_read context
       /\ instructions_read (snd result) = instructions_read context.
Proof.
  intros dispatched result. subst dispatched result.
  unfold ZyrexRelocateInstruction.
  pose proof (relocate_dispatch_counters context instruction) as [Hb Hi].
  destruct (relocate_dispatch context instruction) as [status context'] eqn:E.
  simpl in *. destruct (succeeded status); simpl.
  - rewrite Hb, Hi. auto.
  - auto.
Qed.

(* ====================================================================== *)
(** * The rewrite decision *)
(* ====================================================================== *)

(** While no 64-bit overflow is involved, [branch_distance] is the plain
    difference [target - (destination + bytes_written) - length]. *)
Lemma branch_distance_exact context instruction :
  0 <= destination context + bytes_written context < 2 ^ 64 ->
  let distance :=
    absolute_target_address instruction - (destination context + bytes_written context)
    - Zydis.length (decoded instruction) in
  - 2 ^ 63 <= distance < 2 ^ 63 ->
  branch_distance context instruction = distance.
Proof.
  intros Hsrc distance Hd. unfold branch_distance, to_u64, to_unsigned, to_i64.
  rewrite Z.mod_small by lia. apply to_signed_id; [lia|]. subst distance. simpl. lia.
Qed.

Lemma should_rewrite_fits context instruction w :
  Zydis.imm_size (Zydis.imm0 (Zydis.raw (decoded instruction))) = w ->
  w = 8 \/ w = 16 \/ w = 32 ->
  ZyrexShouldRewriteBranchInstruction context instruction
  = Some (negb (fits w (branch_distance context instruction))).
Proof.
  intros Hsize Hw. unfold ZyrexShouldRewriteBranchInstruction. rewrite Hsize.
  set (d := branch_distance context instruction). clearbody d.
  unfold fits, int_min, int_max.
  destruct Hw as [-> | [-> | ->]]; simpl; f_equal;
    unfold ZYAN_INT8_MIN, ZYAN_INT8_MAX, ZYAN_INT16_MIN, ZYAN_INT16_MAX,
      ZYAN_INT32_MIN, ZYAN_INT32_MAX;
    repeat match goal with
           | |- context [?a <? ?b] => destruct (Z.ltb_spec a b)
           | |- context [?a >? ?b] => rewrite (Z.gtb_ltb a b)
           | |- context [?a <=? ?b] => destruct (Z.leb_spec a b)
           end; simpl; try reflexivity; lia.
Qed.

(* ====================================================================== *)
(** * Copy and patch: the memory routine *)
(* ====================================================================== *)

(** What [copy_and_patch] leaves behind, for a field of [size] bits. *)
Lemma copy_and_patch_spec context instruction field size :
  size = 8 \/ size = 16 \/ size = 32 ->
  let length := Zydis.length (decoded instruction) in
  let n := Z.to_nat (size / 8) in
  let value :=
    absolute_target_address instruction
    - (destination context + bytes_written context + length) in
  exists context',
    copy_and_patch context instruction field size = (Returned ZYAN_STATUS_SUCCESS, context')
    /\ load_bytes (destination_bytes context') field n = le_bytes n value
    /\ load_signed (destination_bytes context') field n = to_signed size value
    /\ (forall x, x < field \/ field + size / 8 <= x ->
        destination_bytes context' x
        = memcpy (destination_bytes context) (bytes_written context)
            (source_bytes context) (bytes_read context) length x)
    /\ bytes_written context' = to_u64 (bytes_written context + length)
    /\ translation_map context'
       = translation_map context
         ++ [map_item (to_u8 (bytes_read context)) (to_u8 (bytes_written context))].
Proof.
  intros Hsize length n value.
  assert (Hvalue : forall k, 0 <= k <= 32 ->
            eqm k (ZyrexCalculateRelativeOffset 0
                     (to_u64 (destination context + to_u64 (bytes_written context + length)))
                     (absolute_target_address instruction)) value).
  { intros k Hk. apply relative_offset_eqm; [exact Hk|].
    subst value. replace (absolute_target_address instruction
      - (destination context + bytes_written context + length))
      with (absolute_target_address instruction
      - (destination context + (bytes_written context + length)) - 0) by lia.
    apply eqm_sub; [|apply eqm_refl].
    apply eqm_sub; [apply eqm_refl|].
    apply eqm_to_u64; [lia|]. apply eqm_add; [apply eqm_refl|].
    apply eqm_to_u64; [lia|]. apply eqm_refl. }
  unfold copy_and_patch, ZyrexRelocateCommonInstruction. simpl.
  fold length.
  destruct Hsize as [-> | [-> | ->]]; subst n;
    [change (Z.to_nat (8 / 8)) with 1%nat
    |change (Z.to_nat (16 / 8)) with 2%nat
    |change (Z.to_nat (32 / 8)) with 4%nat];
    (eexists; split; [reflexivity|]); simpl;
    (split; [|split; [|split; [|split; [reflexivity|rewrite !to_u8_idem; reflexivity]]]]).
  - rewrite (load_store_le 1). apply (le_bytes_eqm 1).
    apply eqm_signed_l; [simpl; lia|]. apply Hvalue. simpl; lia.
  - rewrite (load_signed_store_le 1). apply to_signed_eqm.
    apply eqm_signed_l; [simpl; lia|]. apply Hvalue. simpl; lia.
  - intros x Hx. change (8 / 8) with 1 in Hx. apply (store_le_outside 1). simpl. lia.
  - rewrite (load_store_le 2). apply (le_bytes_eqm 2).
    apply eqm_signed_l; [simpl; lia|]. apply Hvalue. simpl; lia.
  - rewrite (load_signed_store_le 2). apply to_signed_eqm.
    apply eqm_signed_l; [simpl; lia|]. apply Hvalue. simpl; lia.
  - intros x Hx. change (16 / 8) with 2 in Hx. apply (store_le_outside 2). simpl. lia.
  - rewrite (load_store_le 4). apply (le_bytes_eqm 4).
    apply eqm_signed_l; [simpl; lia|]. apply Hvalue. simpl; lia.
  - rewrite (load_signed_store_le 4). apply to_signed_eqm.
    apply eqm_signed_l; [simpl; lia|]. apply Hvalue. simpl; lia.
  - intros x Hx. change (32 / 8) with 4 in Hx. apply (store_le_outside 4). simpl. lia.
Qed.

(** C5.  For an instruction with a relative memory operand and an external
    target, whose displacement has [size] bits ([size] one of 8, 16, 32):
    the relocation succeeds; the displacement field at
    [bytes_written + disp.offset] of the destination holds
    [target - (destination + bytes_written + length)] at that width (its low
    [size / 8] bytes, least significant first; read back as a signed integer
    of the width it is that value converted to the width); every other byte
    of the instruction is the source byte, and the rest of the destination
    is untouched. *)
Theorem relocate_memory_external context instruction size :
  has_external_target instruction = true ->
  Zydis.disp_size (Zydis.disp (Zydis.raw (decoded instruction))) = size ->
  size = 8 \/ size = 16 \/ size = 32 ->
  let length := Zydis.length (decoded instruction) in
  let written := bytes_written context in
  let field := written + Zydis.disp_offset (Zydis.disp (Zydis.raw (decoded instruction))) in
  let n := Z.to_nat (size / 8) in
  let value := absolute_target_address instruction - (destination context + written + length) in
  exists context',
    ZyrexRelocateRelativeMemoryInstruction context instruction
    = (Returned ZYAN_STATUS_SUCCESS, context')
    /\ load_bytes (destination_bytes context') field n = le_bytes n value
    /\ load_signed (destination_bytes context') field n = to_signed size value
    /\ (forall k, 0 <= k < length ->
        written + k < field \/ field + size / 8 <= written + k ->
        destination_bytes context' (written + k) = source_bytes context (bytes_read context + k))
    /\ (forall x, x < written \/ written + length <= x ->
        x < field \/ field + size / 8 <= x ->
        destination_bytes context' x = destination_bytes context x).
Proof.
  intros Hext Hsize Hw length written field n value.
  destruct (copy_and_patch_spec context instruction field size Hw)
    as (context' & Hrun & Hbytes & Hsigned & Hrest & _).
  exists context'. unfold ZyrexRelocateRelativeMemoryInstruction.
  rewrite Hext, Hsize. split; [exact Hrun|]. split; [exact Hbytes|]. split; [exact Hsigned|].
  split.
  - intros k Hk Hout. rewrite Hrest by exact Hout. fold written length.
    rewrite memcpy_inside by lia. f_equal. lia.
  - intros x Hx Hout. rewrite Hrest by exact Hout. fold written length.
    apply memcpy_outside. exact Hx.
Qed.

(** The example of the specification: [48 8B 05 10 00 00 00] moved 0x40
    bytes forward gets the displacement [D0 FF FF FF]. *)
Lemma relocate_memory_external_witness :
  let mov :=
    {| address_offset := 0; address := 0x1000;
       instruction := Example.rip_relative ZYDIS_MNEMONIC_MOV 7 3 0x10;
       has_relative_target := true; has_external_target := true;
       is_internal_target := false; absolute_target_address := 0x1017;
       incoming := []; outgoing := OUTGOING_NONE |} in
  let context :=
    Example.fresh_context 0x1000 [0x48; 0x8B; 0x05; 0x10; 0; 0; 0] 0x1040 [mov] in
  exists context',
    ZyrexRelocateRelativeMemoryInstruction context mov = (Returned ZYAN_STATUS_SUCCESS, context')
    /\ load_bytes (destination_bytes context') 3 4 = [0xD0; 0xFF; 0xFF; 0xFF]
    /\ (forall k, 0 <= k < 3 ->
        destination_bytes context' k = nth (Z.to_nat k) [0x48; 0x8B; 0x05] 0).
Proof.
  intros mov context.
  destruct (relocate_memory_external context mov 32 eq_refl eq_refl
              (or_intror (or_intror eq_refl)))
    as (context' & Hrun & Hbytes & _ & Hcopy & _).
  exists context'. split; [exact Hrun|]. split; [exact Hbytes|].
  intros k Hk.
  assert (Hk' : 0 <= k < 7) by lia.
  assert (Hout : 0 + k < 0 + 3 \/ 0 + 3 + 32 / 8 <= 0 + k) by lia.
  pose proof (Hcopy k Hk' Hout) as Hbyte. simpl in Hbyte.
  change (0 + k) with k in Hbyte. rewrite Hbyte.
  assert (Hcases : k = 0 \/ k = 1 \/ k = 2) by lia.
  destruct Hcases as [-> | [-> | ->]]; reflexivity.
Defined.

Example relocate_memory_external_bytes :
  Example.written (Example.relocate_chunk 0x1000 [0x48; 0x8B; 0x05; 0x10; 0; 0; 0] 7 0x1040)
  = Some ([0x48; 0x8B; 0x05; 0xD0; 0xFF; 0xFF; 0xFF], [(0, 0)]).
Proof. vm_compute. reflexivity. Qed.

(* ====================================================================== *)
(** * The rewritten branches *)
(* ====================================================================== *)

Lemma load_bytes_cons m a n : load_bytes m a (S n) = m a :: load_bytes m (a + 1) n.
Proof.
  unfold load_bytes. cbn [seq map]. rewrite Z.add_0_r. f_equal.
  rewrite <- seq_shift, map_map. apply map_ext. intros k. f_equal. lia.
Qed.

Lemma to_u64_add_l x y : to_u64 (to_u64 x + y) = to_u64 (x + y).
Proof. apply eqm_add; [apply eqm_to_unsigned|apply eqm_refl]. Qed.

(** The enlarged form written at [bytes_written]: [opcode] bytes, then the
    32-bit offset from the end of the form to the target. *)
Lemma rewrite_enlarged_spec context instruction opcode len :
  enlarged_opcode (Zydis.mnemonic (decoded instruction)) = Some (opcode, len) ->
  let written := bytes_written context in
  let target := absolute_target_address instruction in
  let prefix := if opcode =? 0xE9 then [0xE9] else [0x0F; opcode] in
  let field := written + Z.of_nat (length prefix) in
  exists context',
    rewrite_enlarged context instruction = (Returned ZYAN_STATUS_SUCCESS, context')
    /\ load_bytes (destination_bytes context') written (length prefix + 4)
       = prefix ++ le_bytes 4 (target - (destination context + field + 4))
    /\ load_signed (destination_bytes context') field 4
       = to_i32 (target - (destination context + field + 4))
    /\ (forall x, x < written \/ field + 4 <= x ->
        destination_bytes context' x = destination_bytes context x)
    /\ bytes_written context' = to_u64 (written + len)
    /\ translation_map context'
       = translation_map context ++ [map_item (to_u8 (bytes_read context)) (to_u8 written)].
Proof.
  intros Hop written target prefix field.
  assert (Hvalue : forall a, eqm 32
            (ZyrexCalculateRelativeOffset 4 (to_u64 (destination context + a)) target)
            (target - (destination context + a + 4))).
  { intros a. apply relative_offset_eqm; [lia|].
    replace (target - (destination context + a + 4))
      with (target - (destination context + a) - 4) by lia.
    apply eqm_sub; [|apply eqm_refl]. apply eqm_sub; [apply eqm_refl|].
    apply eqm_to_u64; [lia|apply eqm_refl]. }
  unfold rewrite_enlarged. rewrite Hop. subst prefix field.
  destruct (opcode =? 233) eqn:E; cbn [length]; fold written.
  - eexists. split; [reflexivity|]. cbn [destination_bytes with_destination_bytes
      ZyrexUpdateTranslationContext bytes_written translation_map bytes_read].
    split; [|split; [|split; [|split]]].
    + change (1 + 4)%nat with 5%nat. rewrite load_bytes_cons, load_store_le.
      rewrite store_le_outside by lia. rewrite store8_eq. cbn [app]. f_equal.
      apply (le_bytes_eqm 4), Hvalue.
    + rewrite load_signed_store_le. apply to_signed_eqm, Hvalue.
    + intros x Hx. rewrite store_le_outside by lia. apply store8_ne. lia.
    + reflexivity.
    + rewrite !to_u8_idem. reflexivity.
  - eexists. split; [reflexivity|]. cbn [destination_bytes with_destination_bytes
      ZyrexUpdateTranslationContext bytes_written translation_map bytes_read].
    split; [|split; [|split; [|split]]].
    + change (2 + 4)%nat with 6%nat.
      rewrite (load_bytes_cons _ written), (load_bytes_cons _ (written + 1)).
      replace (written + 1 + 1) with (written + 2) by lia.
      rewrite load_store_le, !store_le_outside by lia.
      rewrite store8_ne by lia. rewrite !store8_eq. cbn [app]. do 2 f_equal.
      apply (le_bytes_eqm 4), Hvalue.
    + rewrite load_signed_store_le. apply to_signed_eqm, Hvalue.
    + intros x Hx. rewrite store_le_outside by lia.
      rewrite store8_ne by lia. apply store8_ne. lia.
    + reflexivity.
    + rewrite !to_u8_idem. reflexivity.
Qed.

Lemma enlarged_opcode_jcc m cc :
  condition_code m = Some cc -> enlarged_opcode m = Some (0x80 + cc, 6).
Proof. destruct m; simpl; intros H; inversion H; reflexivity. Qed.

Lemma condition_code_enlargeable m cc :
  condition_code m = Some cc -> is_unenlargeable m = false /\ 0 <= cc <= 15.
Proof. destruct m; simpl; intros H; inversion H; split; (reflexivity || lia). Qed.

(** C4.  For a relative branch with an external target that has to be
    rewritten and has a 32-bit form: a [JMP] becomes [E9] and a 4-byte
    displacement, 5 bytes; a conditional jump with condition code [cc]
    becomes [0F], [80 + cc] and a 4-byte displacement, 6 bytes; the
    displacement is [target - (address of the displacement field + 4)] as a
    signed 32-bit integer (that value itself whenever it fits 32 bits);
    [bytes_written] grows by 5 and 6. *)
Theorem enlarged_branch_encoding context instruction :
  has_external_target instruction = true ->
  ZyrexShouldRewriteBranchInstruction context instruction = Some true ->
  let written := bytes_written context in
  let target := absolute_target_address instruction in
  let displacement field := target - (destination context + field + 4) in
  (Zydis.mnemonic (decoded instruction) = ZYDIS_MNEMONIC_JMP ->
   exists context',
     ZyrexRelocateRelativeBranchInstruction context instruction
     = (Returned ZYAN_STATUS_SUCCESS, context')
     /\ load_bytes (destination_bytes context') written 5
        = [0xE9] ++ le_bytes 4 (displacement (written + 1))
     /\ load_signed (destination_bytes context') (written + 1) 4
        = to_i32 (displacement (written + 1))
     /\ (int_min 32 <= displacement (written + 1) <= int_max 32 ->
         load_signed (destination_bytes context') (written + 1) 4 = displacement (written + 1))
     /\ bytes_written context' = to_u64 (written + 5))
  /\ (forall cc, condition_code (Zydis.mnemonic (decoded instruction)) = Some cc ->
      exists context',
        ZyrexRelocateRelativeBranchInstruction context instruction
        = (Returned ZYAN_STATUS_SUCCESS, context')
        /\ load_bytes (destination_bytes context') written 6
           = [0x0F; 0x80 + cc] ++ le_bytes 4 (displacement (written + 2))
        /\ load_signed (destination_bytes context') (written + 2) 4
           = to_i32 (displacement (written + 2))
        /\ (int_min 32 <= displacement (written + 2) <= int_max 32 ->
            load_signed (destination_bytes context') (written + 2) 4
            = displacement (written + 2))
        /\ bytes_written context' = to_u64 (written + 6)).
Proof.
  intros Hext Hrewrite written target displacement.
  subst written target displacement. cbv beta.
  unfold ZyrexRelocateRelativeBranchInstruction. rewrite Hext, Hrewrite. cbn [negb].
  split.
  - intros Hjmp. rewrite Hjmp. cbn [is_unenlargeable].
    destruct (rewrite_enlarged_spec context instruction 0xE9 5) as
      (context' & Hrun & Hbytes & Hsigned & _ & Hwritten & _).
    { rewrite Hjmp. reflexivity. }
    exists context'.
    change (Z.of_nat (length (if 233 =? 233 then [233] else [15; 233]))) with 1 in Hsigned.
    split; [exact Hrun|]. split; [exact Hbytes|]. split; [exact Hsigned|].
    split; [|exact Hwritten].
    intros Hfit. rewrite Hsigned.
    apply to_signed_id; [lia|]. unfold int_min, int_max in Hfit. simpl in Hfit |- *. lia.
  - intros cc Hcc. destruct (condition_code_enlargeable _ _ Hcc) as [Hen Hrange].
    rewrite Hen.
    destruct (rewrite_enlarged_spec context instruction (0x80 + cc) 6) as
      (context' & Hrun & Hbytes & Hsigned & _ & Hwritten & _).
    { apply enlarged_opcode_jcc, Hcc. }
    assert (Hne : (0x80 + cc =? 0xE9) = false) by (apply Z.eqb_neq; lia).
    rewrite Hne in Hbytes, Hsigned.
    exists context'. change (Z.of_nat (length [15; 128 + cc])) with 2 in Hsigned.
    split; [exact Hrun|]. split; [exact Hbytes|]. split; [exact Hsigned|].
    split; [|exact Hwritten].
    intros Hfit. rewrite Hsigned.
    apply to_signed_id; [lia|]. unfold int_min, int_max in Hfit. simpl in Hfit |- *. lia.
Qed.

(** A short conditional jump ([74 7F]) far from its target becomes
    [0F 84] and a 32-bit displacement. *)
Lemma enlarged_branch_encoding_witness :
  let jz :=
    {| address_offset := 0; address := 0x1000;
       instruction := Example.branch ZYDIS_MNEMONIC_JZ 2 1 8 0x7F;
       has_relative_target := true; has_external_target := true;
       is_internal_target := false; absolute_target_address := 0x1081;
       incoming := []; outgoing := OUTGOING_NONE |} in
  let context := Example.fresh_context 0x1000 [0x74; 0x7F] 0x100000 [jz] in
  exists context',
    ZyrexRelocateRelativeBranchInstruction context jz = (Returned ZYAN_STATUS_SUCCESS, context')
    /\ load_bytes (destination_bytes context') 0 6 = [0x0F; 0x84; 0x7B; 0x10; 0xF0; 0xFF]
    /\ bytes_written context' = 6.
Proof.
  intros jz context.
  destruct (proj2 (enlarged_branch_encoding context jz eq_refl eq_refl) 4 eq_refl)
    as (context' & Hrun & Hbytes & _ & _ & Hwritten).
  exists context'. split; [exact Hrun|]. split; [exact Hbytes|exact Hwritten].
Defined.

(** What the synthesis for a branch without a 32-bit form leaves behind. *)
Lemma rewrite_unenlargeable_spec context instruction :
  let length := Zydis.length (decoded instruction) in
  let imm := Zydis.imm_offset (Zydis.imm0 (Zydis.raw (decoded instruction))) in
  let written := bytes_written context in
  let read := bytes_read context in
  let target := absolute_target_address instruction in
  0 <= imm < length ->
  exists context',
    rewrite_unenlargeable context instruction = (Returned ZYAN_STATUS_SUCCESS, context')
    /\ load_bytes (destination_bytes context') written (Z.to_nat length)
       = <[Z.to_nat imm := 0x02]> (load_bytes (source_bytes context) read (Z.to_nat length))
    /\ load_bytes (destination_bytes context') (written + length) 7
       = [0xEB; 0x05; 0xE9]
         ++ le_bytes 4 (target - (destination context + written + length + 2 + 5))
    /\ (forall x, x < written \/ written + length + 7 <= x ->
        destination_bytes context' x = destination_bytes context x)
    /\ translation_map context'
       = translation_map context
         ++ [map_item (to_u8 read) (to_u8 written);
             map_item (to_u8 read) (to_u8 (written + 2 * length));
             map_item (to_u8 read) (to_u8 (written + 2 * length + 4))]
    /\ bytes_written context' = to_u64 (written + length + 7).
Proof.
  intros len imm written read target Himm.
  eexists. split; [reflexivity|].
  cbn [rewrite_unenlargeable destination_bytes with_destination_bytes
       ZyrexUpdateTranslationContext bytes_written translation_map bytes_read destination].
  unfold ZyrexWriteRelativeJump. fold len imm written read target.
  split; [|split; [|split; [|split]]].
  - apply list_eq. intros k.
    destruct (decide (k < Z.to_nat len)%nat) as [Hk|Hk].
    + rewrite load_bytes_lookup by exact Hk.
      rewrite store_le_outside by lia.
      rewrite !store8_ne by lia.
      destruct (decide (k = Z.to_nat imm)) as [->|Hne].
      * rewrite list_lookup_insert_eq by (rewrite load_bytes_length; lia).
        replace (written + Z.of_nat (Z.to_nat imm)) with (written + imm) by lia.
        rewrite store8_eq. reflexivity.
      * rewrite list_lookup_insert_ne by congruence.
        rewrite load_bytes_lookup by exact Hk.
        rewrite store8_ne by lia. rewrite memcpy_inside by lia. do 2 f_equal. lia.
    + rewrite !lookup_ge_None_2; [reflexivity| |].
      * rewrite length_insert, load_bytes_length. lia.
      * rewrite load_bytes_length. lia.
  - rewrite (load_bytes_cons _ (written + len)), (load_bytes_cons _ (written + len + 1)),
      (load_bytes_cons _ (written + len + 1 + 1)).
    replace (written + len + 1 + 1) with (written + len + 2) by lia.
    rewrite load_store_le, !store_le_outside by lia.
    rewrite store8_eq.
    rewrite (store8_ne _ (written + len + 2) _ (written + len + 1)) by lia.
    rewrite (store8_ne _ (written + len + 2) _ (written + len)) by lia.
    rewrite store8_eq, (store8_ne _ (written + len + 1) _ (written + len)) by lia.
    rewrite store8_eq. cbn [app]. do 3 f_equal.
    apply (le_bytes_eqm 4). apply relative_offset_eqm; [lia|].
    replace (target - (destination context + written + len + 2 + 5))
      with (target - (destination context + (written + len + 2)) - 5) by lia.
    apply eqm_sub; [|apply eqm_refl]. apply eqm_sub; [apply eqm_refl|].
    apply eqm_to_u64; [lia|apply eqm_refl].
  - intros x Hx. rewrite store_le_outside by lia.
    rewrite !store8_ne by lia. apply memcpy_outside. lia.
  - rewrite <- !app_assoc. cbn [app]. unfold map_item. rewrite !to_u8_idem.
    assert (E1 : to_u8 (to_u8 (to_u64 (written + len)) + len) = to_u8 (written + 2 * len)).
    { unfold to_u8 at 1 3. change (eqm 8 (to_u8 (to_u64 (written + len)) + len)
        (written + 2 * len)).
      replace (written + 2 * len) with (written + len + len) by lia.
      apply eqm_add; [|apply eqm_refl].
      apply eqm_unsigned_l; [lia|]. apply eqm_to_u64; [lia|apply eqm_refl]. }
    assert (E2 : to_u8 (to_u8 (to_u64 (to_u64 (written + len) + 2)) + len + 2)
                 = to_u8 (written + 2 * len + 4)).
    { unfold to_u8 at 1 3. change (eqm 8 (to_u8 (to_u64 (to_u64 (written + len) + 2)) + len + 2)
        (written + 2 * len + 4)).
      replace (written + 2 * len + 4) with (written + len + 2 + len + 2) by lia.
      apply eqm_add; [|apply eqm_refl]. apply eqm_add; [|apply eqm_refl].
      apply eqm_unsigned_l; [lia|]. apply eqm_to_u64; [lia|].
      apply eqm_add; [|apply eqm_refl]. apply eqm_to_u64; [lia|apply eqm_refl]. }
    rewrite E1, E2. reflexivity.
  - rewrite to_u64_add_l.
    replace (to_u64 (written + len) + 2 + 5) with (to_u64 (written + len) + 7) by lia.
    apply to_u64_add_l.
Qed.

(** C3.  A [JRCXZ] ([E3 64]) at the start of a chunk, relocated far from its
    target: the nine bytes written are the instruction with its immediate
    set to 2, then [EB 05], then [E9] and the 32-bit displacement, and three
    items with source offset 0 are appended to the translation map.  The
    short jump lives at destination offset 2 and the near jump at offset 4,
    but the second and third item record the destination offsets 4 and 8:
    [bytes_written] has already been advanced when the length of the
    instruction (and then 2 more) is added to it. *)
Theorem unenlargeable_branch_translation_items :
  Example.written (Example.relocate_chunk 0x1000 [0xE3; 0x64] 2 0x100000)
  = Some ([0xE3; 0x02; 0xEB; 0x05; 0xE9; 0x5D; 0x10; 0xF0; 0xFF],
          [(0, 0); (0, 4); (0, 8)]).
Proof. vm_compute. reflexivity. Qed.

(* ====================================================================== *)
(** * The offset fix-up *)
(* ====================================================================== *)

(** C1.  The 47 bytes of [long_chunk], analyzed at 0x1000 and relocated to
    0x100000: each [JZ] is enlarged to six bytes, so the [NOP] the [JMP]
    targets moves to destination offset 134.  After the fix-up has succeeded
    the displacement of the [JMP] (an 8-bit field) reads -124, while the
    destination offset of its target minus its own destination offset minus
    its length is 134 - 0 - 2 = 132. *)
Theorem fixup_truncates_to_field_width :
  match Example.relocate_chunk 0x1000 long_chunk 47 0x100000 with
  | Some (Returned ZYAN_STATUS_SUCCESS, context) =>
      match instructions context !! 0%nat with
      | Some jmp =>
          has_relative_target jmp = true
          /\ has_external_target jmp = false
          /\ patched_field (decoded jmp) = (1, 8)
          /\ patched_reading context jmp = Some (-124)
          /\ specified_displacement context jmp = Some 132
      | None => False
      end
  | _ => False
  end.
Proof. vm_compute. repeat split. Qed.

(* ====================================================================== *)
(** * The cross-reference pass *)
(* ====================================================================== *)

Lemma xref_step_length i j v : length (xref_step i j v) = length v.
Proof.
  unfold xref_step. destruct (v !! i), (v !! j); try reflexivity.
  destruct (targets _ _); [|reflexivity]. rewrite !length_alter. reflexivity.
Qed.

Lemma xref_run_length pairs : forall v, length (xref_run pairs v) = length v.
Proof.
  induction pairs as [|p pairs IH]; intros v; [reflexivity|].
  simpl. unfold xref_run in IH. rewrite IH. apply xref_step_length.
Qed.

Lemma xref_run_app p1 p2 v : xref_run (p1 ++ p2) v = xref_run p2 (xref_run p1 v).
Proof. unfold xref_run. apply fold_left_app. Qed.

Lemma xref_inner_run i v :
  xref_inner i v = xref_run (map (pair i) (seq 0 (length v))) v.
Proof.
  unfold xref_inner, xref_run. generalize (seq 0 (length v)). intros l. revert v.
  induction l as [|j l IH]; intros v; [reflexivity|]. simpl. apply IH.
Qed.

(** The two nested loops are one loop over [xref_pairs]. *)
Lemma second_pass_run v : second_pass v = xref_run (xref_pairs (length v)) v.
Proof.
  unfold second_pass, xref_pairs. generalize (seq 0 (length v)) at 1 3. intros l.
  remember (length v) as n eqn:Hn. revert v Hn.
  induction l as [|i l IH]; intros v Hn; [reflexivity|].
  cbn [fold_left flat_map]. rewrite xref_run_app.
  rewrite xref_inner_run, <- Hn. apply IH.
  rewrite xref_run_length. exact Hn.
Qed.

Lemma xref_pairs_In n i j : (i < n)%nat -> (j < n)%nat -> In (i, j) (xref_pairs n).
Proof.
  intros Hi Hj. unfold xref_pairs. apply in_flat_map. exists i. split.
  - apply in_seq. lia.
  - apply in_map, in_seq. lia.
Qed.

(** A property every iteration keeps holds after any run of iterations. *)
Lemma xref_run_invariant (P : list ZyrexAnalyzedInstruction -> Prop) :
  (forall i j v, P v -> P (xref_step i j v)) ->
  forall pairs v, P v -> P (xref_run pairs v).
Proof.
  intros Hstep pairs. induction pairs as [|p pairs IH]; intros v Hv; [exact Hv|].
  simpl. apply IH, Hstep, Hv.
Qed.

(** A property that iteration [(i, j)] establishes and every iteration keeps
    holds after a run that contains [(i, j)]. *)
Lemma xref_run_establish (P Q : list ZyrexAnalyzedInstruction -> Prop) i j :
  (forall i' j' v, P v -> P (xref_step i' j' v)) ->
  (forall v, P v -> Q (xref_step i j v)) ->
  (forall i' j' v, P v -> Q v -> Q (xref_step i' j' v)) ->
  forall pairs v, P v -> In (i, j) pairs -> Q (xref_run pairs v).
Proof.
  intros HP Hest Hkeep pairs.
  assert (Hgen : forall v, P v -> In (i, j) pairs \/ Q v -> Q (xref_run pairs v)).
  { induction pairs as [|p pairs IH]; intros v Hv [Hin|HQ].
    - destruct Hin.
    - exact HQ.
    - simpl. apply IH; [apply HP, Hv|].
      destruct Hin as [->|Hin]; [right; apply Hest, Hv|left; exact Hin].
    - simpl. apply IH; [apply HP, Hv|]. right. apply Hkeep; assumption. }
  intros v Hv Hin. apply Hgen; [exact Hv|left; exact Hin].
Qed.

(** Either the iteration leaves the vector alone because [item] does not
    target [current], or it marks element [j] and then element [i]. *)
Lemma xref_step_cases i j v :
  (xref_step i j v = v
   /\ forall current item, v !! i = Some current -> v !! j = Some item ->
      targets item current = false)
  \/ (exists current item,
        v !! i = Some current /\ v !! j = Some item /\ targets item current = true
        /\ xref_step i j v = alter (mark_incoming j) i (alter (mark_outgoing i) j v)).
Proof.
  unfold xref_step.
  destruct (v !! i) as [current|] eqn:Hi; [|left; split; [reflexivity|congruence]].
  destruct (v !! j) as [item|] eqn:Hj; [|left; split; [reflexivity|congruence]].
  destruct (targets item current) eqn:Ht.
  - right. exists current, item. auto.
  - left. split; [reflexivity|]. congruence.
Qed.

(** What an iteration does to the element at index [k]. *)
Lemma xref_step_elem i j v k x' :
  xref_step i j v !! k = Some x' ->
  exists x, v !! k = Some x
    /\ (x' = x
        \/ exists current item,
             v !! i = Some current /\ v !! j = Some item /\ targets item current = true
             /\ ((k = j /\ k <> i /\ x' = mark_outgoing i x)
                 \/ (k = i /\ k <> j /\ x' = mark_incoming j x)
                 \/ (k = i /\ k = j /\ x' = mark_incoming j (mark_outgoing i x)))).
Proof.
  destruct (xref_step_cases i j v) as [[-> _]|(current & item & Hi & Hj & Ht & ->)].
  - intros H. exists x'. auto.
  - rewrite list_lookup_alter. case_decide as Hki.
    + rewrite list_lookup_alter. case_decide as Hkj.
      * subst. destruct (v !! k) as [x|] eqn:Hk; [|discriminate].
        simpl. intros [= <-]. exists x. split; [reflexivity|].
        right. exists current, item. auto 10.
      * subst. destruct (v !! k) as [x|] eqn:Hk; [|discriminate].
        simpl. intros [= <-]. exists x. split; [reflexivity|].
        right. exists current, item. split; [assumption|]. split; [assumption|].
        split; [assumption|]. right. left. auto.
    + rewrite list_lookup_alter. case_decide as Hkj.
      * subst. destruct (v !! k) as [x|] eqn:Hk; [|discriminate].
        simpl. intros [= <-]. exists x. split; [reflexivity|].
        right. exists current, item. split; [assumption|]. split; [assumption|].
        split; [assumption|]. left. auto.
      * intros H. exists x'. auto.
Qed.

Lemma evolves_refl x : evolves x x.
Proof.
  split; [reflexivity|]. split; [auto|]. intros H. split; [exact H|].
  exists []. rewrite app_nil_r. reflexivity.
Qed.

Lemma evolves_mark_outgoing i x : evolves x (mark_outgoing i x).
Proof.
  split; [reflexivity|]. split; [simpl; discriminate|]. intros H. split; [exact H|].
  exists []. rewrite app_nil_r. reflexivity.
Qed.

Lemma evolves_mark_incoming j x : evolves x (mark_incoming j x).
Proof.
  split; [reflexivity|]. split; [auto|]. intros H. split; [reflexivity|].
  simpl. rewrite H. eauto.
Qed.

Lemma evolves_trans x y z : evolves x y -> evolves y z -> evolves x z.
Proof.
  intros (Hs1 & He1 & Hi1) (Hs2 & He2 & Hi2).
  split; [congruence|]. split; [auto|].
  intros H. destruct (Hi1 H) as (Hy & more1 & Hm1).
  destruct (Hi2 Hy) as (Hz & more2 & Hm2).
  split; [exact Hz|]. exists (more1 ++ more2). rewrite Hm2, Hm1, app_assoc. reflexivity.
Qed.

(** Every element of the vector after an iteration is a later state of the
    element at the same index before it. *)
Lemma xref_step_evolves i j v k x' :
  xref_step i j v !! k = Some x' -> exists x, v !! k = Some x /\ evolves x x'.
Proof.
  intros H. destruct (xref_step_elem _ _ _ _ _ H) as (x & Hk & Hcases).
  exists x. split; [exact Hk|].
  destruct Hcases as [->|(current & item & _ & _ & _ & [(_ & _ & ->)|[(_ & _ & ->)|(_ & _ & ->)]])].
  - apply evolves_refl.
  - apply evolves_mark_outgoing.
  - apply evolves_mark_incoming.
  - eapply evolves_trans; [apply evolves_mark_outgoing|apply evolves_mark_incoming].
Qed.

Lemma static_lookup (v v0 : list ZyrexAnalyzedInstruction) (k : nat) x :
  static <$> v = static <$> v0 -> v !! k = Some x ->
  exists x0, v0 !! k = Some x0 /\ static x0 = static x.
Proof.
  intros Hs Hk.
  assert (H : (static <$> v0) !! k = Some (static x)).
  { rewrite <- Hs, list_lookup_fmap, Hk. reflexivity. }
  rewrite list_lookup_fmap in H. destruct (v0 !! k) as [x0|]; [|discriminate].
  exists x0. split; [reflexivity|]. simpl in H. congruence.
Qed.

Lemma xref_step_static i j v : static <$> xref_step i j v = static <$> v.
Proof.
  destruct (xref_step_cases i j v) as [[-> _]|(current & item & _ & _ & _ & ->)];
    [reflexivity|].
  rewrite (list_fmap_alter static (mark_incoming j) id)
    by (apply Forall_true; intros x; reflexivity).
  rewrite list_alter_id by reflexivity.
  rewrite (list_fmap_alter static (mark_outgoing i) id)
    by (apply Forall_true; intros x; reflexivity).
  rewrite list_alter_id by reflexivity.
  reflexivity.
Qed.

Lemma static_fields x y :
  static x = static y ->
  address_offset x = address_offset y /\ address x = address y
  /\ instruction x = instruction y /\ has_relative_target x = has_relative_target y
  /\ absolute_target_address x = absolute_target_address y.
Proof. unfold static. intros [= -> -> -> -> ->]. auto. Qed.

Lemma targets_true item current :
  targets item current = true <->
  has_relative_target item = true /\ absolute_target_address item = address current.
Proof. unfold targets. rewrite andb_true_iff, Z.eqb_eq. reflexivity. Qed.

(** Every iteration keeps the invariant. *)
Lemma xref_step_invariant v0 i j v :
  xref_invariant v0 v -> xref_invariant v0 (xref_step i j v).
Proof.
  intros [Hs Ht]. split; [rewrite xref_step_static; exact Hs|].
  intros k x' Hk. destruct (xref_step_elem _ _ _ _ _ Hk) as (x & Hx & Hcases).
  pose proof (Ht k x Hx) as (T1 & T2 & T3).
  destruct Hcases as [->|(current & item & Hi & Hj & Htarget & Hcase)];
    [exact (Ht k x Hx)|].
  apply targets_true in Htarget as [Hrel Haddr].
  destruct (static_lookup v v0 i current Hs Hi) as (y & Hy & Hsy).
  apply static_fields in Hsy as (_ & Hay & _).
  assert (Hmarked : has_relative_target x = true -> absolute_target_address x = address current ->
            tracked v0 (mark_outgoing i x)).
  { intros Hr Ha. split; [simpl; discriminate|]. split; [simpl; congruence|].
    intros _ _. exists i, y. simpl. split; [exact Hy|]. split; [congruence|reflexivity]. }
  destruct Hcase as [(-> & _ & ->)|[(-> & _ & ->)|(-> & <- & ->)]].
  - rewrite Hj in Hx. injection Hx as <-. apply Hmarked; assumption.
  - exact (conj T1 (conj T2 T3)).
  - rewrite Hj in Hx. injection Hx as <-.
    destruct (Hmarked Hrel Haddr) as (M1 & M2 & M3). exact (conj M1 (conj M2 M3)).
Qed.

(** The vector the decode pass built satisfies it. *)
Lemma xref_invariant_initial buffer v0 :
  Forall (fresh buffer) v0 -> xref_invariant v0 v0.
Proof.
  intros Hfresh. split; [reflexivity|]. intros k x Hk.
  rewrite Forall_lookup in Hfresh. destruct (Hfresh k x Hk) as (He & Ho & _).
  split; [intros H; split; [congruence|exact Ho]|].
  split; [intros H; split; [congruence|exact Ho]|].
  intros Hr Hx. congruence.
Qed.

Lemma second_pass_invariant buffer v0 :
  Forall (fresh buffer) v0 -> xref_invariant v0 (second_pass v0).
Proof.
  intros Hfresh. rewrite second_pass_run.
  apply (xref_run_invariant (xref_invariant v0)).
  - intros i j v. apply xref_step_invariant.
  - eapply xref_invariant_initial, Hfresh.
Qed.

Lemma second_pass_length v : length (second_pass v) = length v.
Proof. rewrite second_pass_run. apply xref_run_length. Qed.

(** An instruction that is still external after the pass is not targeting
    any instruction of the vector. *)
Lemma second_pass_external buffer v0 (i j : nat) x y :
  Forall (fresh buffer) v0 ->
  second_pass v0 !! j = Some x -> second_pass v0 !! i = Some y ->
  has_external_target x = true -> absolute_target_address x <> address y.
Proof.
  intros Hfresh Hj Hi.
  set (Q := fun v : list ZyrexAnalyzedInstruction =>
              forall x y, v !! j = Some x -> v !! i = Some y ->
                          has_external_target x = true ->
                          absolute_target_address x <> address y).
  assert (HQ : Q (second_pass v0)); [|exact (HQ x y Hj Hi)].
  rewrite second_pass_run.
  apply (xref_run_establish (xref_invariant v0) Q i j).
  - intros i' j' v. apply xref_step_invariant.
  - intros v [Hs Ht] x' y' Hx' Hy' Hext.
    destruct (xref_step_cases i j v) as [[Hsame Hno]|(current & item & Hci & Hcj & _ & Hfired)].
    + rewrite Hsame in Hx', Hy'. specialize (Hno y' x' Hy' Hx').
      destruct (Ht j x' Hx') as (T1 & _). destruct (T1 Hext) as [Hrel _].
      unfold targets in Hno. rewrite Hrel in Hno. simpl in Hno.
      apply Z.eqb_neq. exact Hno.
    + exfalso. destruct (xref_step_elem _ _ _ _ _ Hx') as (x0 & Hx0 & Hcases).
      destruct Hcases as [->|(c & it & _ & _ & _ & [(_ & _ & ->)|[(-> & Hne & _)|(_ & _ & ->)]])].
      * rewrite Hfired in Hx'. rewrite list_lookup_alter in Hx'.
        case_decide as Hij.
        -- subst. rewrite list_lookup_alter_eq, Hx0 in Hx'. simpl in Hx'.
           injection Hx' as Hx'. rewrite <- Hx' in Hext. simpl in Hext. discriminate.
        -- rewrite list_lookup_alter_eq, Hx0 in Hx'. simpl in Hx'.
           injection Hx' as Hx'. rewrite <- Hx' in Hext. simpl in Hext. discriminate.
      * simpl in Hext. discriminate.
      * contradiction.
      * simpl in Hext. discriminate.
  - intros i' j' v _ HQv x' y' Hx' Hy' Hext.
    destruct (xref_step_evolves _ _ _ _ _ Hx') as (x0 & Hx0 & (Hsx & Hex & _)).
    destruct (xref_step_evolves _ _ _ _ _ Hy') as (y0 & Hy0 & (Hsy & _)).
    apply static_fields in Hsx as (_ & _ & _ & _ & Htx).
    apply static_fields in Hsy as (_ & Hay & _).
    rewrite Htx, Hay. apply (HQv x0 y0 Hx0 Hy0). auto.
  - eapply xref_invariant_initial, Hfresh.
  - apply xref_pairs_In.
    + apply lookup_lt_Some in Hi. rewrite second_pass_length in Hi. exact Hi.
    + apply lookup_lt_Some in Hj. rewrite second_pass_length in Hj. exact Hj.
Qed.

(* ====================================================================== *)
(** * The decode pass *)
(* ====================================================================== *)

Lemma layout_snoc start l stop item :
  layout start l stop -> address_offset item = stop ->
  1 <= Zydis.length (instruction item) ->
  layout start (l ++ [item]) (stop + Zydis.length (instruction item)).
Proof.
  revert start. induction l as [|x l IH]; intros start Hl Ho Hlen.
  - simpl in *. subst. auto.
  - simpl in *. destruct Hl as (Hx & Hxl & Hl). auto.
Qed.

Lemma layout_sum start l stop : layout start l stop -> sum_lengths l = stop - start.
Proof.
  revert start. induction l as [|x l IH]; intros start Hl.
  - simpl in *. lia.
  - simpl in *. destruct Hl as (_ & _ & Hl). rewrite (IH _ Hl). lia.
Qed.

Lemma layout_le start l stop : layout start l stop -> start <= stop.
Proof.
  revert start. induction l as [|x l IH]; intros start Hl.
  - simpl in Hl. lia.
  - simpl in Hl. destruct Hl as (_ & Hlen & Hl). apply IH in Hl. lia.
Qed.

(** In a layout every instruction starts inside the span, and a later
    instruction starts after an earlier one. *)
Lemma layout_lookup start l stop (i : nat) x :
  layout start l stop -> l !! i = Some x -> start <= address_offset x < stop.
Proof.
  revert start i. induction l as [|y l IH]; intros start i Hl Hi; [discriminate|].
  simpl in Hl. destruct Hl as (Hy & Hlen & Hl). destruct i as [|i].
  - injection Hi as <-. apply layout_le in Hl. lia.
  - simpl in Hi. specialize (IH _ _ Hl Hi). lia.
Qed.

Lemma layout_increasing start l stop (i j : nat) x y :
  layout start l stop -> l !! i = Some x -> l !! j = Some y -> (i < j)%nat ->
  address_offset x < address_offset y.
Proof.
  revert start i j. induction l as [|z l IH]; intros start i j Hl Hi Hj Hij; [discriminate|].
  simpl in Hl. destruct Hl as (Hz & Hlen & Hl).
  destruct j as [|j]; [lia|]. simpl in Hj. destruct i as [|i].
  - injection Hi as <-. pose proof (layout_lookup _ _ _ _ _ Hl Hj). lia.
  - simpl in Hi. apply (IH _ i j Hl Hi Hj). lia.
Qed.

Lemma layout_static l : forall l' start stop,
  static <$> l' = static <$> l -> layout start l stop -> layout start l' stop.
Proof.
  induction l as [|x l IH]; intros [|x' l'] start stop Hs Hl; try discriminate.
  - exact Hl.
  - rewrite !fmap_cons in Hs.
    assert (Hx : static x' = static x) by congruence.
    assert (Hs' : static <$> l' = static <$> l) by congruence.
    apply static_fields in Hx as (Ho & _ & Hi & _).
    simpl in *. destruct Hl as (Hxo & Hlen & Hl). rewrite Ho, Hi.
    split; [exact Hxo|]. split; [exact Hlen|]. apply IH; assumption.
Qed.

Section DecodePass.

Variable decode : list Z -> Z -> ZyanStatus + ZydisDecodedInstruction.
Variable calc : ZydisDecodedInstruction -> Z -> ZyanStatus + Z.
Variable buffer : Z.
Variable bytes : list Z.
Variable length bytes_to_analyze : Z.

(** Every item the decode pass pushes is [fresh], whatever the decoder. *)
Lemma first_pass_fresh fuel : forall offset acc l n,
  first_pass decode calc fuel buffer bytes length bytes_to_analyze offset acc
  = Some (inr (l, n)) ->
  Forall (fresh buffer) acc -> Forall (fresh buffer) l.
Proof.
  induction fuel as [|fuel IH]; intros offset acc l n Hrun Hacc; [discriminate|].
  simpl in Hrun. destruct (offset <? bytes_to_analyze).
  - destruct (decode _ _) as [status|decoded]; [discriminate|].
    destruct (if negb _ then _ else _) as [status|target]; [discriminate|].
    apply IH in Hrun; [exact Hrun|].
    apply Forall_app. split; [exact Hacc|].
    apply Forall_singleton. repeat split.
  - injection Hrun as <- <-. exact Hacc.
Qed.

Hypothesis decode_ok : decoder_contract decode.
Hypothesis length_range : 0 <= length < 2 ^ 64.

(** With a decoder that keeps its contract the loop lays the instructions
    out back to back, starts each of them before [bytes_to_analyze], and
    stops at or past it. *)
Lemma first_pass_layout fuel : forall offset acc l n,
  first_pass decode calc fuel buffer bytes length bytes_to_analyze offset acc
  = Some (inr (l, n)) ->
  0 <= offset <= length ->
  layout 0 acc offset ->
  Forall (fun x => address_offset x < bytes_to_analyze) acc ->
  layout 0 l n /\ bytes_to_analyze <= n <= length
  /\ Forall (fun x => address_offset x < bytes_to_analyze) l.
Proof.
  induction fuel as [|fuel IH]; intros offset acc l n Hrun Hoff Hlay Hbefore; [discriminate|].
  simpl in Hrun. destruct (Z.ltb_spec offset bytes_to_analyze) as [Hlt|Hge].
  - destruct (decode _ _) as [status|decoded] eqn:Hdec; [discriminate|].
    destruct (if negb _ then _ else _) as [status|target]; [discriminate|].
    apply decode_ok in Hdec.
    assert (Havail : to_u64 (length - offset) = length - offset).
    { unfold to_u64, to_unsigned. apply Z.mod_small. lia. }
    rewrite Havail in Hdec.
    assert (Hnext : to_u64 (offset + Zydis.length decoded) = offset + Zydis.length decoded).
    { unfold to_u64, to_unsigned. apply Z.mod_small. lia. }
    rewrite Hnext in Hrun.
    apply IH in Hrun; [exact Hrun|lia| |].
    + apply (layout_snoc 0 acc offset); [exact Hlay|reflexivity|simpl; lia].
    + apply Forall_app. split; [exact Hbefore|]. apply Forall_singleton. exact Hlt.
  - injection Hrun as <- <-. split; [exact Hlay|]. split; [lia|exact Hbefore].
Qed.

(** And the loop comes to an end: [bytes_to_analyze - offset] iterations
    and the final test are enough. *)
Lemma first_pass_terminates fuel : forall offset acc,
  0 <= offset <= length ->
  (Z.to_nat (bytes_to_analyze - offset) < fuel)%nat ->
  first_pass decode calc fuel buffer bytes length bytes_to_analyze offset acc <> None.
Proof.
  induction fuel as [|fuel IH]; intros offset acc Hoff Hfuel; [lia|].
  simpl. destruct (Z.ltb_spec offset bytes_to_analyze) as [Hlt|Hge]; [|discriminate].
  destruct (decode _ _) as [status|decoded] eqn:Hdec; [discriminate|].
  destruct (if negb _ then _ else _) as [status|target]; [discriminate|].
  apply decode_ok in Hdec.
  assert (Havail : to_u64 (length - offset) = length - offset).
  { unfold to_u64, to_unsigned. apply Z.mod_small. lia. }
  rewrite Havail in Hdec.
  assert (Hnext : to_u64 (offset + Zydis.length decoded) = offset + Zydis.length decoded).
  { unfold to_u64, to_unsigned. apply Z.mod_small. lia. }
  rewrite Hnext. apply IH; lia.
Qed.

End DecodePass.

(** X16.  The decode loop of the analysis comes to an end: with a decoder
    that, when it succeeds, reports a length of at least 1 and at most the
    bytes it was given, and a buffer length that fits 64 bits,
    [bytes_to_analyze + 1] iterations are enough for the loop to leave, so
    the analysis returns (a failing status or the instructions). *)
Lemma ZyrexAnalyzeInstructions_terminates decode calc buffer bytes length bytes_to_analyze :
  decoder_contract decode -> 0 <= length < 2 ^ 64 ->
  ZyrexAnalyzeInstructions decode calc buffer bytes length bytes_to_analyze <> None.
Proof.
  intros Hdec Hlen. unfold ZyrexAnalyzeInstructions.
  pose proof (first_pass_terminates decode calc buffer bytes length bytes_to_analyze Hdec Hlen
                (S (Z.to_nat bytes_to_analyze)) 0 []) as Hterm.
  destruct (first_pass _ _ _ _ _ _ _ _ _) as [[status|[l n]]|]; try discriminate.
  apply Hterm; [lia|]. rewrite Z.sub_0_r. lia.
Qed.

(** The result of a successful analysis is the cross-reference pass applied
    to the result of the decode pass. *)
Lemma ZyrexAnalyzeInstructions_success decode calc buffer bytes length bytes_to_analyze l n :
  ZyrexAnalyzeInstructions decode calc buffer bytes length bytes_to_analyze = Some (inr (l, n)) ->
  exists v0,
    first_pass decode calc (S (Z.to_nat bytes_to_analyze)) buffer bytes length bytes_to_analyze
      0 [] = Some (inr (v0, n))
    /\ l = second_pass v0.
Proof.
  unfold ZyrexAnalyzeInstructions.
  destruct (first_pass _ _ _ _ _ _ _ _ _) as [[status|[v0 m]]|]; try discriminate.
  intros [= <- <-]. exists v0. auto.
Qed.

(* ====================================================================== *)
(** * What a successful analysis returns *)
(* ====================================================================== *)

Lemma analysis_invariant decode calc buffer bytes length bytes_to_analyze l n :
  ZyrexAnalyzeInstructions decode calc buffer bytes length bytes_to_analyze = Some (inr (l, n)) ->
  exists v0,
    first_pass decode calc (S (Z.to_nat bytes_to_analyze)) buffer bytes length bytes_to_analyze
      0 [] = Some (inr (v0, n))
    /\ l = second_pass v0
    /\ Forall (fresh buffer) v0
    /\ xref_invariant v0 l.
Proof.
  intros Hrun. apply ZyrexAnalyzeInstructions_success in Hrun as (v0 & Hfirst & ->).
  assert (Hfresh : Forall (fresh buffer) v0).
  { eapply first_pass_fresh; [exact Hfirst|constructor]. }
  exists v0. split; [exact Hfirst|]. split; [reflexivity|]. split; [exact Hfresh|].
  eapply second_pass_invariant, Hfresh.
Qed.

(** C6.  For a decoder that keeps its contract and a buffer length that is a
    [ZyanUSize]: after a successful analysis [bytes_read] is the summed
    decoded length of the returned instructions and is at least
    [bytes_to_analyze]; the instructions lie back to back from offset 0 up
    to [bytes_read], and each of them starts before [bytes_to_analyze]. *)
Theorem analysis_bytes_read decode calc buffer bytes length bytes_to_analyze
    instructions bytes_read :
  decoder_contract decode ->
  0 <= length < 2 ^ 64 ->
  ZyrexAnalyzeInstructions decode calc buffer bytes length bytes_to_analyze
  = Some (inr (instructions, bytes_read)) ->
  sum_lengths instructions = bytes_read
  /\ bytes_to_analyze <= bytes_read
  /\ layout 0 instructions bytes_read
  /\ Forall (fun x => address_offset x < bytes_to_analyze) instructions.
Proof.
  intros Hdec Hlen Hrun.
  apply analysis_invariant in Hrun as (v0 & Hfirst & -> & Hfresh & [Hstatic _]).
  apply (first_pass_layout decode calc buffer bytes length bytes_to_analyze Hdec Hlen) in Hfirst
    as (Hlay & Hbound & Hbefore); [|lia|reflexivity|constructor].
  assert (Hlay' : layout 0 (second_pass v0) bytes_read).
  { eapply layout_static; [exact Hstatic|exact Hlay]. }
  split; [rewrite (layout_sum _ _ _ Hlay'); lia|]. split; [lia|]. split; [exact Hlay'|].
  apply Forall_lookup. intros k x Hk.
  destruct (static_lookup _ _ _ _ Hstatic Hk) as (x0 & Hx0 & Hs).
  apply static_fields in Hs as (Ho & _). rewrite <- Ho.
  rewrite Forall_lookup in Hbefore. exact (Hbefore k x0 Hx0).
Qed.

(** C7.  After a successful analysis, for every returned instruction: if
    [has_external_target] is set then no returned instruction has its
    [absolute_target_address] as address; and an instruction with a
    relative target that is the address of no returned instruction (a
    target outside the chunk, or one in the middle of an instruction) has
    [has_external_target] set. *)
Theorem external_target_not_analyzed decode calc buffer bytes length bytes_to_analyze
    instructions bytes_read :
  ZyrexAnalyzeInstructions decode calc buffer bytes length bytes_to_analyze
  = Some (inr (instructions, bytes_read)) ->
  forall (j : nat) item, instructions !! j = Some item ->
    (has_external_target item = true ->
     forall (i : nat) other, instructions !! i = Some other ->
       address other <> absolute_target_address item)
    /\ (has_relative_target item = true ->
        (forall (i : nat) other, instructions !! i = Some other ->
           address other <> absolute_target_address item) ->
        has_external_target item = true).
Proof.
  intros Hrun j item Hj.
  apply analysis_invariant in Hrun as (v0 & _ & -> & Hfresh & [Hstatic Htracked]).
  split.
  - intros Hext i other Hi Heq.
    exact (second_pass_external buffer v0 i j item other Hfresh Hj Hi Hext (eq_sym Heq)).
  - intros Hrel Hnone. destruct (has_external_target item) eqn:Hext; [reflexivity|].
    exfalso. destruct (Htracked j item Hj) as (_ & _ & T3).
    destruct (T3 Hrel Hext) as (i & y & Hy & Haddr & _).
    destruct (static_lookup v0 (second_pass v0) i y (eq_sym Hstatic) Hy) as (other & Hother & Hs).
    apply static_fields in Hs as (_ & Ha & _).
    apply (Hnone i other Hother). congruence.
Qed.

(** C8, as the code has it.  After a successful analysis, for every returned
    instruction: without a relative target, or with an external one,
    [outgoing] is the none value; and as long as no more than 255
    instructions were analyzed the converse holds too, so that
    [outgoing = none] exactly when the instruction has no relative target or
    its target is external.  ([outgoing] is an 8-bit index, and index 255 is
    the none value.) *)
Theorem outgoing_none_iff decode calc buffer bytes length bytes_to_analyze
    instructions bytes_read :
  ZyrexAnalyzeInstructions decode calc buffer bytes length bytes_to_analyze
  = Some (inr (instructions, bytes_read)) ->
  forall (j : nat) item, instructions !! j = Some item ->
    (has_relative_target item = false \/ has_external_target item = true ->
     outgoing item = OUTGOING_NONE)
    /\ ((List.length instructions <= 255)%nat ->
        (outgoing item = OUTGOING_NONE <->
         has_relative_target item = false \/ has_external_target item = true)).
Proof.
  intros Hrun j item Hj.
  apply analysis_invariant in Hrun as (v0 & _ & -> & Hfresh & [Hstatic Htracked]).
  destruct (Htracked j item Hj) as (T1 & T2 & T3).
  assert (Hnone : has_relative_target item = false \/ has_external_target item = true ->
            outgoing item = OUTGOING_NONE).
  { intros [H|H]; [apply T2, H|apply T1, H]. }
  split; [exact Hnone|]. intros Hsize. split; [|exact Hnone].
  intros Hout. destruct (has_relative_target item) eqn:Hrel; [|auto].
  destruct (has_external_target item) eqn:Hext; [auto|]. exfalso.
  destruct (T3 eq_refl eq_refl) as (i & y & Hy & _ & Hi).
  apply lookup_lt_Some in Hy. rewrite second_pass_length in Hsize.
  assert (Hrange : 0 <= Z.of_nat i < 255) by lia.
  rewrite Hi in Hout. unfold OUTGOING_NONE, to_u8, to_unsigned in Hout.
  change (2 ^ 8) with 256 in Hout. rewrite Z.mod_small in Hout by lia.
  change (-1 mod 256) with 255 in Hout. lia.
Qed.

Lemma to_u64_add_inj b x y :
  to_u64 (b + x) = to_u64 (b + y) -> 0 <= x < 2 ^ 64 -> 0 <= y < 2 ^ 64 -> x = y.
Proof.
  intros H Hx Hy.
  assert (He : eqm 64 (b + x - b) (b + y - b)).
  { apply eqm_sub; [exact H|apply eqm_refl]. }
  unfold eqm in He. replace (b + x - b) with x in He by lia.
  replace (b + y - b) with y in He by lia.
  rewrite !Z.mod_small in He by lia. exact He.
Qed.

(** Instructions laid out back to back inside the address space have
    pairwise different addresses. *)
Lemma layout_distinct_addresses buffer v0 n (i k : nat) y x :
  layout 0 v0 n -> n < 2 ^ 64 -> Forall (fresh buffer) v0 ->
  v0 !! i = Some y -> v0 !! k = Some x -> address y = address x -> i = k.
Proof.
  intros Hlay Hn Hfresh Hi Hk Haddr.
  rewrite Forall_lookup in Hfresh.
  destruct (Hfresh i y Hi) as (_ & _ & _ & Hay).
  destruct (Hfresh k x Hk) as (_ & _ & _ & Hax).
  pose proof (layout_lookup _ _ _ _ _ Hlay Hi) as Hyo.
  pose proof (layout_lookup _ _ _ _ _ Hlay Hk) as Hxo.
  rewrite Hay, Hax in Haddr. apply to_u64_add_inj in Haddr; [|lia|lia].
  destruct (Nat.lt_trichotomy i k) as [Hlt|[Heq|Hgt]]; [|exact Heq|].
  - pose proof (layout_increasing _ _ _ _ _ _ _ Hlay Hi Hk Hlt). lia.
  - pose proof (layout_increasing _ _ _ _ _ _ _ Hlay Hk Hi Hgt). lia.
Qed.

(** An element that targets itself is marked both ways by iteration
    [(k, k)], and stays so. *)
Lemma second_pass_self_target buffer v0 (k : nat) x0 :
  Forall (fresh buffer) v0 ->
  v0 !! k = Some x0 ->
  has_relative_target x0 = true -> absolute_target_address x0 = address x0 ->
  exists x, second_pass v0 !! k = Some x
    /\ has_external_target x = false
    /\ is_internal_target x = true
    /\ In (to_u8 (Z.of_nat k)) (incoming x).
Proof.
  intros Hfresh Hk Hrel Hself.
  set (Q := fun v : list ZyrexAnalyzedInstruction =>
              exists x, v !! k = Some x /\ has_external_target x = false
                        /\ is_internal_target x = true
                        /\ In (to_u8 (Z.of_nat k)) (incoming x)).
  change (Q (second_pass v0)). rewrite second_pass_run.
  apply (xref_run_establish (xref_invariant v0) Q k k).
  - intros i' j' v. apply xref_step_invariant.
  - intros v [Hs _].
    destruct (static_lookup v0 v k x0 (eq_sym Hs) Hk) as (x & Hx & Hsx).
    apply static_fields in Hsx as (_ & Ha & _ & Hr & Ht).
    assert (Htargets : targets x x = true).
    { apply targets_true. split; congruence. }
    unfold xref_step. rewrite Hx, Htargets.
    exists (mark_incoming k (mark_outgoing k x)).
    split; [rewrite !list_lookup_alter_eq, Hx; reflexivity|].
    split; [reflexivity|]. split; [reflexivity|].
    simpl. apply in_or_app. right. left. reflexivity.
  - intros i' j' v _ (x & Hx & Hext & Hint & Hin).
    assert (Hsome : is_Some (xref_step i' j' v !! k)).
    { apply lookup_lt_is_Some. rewrite xref_step_length.
      apply lookup_lt_Some in Hx. exact Hx. }
    destruct Hsome as [x' Hx'].
    destruct (xref_step_evolves _ _ _ _ _ Hx') as (x1 & Hx1 & (_ & He & Hi)).
    rewrite Hx in Hx1. injection Hx1 as <-.
    destruct (Hi Hint) as (Hint' & more & Hmore).
    exists x'. split; [exact Hx'|]. split.
    + destruct (has_external_target x') eqn:E; [|reflexivity].
      specialize (He eq_refl). congruence.
    + split; [exact Hint'|]. rewrite Hmore. apply in_or_app. left. exact Hin.
  - eapply xref_invariant_initial, Hfresh.
  - apply lookup_lt_Some in Hk. apply xref_pairs_In; exact Hk.
Qed.

(** C10, as the code has it.  For a decoder that keeps its contract: an
    analyzed instruction whose relative target is its own address has, after
    the analysis, [has_external_target] cleared, [is_internal_target] set,
    [outgoing] equal to its own index converted to [ZyanU8] and that value in
    its [incoming] list; for an index below 256 this is the index itself. *)
Theorem self_target_is_internal decode calc buffer bytes length bytes_to_analyze
    instructions bytes_read :
  decoder_contract decode ->
  0 <= length < 2 ^ 64 ->
  ZyrexAnalyzeInstructions decode calc buffer bytes length bytes_to_analyze
  = Some (inr (instructions, bytes_read)) ->
  forall (k : nat) item, instructions !! k = Some item ->
    has_relative_target item = true ->
    absolute_target_address item = address item ->
    has_external_target item = false
    /\ is_internal_target item = true
    /\ outgoing item = to_u8 (Z.of_nat k)
    /\ In (to_u8 (Z.of_nat k)) (incoming item)
    /\ ((k < 256)%nat -> outgoing item = Z.of_nat k /\ In (Z.of_nat k) (incoming item)).
Proof.
  intros Hdec Hlen Hrun k item Hk Hrel Hself.
  apply analysis_invariant in Hrun as (v0 & Hfirst & -> & Hfresh & [Hstatic Htracked]).
  apply (first_pass_layout decode calc buffer bytes length bytes_to_analyze Hdec Hlen) in Hfirst
    as (Hlay & Hbound & _); [|lia|reflexivity|constructor].
  destruct (static_lookup _ _ _ _ Hstatic Hk) as (x0 & Hx0 & Hs).
  apply static_fields in Hs as (_ & Ha & _ & Hr & Ht).
  destruct (second_pass_self_target buffer v0 k x0 Hfresh Hx0) as (x & Hx & Hext & Hint & Hin);
    [congruence|congruence|].
  rewrite Hk in Hx. injection Hx as <-.
  assert (Hout : outgoing item = to_u8 (Z.of_nat k)).
  { destruct (Htracked k item Hk) as (_ & _ & T3).
    destruct (T3 Hrel Hext) as (i & y & Hy & Haddr & Hout).
    assert (i = k); [|subst; exact Hout].
    eapply (layout_distinct_addresses buffer v0 bytes_read); eauto; [lia|congruence]. }
  split; [exact Hext|]. split; [exact Hint|]. split; [exact Hout|]. split; [exact Hin|].
  intros Hsmall.
  assert (Hk8 : to_u8 (Z.of_nat k) = Z.of_nat k).
  { unfold to_u8, to_unsigned. apply Z.mod_small. change (2 ^ 8) with 256. lia. }
  rewrite <- Hk8. split; assumption.
Qed.

(* ====================================================================== *)
(** * Worked examples *)
(* ====================================================================== *)

Lemma example_decoder_contract : decoder_contract Example.decoder.
Proof.
  intros bs n d. unfold Example.decoder.
  destruct (Example.decode_bytes _) as [status|d']; [discriminate|].
  destruct (Z.leb_spec 1 (Zydis.length d')), (Z.leb_spec (Zydis.length d') n);
    simpl; try discriminate.
  intros [= <-]. lia.
Qed.

(** One byte asked for, a two-byte instruction read. *)
Lemma analysis_bytes_read_witness :
  exists instructions,
    Example.analyze 0x1000 [0xEB; 0x01; 0x90; 0xC3] 1 = Some (inr (instructions, 2))
    /\ sum_lengths instructions = 2
    /\ 1 <= 2.
Proof.
  eexists. split; [reflexivity|].
  destruct (analysis_bytes_read Example.decoder Example.calc_absolute_address
              0x1000 [0xEB; 0x01; 0x90; 0xC3] 4 1 _ 2 example_decoder_contract
              ltac:(lia) eq_refl) as (Hsum & Hge & _).
  split; [exact Hsum|exact Hge].
Defined.

(** A [JMP] into the middle of the [MOV] that follows it stays external. *)
Lemma external_target_not_analyzed_witness :
  exists instructions item,
    Example.analyze 0x1000 [0xEB; 0x01; 0x48; 0x8B; 0x05; 0x10; 0; 0; 0] 9
    = Some (inr (instructions, 9))
    /\ instructions !! 0%nat = Some item
    /\ absolute_target_address item = 0x1003
    /\ has_external_target item = true
    /\ forall (i : nat) other, instructions !! i = Some other ->
         address other <> absolute_target_address item.
Proof.
  eexists. eexists. split; [reflexivity|]. split; [reflexivity|].
  split; [reflexivity|]. split; [reflexivity|].
  apply (proj1 (external_target_not_analyzed Example.decoder Example.calc_absolute_address
                  0x1000 [0xEB; 0x01; 0x48; 0x8B; 0x05; 0x10; 0; 0; 0] 9 9 _ 9 eq_refl
                  0%nat _ eq_refl)).
  reflexivity.
Defined.

(** C8 as stated fails on a chunk of 256 instructions: a near [JMP] to the
    last of 255 [NOP]s, the instruction with index 255, has an internal
    target and yet [outgoing] is the none value. *)
Lemma outgoing_none_counterexample :
  match Example.analyze 0x1000 ([0xE9; 0xFE; 0; 0; 0] ++ repeat 0x90 255) 260 with
  | Some (inr (instructions, _)) =>
      exists item,
        instructions !! 0%nat = Some item
        /\ ~ (outgoing item = OUTGOING_NONE <->
              has_relative_target item = false \/ has_external_target item = true)
  | _ => False
  end.
Proof.
  vm_compute. eexists. split; [reflexivity|].
  intros [H _]. destruct (H eq_refl); discriminate.
Qed.

(** The short [JMP] over a [NOP] to the [RET]: an internal target, and
    [outgoing] is not the none value. *)
Lemma outgoing_none_iff_witness :
  exists instructions item,
    Example.analyze 0x1000 [0xEB; 0x01; 0x90; 0xC3] 4 = Some (inr (instructions, 4))
    /\ instructions !! 0%nat = Some item
    /\ outgoing item = 2
    /\ (outgoing item = OUTGOING_NONE <->
        has_relative_target item = false \/ has_external_target item = true).
Proof.
  let v := eval vm_compute in (Example.analyze 0x1000 [0xEB; 0x01; 0x90; 0xC3] 4) in
  match v with
  | Some (inr (?l, _)) =>
      exists l;
      let first := eval vm_compute in (l !! 0%nat) in
      match first with
      | Some ?x => exists x
      end
  end.
  match goal with
  | |- _ = Some (inr (?l, _)) /\ _ =>
      assert (E : Example.analyze 0x1000 [0xEB; 0x01; 0x90; 0xC3] 4 = Some (inr (l, 4)))
        by (vm_compute; reflexivity)
  end.
  split; [exact E|]. split; [reflexivity|]. split; [reflexivity|].
  apply (proj2 (outgoing_none_iff _ _ _ _ _ _ _ _ E 0%nat _ eq_refl)).
  simpl. lia.
Defined.

(** C10 as stated fails on a chunk of 257 instructions: a [JMP] to itself
    after 256 [NOP]s has index 256, and neither is its [outgoing] 256 nor
    does its [incoming] list contain 256. *)
Lemma self_target_counterexample :
  match Example.analyze 0x1000 (repeat 0x90 256 ++ [0xEB; 0xFE]) 258 with
  | Some (inr (instructions, _)) =>
      exists item,
        instructions !! 256%nat = Some item
        /\ has_relative_target item = true
        /\ absolute_target_address item = address item
        /\ ~ (outgoing item = 256 /\ In 256 (incoming item))
  | _ => False
  end.
Proof.
  vm_compute. eexists. split; [reflexivity|]. split; [reflexivity|].
  split; [reflexivity|]. intros [H _]. discriminate.
Qed.

(** [EB FE], the jump to itself. *)
Lemma self_target_is_internal_witness :
  exists instructions item,
    Example.analyze 0x1000 [0xEB; 0xFE] 2 = Some (inr (instructions, 2))
    /\ instructions !! 0%nat = Some item
    /\ has_external_target item = false
    /\ is_internal_target item = true
    /\ outgoing item = 0
    /\ In 0 (incoming item).
Proof.
  eexists. eexists. split; [reflexivity|]. split; [reflexivity|].
  destruct (self_target_is_internal Example.decoder Example.calc_absolute_address
              0x1000 [0xEB; 0xFE] 2 2 _ 2 example_decoder_contract ltac:(lia) eq_refl
              0%nat _ eq_refl eq_refl eq_refl) as (Hext & Hint & _ & _ & Hsmall).
  destruct (Hsmall ltac:(lia)) as [Hout Hin].
  split; [exact Hext|]. split; [exact Hint|]. split; [exact Hout|exact Hin].
Defined.

(* ====================================================================== *)
(** * The fix-up in general *)
(* ====================================================================== *)

Lemma load_bytes_ext m m' a n :
  (forall x, a <= x < a + Z.of_nat n -> m x = m' x) -> load_bytes m a n = load_bytes m' a n.
Proof.
  intros H. unfold load_bytes. apply map_ext_in. intros k Hk.
  apply in_seq in Hk. apply H. lia.
Qed.

Lemma load_signed_ext m m' a n :
  (forall x, a <= x < a + Z.of_nat n -> m x = m' x) -> load_signed m a n = load_signed m' a n.
Proof. intros H. unfold load_signed. rewrite (load_bytes_ext m m' a n H). reflexivity. Qed.

(** The only status a failed lookup returns. *)
Lemma lookup_failure context wanted status :
  ZyrexGetRelocatedInstructionOffset context wanted = inl status ->
  status = ZYAN_STATUS_NOT_FOUND.
Proof.
  unfold ZyrexGetRelocatedInstructionOffset.
  destruct (find_relocated_offset _ _); [discriminate|]. intros [= <-]. reflexivity.
Qed.

(** One iteration of the fix-up that does not fail: either the instruction
    is skipped, or the offset [target - own - length] is stored in its field
    at the field's width. *)
Lemma update_instruction_offset_spec context instruction r context' :
  update_instruction_offset context instruction = (r, context') ->
  succeeded r = true ->
  same_tables context context'
  /\ (((has_relative_target instruction = false \/ has_external_target instruction = true)
       /\ context' = context)
      \/ exists own size value,
           patched_range context instruction = Some (own, size)
           /\ (size = 8 \/ size = 16 \/ size = 32)
           /\ specified_displacement context instruction = Some value
           /\ load_signed (destination_bytes context') own (Z.to_nat (size / 8))
              = to_signed size value
           /\ forall x, x < own \/ own + size / 8 <= x ->
                destination_bytes context' x = destination_bytes context x).
Proof.
  unfold update_instruction_offset, patched_range, specified_displacement.
  destruct (negb (has_relative_target instruction) || has_external_target instruction)
    eqn:Hskip.
  { intros [= <- <-] _. split; [split; reflexivity|]. left.
    apply orb_true_iff in Hskip. rewrite negb_true_iff in Hskip. auto. }
  destruct (patched_field (decoded instruction)) as [offset size] eqn:Hfield.
  destruct (ZyrexGetRelocatedInstructionOffset context (to_u8 (address_offset instruction)))
    as [status|own] eqn:Hown;
    [apply lookup_failure in Hown as ->; intros [= <- <-]; discriminate|].
  destruct (instructions context !! Z.to_nat (outgoing instruction)) as [target_instruction|];
    [|intros [= <- <-]; discriminate].
  destruct (ZyrexGetRelocatedInstructionOffset context
              (to_u8 (address_offset target_instruction)))
    as [status|target] eqn:Htarget;
    [apply lookup_failure in Htarget as ->; intros [= <- <-]; discriminate|].
  assert (Hvalue : forall k, 0 <= k <= 32 ->
            eqm k (ZyrexCalculateRelativeOffset (Zydis.length (decoded instruction)) own target)
              (target - own - Zydis.length (decoded instruction))).
  { intros k Hk. apply relative_offset_eqm; [exact Hk|apply eqm_refl]. }
  cbn [fst snd].
  assert (Hcases : size = 8 \/ size = 16 \/ size = 32
                   \/ (size <> 8 /\ size <> 16 /\ size <> 32)) by lia.
  destruct Hcases as [-> | [-> | [-> | (H8 & H16 & H32)]]].
  - intros [= <- <-] _. split; [split; reflexivity|]. right.
    exists (own + offset), 8, (target - own - Zydis.length (decoded instruction)).
    split; [reflexivity|]. split; [auto|]. split; [reflexivity|].
    cbn [destination_bytes with_destination_bytes]. change (Z.to_nat (8 / 8)) with 1%nat. split.
    + rewrite load_signed_store_le. apply to_signed_eqm.
      apply eqm_signed_l; [simpl; lia|]. apply Hvalue. simpl; lia.
    + intros x Hx. change (8 / 8) with 1 in Hx. apply store_le_outside. simpl. lia.
  - intros [= <- <-] _. split; [split; reflexivity|]. right.
    exists (own + offset), 16, (target - own - Zydis.length (decoded instruction)).
    split; [reflexivity|]. split; [auto|]. split; [reflexivity|].
    cbn [destination_bytes with_destination_bytes]. change (Z.to_nat (16 / 8)) with 2%nat. split.
    + rewrite load_signed_store_le. apply to_signed_eqm.
      apply eqm_signed_l; [simpl; lia|]. apply Hvalue. simpl; lia.
    + intros x Hx. change (16 / 8) with 2 in Hx. apply store_le_outside. simpl. lia.
  - intros [= <- <-] _. split; [split; reflexivity|]. right.
    exists (own + offset), 32, (target - own - Zydis.length (decoded instruction)).
    split; [reflexivity|]. split; [auto|]. split; [reflexivity|].
    cbn [destination_bytes with_destination_bytes]. change (Z.to_nat (32 / 8)) with 4%nat. split.
    + rewrite load_signed_store_le. apply to_signed_eqm.
      apply eqm_signed_l; [simpl; lia|]. apply Hvalue. simpl; lia.
    + intros x Hx. change (32 / 8) with 4 in Hx. apply store_le_outside. simpl. lia.
  - destruct size as [|p|p]; try (intros [= <- <-]; discriminate).
    do 6 (try destruct p as [p|p|]; try (intros [= <- <-]; discriminate); try lia).
Qed.

Lemma same_tables_refl c : same_tables c c.
Proof. split; reflexivity. Qed.

Lemma same_tables_trans c1 c2 c3 : same_tables c1 c2 -> same_tables c2 c3 -> same_tables c1 c3.
Proof. intros [H1 H2] [H3 H4]. split; congruence. Qed.

Lemma patched_range_same_tables c c' x :
  same_tables c c' -> patched_range c' x = patched_range c x.
Proof.
  intros [Hmap _]. unfold patched_range, ZyrexGetRelocatedInstructionOffset.
  rewrite Hmap. reflexivity.
Qed.

Lemma specified_displacement_same_tables c c' x :
  same_tables c c' -> specified_displacement c' x = specified_displacement c x.
Proof.
  intros [Hmap Hins]. unfold specified_displacement, ZyrexGetRelocatedInstructionOffset.
  rewrite Hmap, Hins. reflexivity.
Qed.

(** Bytes outside every range the remaining iterations patch survive them. *)
Lemma update_offsets_loop_frame todo : forall c r c',
  update_offsets_loop todo c = (r, c') -> succeeded r = true ->
  same_tables c c'
  /\ forall range,
       (forall y, In y todo -> disjoint_ranges range (patched_range c y)) ->
       forall a w, range = Some (a, w) ->
       forall x, a <= x < a + w / 8 -> destination_bytes c' x = destination_bytes c x.
Proof.
  induction todo as [|y todo IH]; intros c r c' Hrun Hok.
  - injection Hrun as <- <-. split; [apply same_tables_refl|]. reflexivity.
  - simpl in Hrun.
    destruct (update_instruction_offset c y) as [r1 c1] eqn:Hstep.
    destruct (succeeded r1) eqn:Hok1; simpl in Hrun;
      [|injection Hrun as <- <-; congruence].
    destruct (update_instruction_offset_spec _ _ _ _ Hstep Hok1) as [Htab Hcase].
    destruct (IH _ _ _ Hrun Hok) as [Htab' Hframe].
    split; [eapply same_tables_trans; eassumption|].
    intros range Hdisj a w -> x Hx.
    rewrite (Hframe (Some (a, w))) with (a := a) (w := w); [|  |reflexivity|exact Hx].
    + destruct Hcase as [[_ ->]|(own & size & value & Hrange & _ & _ & _ & Hout)];
        [reflexivity|].
      apply Hout. specialize (Hdisj y (or_introl eq_refl)).
      rewrite Hrange in Hdisj. simpl in Hdisj. lia.
    + intros z Hz. rewrite (patched_range_same_tables c c1 z Htab).
      apply Hdisj. right. exact Hz.
Qed.

(** The fix-up of the instruction [x] of the list, when no later iteration
    patches a byte of its field. *)
Lemma update_offsets_loop_spec x post pre : forall c r c',
  update_offsets_loop (pre ++ x :: post) c = (r, c') -> succeeded r = true ->
  has_relative_target x = true -> has_external_target x = false ->
  (forall y, In y post -> disjoint_ranges (patched_range c x) (patched_range c y)) ->
  same_tables c c'
  /\ exists own size value,
       patched_range c x = Some (own, size)
       /\ (size = 8 \/ size = 16 \/ size = 32)
       /\ specified_displacement c x = Some value
       /\ load_signed (destination_bytes c') own (Z.to_nat (size / 8)) = to_signed size value.
Proof.
  induction pre as [|p pre IH]; intros c r c' Hrun Hok Hrel Hext Hdisj.
  - simpl in Hrun.
    destruct (update_instruction_offset c x) as [r1 c1] eqn:Hstep.
    destruct (succeeded r1) eqn:Hok1; simpl in Hrun;
      [|injection Hrun as <- <-; congruence].
    destruct (update_instruction_offset_spec _ _ _ _ Hstep Hok1) as [Htab Hcase].
    destruct (update_offsets_loop_frame _ _ _ _ Hrun Hok) as [Htab' Hframe].
    split; [eapply same_tables_trans; eassumption|].
    destruct Hcase as [[[H|H] _]|(own & size & value & Hrange & Hsize & Hvalue & Hload & _)];
      [congruence|congruence|].
    exists own, size, value. split; [exact Hrange|]. split; [exact Hsize|].
    split; [exact Hvalue|]. rewrite <- Hload. apply load_signed_ext. intros z Hz.
    apply (Hframe (Some (own, size))) with (a := own) (w := size); [|reflexivity|].
    + intros y Hy. rewrite (patched_range_same_tables c c1 y Htab), <- Hrange.
      apply Hdisj, Hy.
    + destruct Hsize as [-> | [-> | ->]]; simpl in Hz |- *; lia.
  - simpl in Hrun.
    destruct (update_instruction_offset c p) as [r1 c1] eqn:Hstep.
    destruct (succeeded r1) eqn:Hok1; simpl in Hrun;
      [|injection Hrun as <- <-; congruence].
    destruct (update_instruction_offset_spec _ _ _ _ Hstep Hok1) as [Htab _].
    destruct (IH _ _ _ Hrun Hok Hrel Hext) as (Htab' & own & size & value & H1 & H2 & H3 & H4).
    + intros y Hy. rewrite !(patched_range_same_tables c c1 _ Htab). apply Hdisj, Hy.
    + split; [eapply same_tables_trans; eassumption|].
      exists own, size, value.
      rewrite (patched_range_same_tables c c1 _ Htab) in H1.
      rewrite (specified_displacement_same_tables c c1 _ Htab) in H3. auto.
Qed.

(** X9.  After a successful fix-up, an internal-target instruction whose
    field is not patched again by a later iteration carries its specified
    displacement converted to the width of the field (8, 16 or 32 bits), and
    the specified displacement itself when that fits the field. *)
Theorem fixup_displacement context context' :
  ZyrexUpdateInstructionsOffsets context = (Returned ZYAN_STATUS_SUCCESS, context') ->
  forall (k : nat) x, instructions context !! k = Some x ->
    has_relative_target x = true -> has_external_target x = false ->
    (forall (k' : nat) y, (k < k')%nat -> instructions context !! k' = Some y ->
       disjoint_ranges (patched_range context x) (patched_range context y)) ->
    exists value,
      let size := snd (patched_field (decoded x)) in
      (size = 8 \/ size = 16 \/ size = 32)
      /\ specified_displacement context' x = Some value
      /\ patched_reading context' x = Some (to_signed size value)
      /\ (int_min size <= value <= int_max size -> patched_reading context' x = Some value).
Proof.
  unfold ZyrexUpdateInstructionsOffsets. intros Hrun k x Hk Hrel Hext Hdisj.
  rewrite <- (take_drop_middle _ _ _ Hk) in Hrun.
  destruct (update_offsets_loop_spec x _ _ _ _ _ Hrun eq_refl Hrel Hext)
    as (Htab & own & size & value & Hrange & Hsize & Hvalue & Hload).
  { intros y Hy. apply list_elem_of_In, list_elem_of_lookup in Hy as [d Hd].
    rewrite lookup_drop in Hd. apply (Hdisj (S k + d)%nat); [lia|exact Hd]. }
  exists value. cbv zeta.
  unfold patched_range in Hrange. rewrite Hrel, Hext in Hrange. simpl in Hrange.
  destruct (ZyrexGetRelocatedInstructionOffset context (to_u8 (address_offset x)))
    as [status|start] eqn:Hget; [discriminate|].
  injection Hrange as <- <-.
  assert (Hreading : patched_reading context' x
                     = Some (to_signed (snd (patched_field (decoded x))) value)).
  { unfold patched_reading.
    destruct (patched_field (decoded x)) as [offset size] eqn:Hfield.
    unfold ZyrexGetRelocatedInstructionOffset in *. destruct Htab as [-> _].
    destruct (find_relocated_offset (translation_map context) (to_u8 (address_offset x)));
      [|discriminate].
    injection Hget as ->. simpl in Hload |- *. rewrite Hload. reflexivity. }
  split; [exact Hsize|].
  split; [rewrite (specified_displacement_same_tables _ _ _ Htab); exact Hvalue|].
  split; [exact Hreading|].
  intros Hfit. rewrite Hreading. f_equal. apply to_signed_id.
  - destruct Hsize as [-> | [-> | ->]]; lia.
  - unfold int_min, int_max in Hfit. lia.
Qed.


(* ====================================================================== *)
(** * Further properties of the relocation of one instruction *)
(* ====================================================================== *)

(** A [switch] over the three supported widths either takes one of its
    three arms or its [default] arm. *)
Lemma width_cases size :
  size = 8 \/ size = 16 \/ size = 32
  \/ (supported_width size = false
      /\ forall (A : Type) (a b c d : A),
           match size with 8 => a | 16 => b | 32 => c | _ => d end = d).
Proof.
  destruct size as [|p|p];
    try (right; right; right; split; [reflexivity|intros; reflexivity]).
  do 6 (try destruct p as [p|p|]);
    first [ left; reflexivity
          | right; left; reflexivity
          | right; right; left; reflexivity
          | right; right; right; split; [reflexivity|intros; reflexivity] ].
Qed.

Lemma supported_width_true size :
  supported_width size = true <-> size = 8 \/ size = 16 \/ size = 32.
Proof.
  unfold supported_width. rewrite !orb_true_iff, !Z.eqb_eq. tauto.
Qed.

(** The accepted branches, by the rewrite that handles them. *)
Lemma accepted_branch_cases decoded_instruction :
  ZyrexIsRelativeBranchInstruction decoded_instruction = true ->
  let m := Zydis.mnemonic decoded_instruction in
  Zydis.imm_is_relative (Zydis.imm0 (Zydis.raw decoded_instruction)) = true
  /\ if is_unenlargeable m
     then enlarged_opcode m = None
     else (m = ZYDIS_MNEMONIC_JMP /\ enlarged_opcode m = Some (0xE9, 5))
          \/ exists cc, condition_code m = Some cc /\ 0 <= cc <= 15
                        /\ enlarged_opcode m = Some (0x80 + cc, 6).
Proof.
  unfold ZyrexIsRelativeBranchInstruction. intros H. cbv zeta.
  destruct (Zydis.imm_is_relative _); [|discriminate]. split; [reflexivity|].
  destruct (Zydis.mnemonic decoded_instruction); try discriminate; simpl;
    first [ reflexivity
          | left; split; reflexivity
          | right; eexists; split; [reflexivity|split; [lia|reflexivity]] ].
Qed.

Lemma synthesis_mnemonic_iff m : synthesis_mnemonic m <-> is_unenlargeable m = true.
Proof.
  unfold synthesis_mnemonic.
  destruct m; simpl; split; intros H; try reflexivity; try discriminate;
    try (repeat destruct H as [H|H]; discriminate); tauto.
Qed.

(** The distance of the decision is the 64-bit signed value of
    [target - (destination + bytes_written) - length]. *)
Lemma branch_distance_signed context instruction :
  branch_distance context instruction
  = to_i64 (absolute_target_address instruction
            - (destination context + bytes_written context)
            - Zydis.length (decoded instruction)).
Proof.
  unfold branch_distance, to_i64. cbv zeta. apply to_signed_eqm.
  apply eqm_sub; [|apply eqm_refl]. apply eqm_sub; [apply eqm_refl|].
  apply eqm_to_u64; [lia|apply eqm_refl].
Qed.

(** C2.  For a relative branch with an external target whose immediate has
    [w] bits ([w] one of 8, 16, 32), let [distance] be
    [target - (destination + bytes_written) - length] as the signed 64-bit
    integer the decision computes (the difference itself unless it leaves
    the 64-bit range).  The decision is "do not rewrite" exactly when
    [distance] fits [w] bits, bounds included: a distance of [INTw_MIN] or
    [INTw_MAX] is not rewritten, a distance one beyond either bound is.  A
    branch that is rewritten is relocated successfully: as the
    three-instruction sequence (the instruction with immediate [02], then
    [EB 05], then [E9] and a 32-bit displacement to the target) when its
    mnemonic is one of [JCXZ], [JECXZ], [JRCXZ], [LOOP], [LOOPE], [LOOPNE],
    and as the near form ([E9], or [0F 80+cc], and a 32-bit displacement to
    the target) for every other supported relative branch. *)
Theorem rewrite_decision context instruction w :
  has_external_target instruction = true ->
  Zydis.imm_size (Zydis.imm0 (Zydis.raw (decoded instruction))) = w ->
  w = 8 \/ w = 16 \/ w = 32 ->
  let length := Zydis.length (decoded instruction) in
  let imm := Zydis.imm_offset (Zydis.imm0 (Zydis.raw (decoded instruction))) in
  let m := Zydis.mnemonic (decoded instruction) in
  let difference :=
    absolute_target_address instruction - (destination context + bytes_written context)
    - length in
  let distance := to_i64 difference in
  let decision := ZyrexShouldRewriteBranchInstruction context instruction in
  (- 2 ^ 63 <= difference < 2 ^ 63 -> distance = difference)
  /\ (decision = Some false <-> int_min w <= distance <= int_max w)
  /\ (decision = Some true <-> distance < int_min w \/ int_max w < distance)
  /\ (distance = int_min w \/ distance = int_max w -> decision = Some false)
  /\ (distance = int_min w - 1 \/ distance = int_max w + 1 -> decision = Some true)
  /\ (decision = Some true ->
      (synthesis_mnemonic m -> 0 <= imm < length ->
       exists context',
         ZyrexRelocateRelativeBranchInstruction context instruction
         = (Returned ZYAN_STATUS_SUCCESS, context')
         /\ synthesis_sequence context instruction context')
      /\ (~ synthesis_mnemonic m ->
          ZyrexIsRelativeBranchInstruction (decoded instruction) = true ->
          exists context',
            ZyrexRelocateRelativeBranchInstruction context instruction
            = (Returned ZYAN_STATUS_SUCCESS, context')
            /\ near_form context instruction context')).
Proof.
  intros Hext Hsize Hw length imm m difference distance decision.
  assert (Hdec : decision = Some (negb (fits w distance))).
  { unfold decision, distance, difference, length.
    rewrite <- branch_distance_signed. apply should_rewrite_fits; assumption. }
  assert (Hfit : fits w distance = true <-> int_min w <= distance <= int_max w).
  { unfold fits. rewrite andb_true_iff, Z.leb_le, Z.leb_le. reflexivity. }
  assert (Hfalse : decision = Some false <-> int_min w <= distance <= int_max w).
  { rewrite Hdec, <- Hfit. destruct (fits w distance); simpl; split; congruence. }
  assert (Htrue : decision = Some true <-> distance < int_min w \/ int_max w < distance).
  { rewrite Hdec. destruct (fits w distance) eqn:E; simpl.
    - assert (int_min w <= distance <= int_max w) by (apply Hfit; reflexivity).
      split; [congruence|lia].
    - split; [intros _|reflexivity].
      destruct (Z.lt_ge_cases distance (int_min w)); [auto|].
      destruct (Z.lt_ge_cases (int_max w) distance); [auto|].
      assert (false = true) by (apply Hfit; lia). congruence. }
  assert (Hbounds : int_min w <= int_max w).
  { destruct Hw as [-> | [-> | ->]]; unfold int_min, int_max; simpl; lia. }
  split; [intros Hrange; apply to_signed_id; [lia|exact Hrange]|].
  split; [exact Hfalse|]. split; [exact Htrue|].
  split; [intros H; apply Hfalse; lia|].
  split; [intros H; apply Htrue; lia|].
  intros Hrewrite.
  assert (Hrun : ZyrexRelocateRelativeBranchInstruction context instruction
                 = if is_unenlargeable m
                   then rewrite_unenlargeable context instruction
                   else rewrite_enlarged context instruction).
  { unfold ZyrexRelocateRelativeBranchInstruction. rewrite Hext. cbn [negb].
    fold decision. rewrite Hrewrite. reflexivity. }
  split.
  - intros Hsyn Himm. apply synthesis_mnemonic_iff in Hsyn. rewrite Hsyn in Hrun.
    destruct (rewrite_unenlargeable_spec context instruction Himm)
      as (context' & Hresult & Hfirst & Hrest & _ & Hmap & Hwritten).
    exists context'. split; [congruence|].
    unfold synthesis_sequence. cbv zeta.
    split; [exact Hfirst|]. split; [|split; [exact Hwritten|]].
    + etransitivity; [exact Hrest|]. do 2 f_equal. lia.
    + rewrite Hmap, length_app. reflexivity.
  - intros Hother Haccepted.
    assert (Hm : is_unenlargeable m = false).
    { destruct (is_unenlargeable m) eqn:E; [|reflexivity].
      exfalso. apply Hother, synthesis_mnemonic_iff, E. }
    rewrite Hm in Hrun.
    destruct (accepted_branch_cases (decoded instruction) Haccepted) as [_ Hcases].
    cbv zeta in Hcases. fold m in Hcases. rewrite Hm in Hcases.
    destruct Hcases as [[Hjmp Hop] | (cc & Hcc & Hrange & Hop)].
    + destruct (rewrite_enlarged_spec context instruction _ _ Hop)
        as (context' & Hresult & Hbytes & _ & _ & Hwritten & Hmap).
      exists context'. split; [congruence|].
      change (0xE9 =? 0xE9) with true in Hbytes. cbv iota in Hbytes.
      exists [0xE9]. split; [left; split; [exact Hjmp|reflexivity]|].
      split; [etransitivity; [exact Hbytes|]; do 2 f_equal; lia|].
      split; [rewrite Hwritten; f_equal; cbn [Datatypes.length]; lia|].
      rewrite Hmap, length_app. cbn [Datatypes.length]. lia.
    + destruct (rewrite_enlarged_spec context instruction _ _ Hop)
        as (context' & Hresult & Hbytes & _ & _ & Hwritten & Hmap).
      assert (Hnot : (0x80 + cc =? 0xE9) = false) by (apply Z.eqb_neq; lia).
      rewrite Hnot in Hbytes. cbv iota in Hbytes.
      exists context'. split; [congruence|].
      exists [0x0F; 0x80 + cc]. split; [right; exists cc; split; [exact Hcc|reflexivity]|].
      split; [etransitivity; [exact Hbytes|]; do 2 f_equal; lia|].
      split; [rewrite Hwritten; f_equal; cbn [Datatypes.length]; lia|].
      rewrite Hmap, length_app. cbn [Datatypes.length]. lia.
Qed.

(** A short [JMP] whose target is 127 bytes past its end at the new place is
    left as it is; one byte further it is rewritten, to the near [JMP]
    [E9 7D 00 00 00]. *)
Lemma rewrite_decision_witness :
  let jmp :=
    {| address_offset := 0; address := 0x1000;
       instruction := Example.branch ZYDIS_MNEMONIC_JMP 2 1 8 0x10;
       has_relative_target := true; has_external_target := true;
       is_internal_target := false; absolute_target_address := 0x1012;
       incoming := []; outgoing := OUTGOING_NONE |} in
  let near := Example.fresh_context 0x1000 [0xEB; 0x10] 0xF91 [jmp] in
  let far := Example.fresh_context 0x1000 [0xEB; 0x10] 0xF90 [jmp] in
  ZyrexShouldRewriteBranchInstruction near jmp = Some false
  /\ ZyrexShouldRewriteBranchInstruction far jmp = Some true
  /\ exists context',
       ZyrexRelocateRelativeBranchInstruction far jmp = (Returned ZYAN_STATUS_SUCCESS, context')
       /\ near_form far jmp context'
       /\ load_bytes (destination_bytes context') 0 5 = [0xE9; 0x7D; 0; 0; 0].
Proof.
  intros jmp near far.
  destruct (rewrite_decision near jmp 8 eq_refl eq_refl (or_introl eq_refl))
    as (_ & _ & _ & Hkept & _).
  destruct (rewrite_decision far jmp 8 eq_refl eq_refl (or_introl eq_refl))
    as (_ & _ & _ & _ & Hrewritten & Hpath).
  split; [apply Hkept; right; reflexivity|].
  assert (Hdecision : ZyrexShouldRewriteBranchInstruction far jmp = Some true)
    by (apply Hrewritten; right; reflexivity).
  split; [exact Hdecision|].
  destruct (Hpath Hdecision) as [_ Hnear].
  destruct Hnear as (context' & Hrun & Hform).
  - intros [H|[H|[H|[H|[H|H]]]]]; discriminate H.
  - reflexivity.
  - exists context'. split; [exact Hrun|]. split; [exact Hform|].
    injection Hrun as <-. reflexivity.
Defined.

(** X1.  Every instruction the classifier accepts as a relative branch has
    a relative immediate and is handled by exactly one of the two rewrites:
    the six branches without a 32-bit form are not in the enlargement table,
    and every other accepted branch is, as [JMP] with opcode [E9] and 5
    bytes or as a conditional jump with opcode [80 + cc] and 6 bytes.  So
    the [default] arm of the enlargement [switch] is never reached for an
    instruction that got past [ZyrexIsRelativeBranchInstruction]. *)
Theorem relative_branch_has_rewrite decoded_instruction :
  ZyrexIsRelativeBranchInstruction decoded_instruction = true ->
  let m := Zydis.mnemonic decoded_instruction in
  Zydis.imm_is_relative (Zydis.imm0 (Zydis.raw decoded_instruction)) = true
  /\ if is_unenlargeable m
     then enlarged_opcode m = None
     else (m = ZYDIS_MNEMONIC_JMP /\ enlarged_opcode m = Some (0xE9, 5))
          \/ exists cc, condition_code m = Some cc /\ 0 <= cc <= 15
                        /\ enlarged_opcode m = Some (0x80 + cc, 6).
Proof. apply accepted_branch_cases. Qed.

Lemma relative_branch_has_rewrite_witness :
  let jz := Example.branch ZYDIS_MNEMONIC_JZ 2 1 8 0x7F in
  ZyrexIsRelativeBranchInstruction jz = true
  /\ enlarged_opcode (Zydis.mnemonic jz) = Some (0x84, 6).
Proof.
  intros jz. split; [reflexivity|].
  destruct (proj2 (relative_branch_has_rewrite jz eq_refl))
    as [[Hjmp _]|(cc & Hcc & _ & Hop)]; [discriminate|].
  injection Hcc as <-. exact Hop.
Defined.

(** What the routines return, by the width of the patched operand. *)
Lemma copy_and_patch_succeeds context instruction field size :
  succeeded (fst (copy_and_patch context instruction field size)) = supported_width size.
Proof.
  unfold copy_and_patch, ZyrexRelocateCommonInstruction. cbn [succeeded ZYAN_SUCCESS negb].
  destruct (width_cases size) as [-> | [-> | [-> | [Hno Hdefault]]]]; try reflexivity.
  rewrite Hdefault, Hno. reflexivity.
Qed.

Lemma should_rewrite_defined context instruction :
  match ZyrexShouldRewriteBranchInstruction context instruction with
  | Some _ =>
      supported_width (Zydis.imm_size (Zydis.imm0 (Zydis.raw (decoded instruction)))) = true
  | None =>
      supported_width (Zydis.imm_size (Zydis.imm0 (Zydis.raw (decoded instruction)))) = false
  end.
Proof.
  unfold ZyrexShouldRewriteBranchInstruction.
  destruct (width_cases (Zydis.imm_size (Zydis.imm0 (Zydis.raw (decoded instruction)))))
    as [-> | [-> | [-> | [Hno Hdefault]]]]; try reflexivity.
  rewrite Hdefault. exact Hno.
Qed.

Lemma relocate_branch_succeeds context instruction :
  ZyrexIsRelativeBranchInstruction (decoded instruction) = true ->
  succeeded (fst (ZyrexRelocateRelativeBranchInstruction context instruction))
  = negb (has_external_target instruction)
    || supported_width (Zydis.imm_size (Zydis.imm0 (Zydis.raw (decoded instruction)))).
Proof.
  intros Hbranch. unfold ZyrexRelocateRelativeBranchInstruction.
  destruct (has_external_target instruction); [|reflexivity]. cbn [negb orb].
  pose proof (should_rewrite_defined context instruction) as Hwidth.
  destruct (ZyrexShouldRewriteBranchInstruction context instruction) as [[|]|].
  - rewrite Hwidth.
    pose proof (proj2 (accepted_branch_cases _ Hbranch)) as Hrewrite.
    cbv zeta in Hrewrite.
    destruct (is_unenlargeable _); [reflexivity|].
    unfold rewrite_enlarged.
    destruct Hrewrite as [[_ ->]|(cc & _ & _ & ->)];
      match goal with |- context [if ?b then _ else _] => destruct b end; reflexivity.
  - rewrite copy_and_patch_succeeds. reflexivity.
  - rewrite Hwidth. reflexivity.
Qed.

(** X2.  Whether [ZyrexRelocateInstruction] succeeds depends on the
    instruction alone, not on the context: it succeeds exactly on the
    [relocatable] instructions, and when it does not succeed it has run into
    [ZYAN_UNREACHABLE] (as for a relative [CALL], which is neither a
    supported branch nor a memory access); it never returns a failing
    status. *)
Theorem relocate_instruction_succeeds_iff context instruction :
  succeeded (fst (ZyrexRelocateInstruction context instruction)) = relocatable instruction
  /\ (relocatable instruction = true ->
      fst (ZyrexRelocateInstruction context instruction) = Returned ZYAN_STATUS_SUCCESS)
  /\ (relocatable instruction = false ->
      fst (ZyrexRelocateInstruction context instruction) = Unreachable).
Proof.
  assert (Hdispatch : succeeded (fst (relocate_dispatch context instruction))
                      = relocatable instruction).
  { unfold relocate_dispatch, relocatable, ZyrexRelocateRelativeInstruction.
    destruct (has_relative_target instruction); [|reflexivity].
    destruct (ZyrexIsRelativeBranchInstruction (decoded instruction)) eqn:Hbranch.
    - apply relocate_branch_succeeds, Hbranch.
    - destruct (ZyrexIsRelativeMemoryInstruction (decoded instruction)); [|reflexivity].
      unfold ZyrexRelocateRelativeMemoryInstruction.
      destruct (has_external_target instruction); [|reflexivity].
      apply copy_and_patch_succeeds. }
  pose proof (relocate_dispatch_outcome context instruction) as Hout.
  unfold ZyrexRelocateInstruction.
  destruct (relocate_dispatch context instruction) as [r c] eqn:E. cbn [fst] in *.
  rewrite <- Hdispatch.
  destruct Hout as [-> | ->]; cbn; repeat split; congruence.
Qed.

(** ** The plain copy *)

Lemma common_copy_spec context instruction :
  let length := Zydis.length (decoded instruction) in
  let context' := snd (ZyrexRelocateCommonInstruction context instruction) in
  fst (ZyrexRelocateCommonInstruction context instruction) = Returned ZYAN_STATUS_SUCCESS
  /\ load_bytes (destination_bytes context') (bytes_written context) (Z.to_nat length)
     = load_bytes (source_bytes context) (bytes_read context) (Z.to_nat length)
  /\ (forall x, x < bytes_written context \/ bytes_written context + length <= x ->
      destination_bytes context' x = destination_bytes context x)
  /\ translation_map context'
     = translation_map context
       ++ [map_item (to_u8 (bytes_read context)) (to_u8 (bytes_written context))]
  /\ bytes_written context' = to_u64 (bytes_written context + length).
Proof.
  intros len context'. subst context'. unfold ZyrexRelocateCommonInstruction.
  cbn [fst snd destination_bytes with_destination_bytes ZyrexUpdateTranslationContext
       translation_map bytes_written bytes_read]. fold len.
  split; [reflexivity|]. split; [|split; [|split]].
  - unfold load_bytes. apply map_ext_in. intros k Hk. apply in_seq in Hk.
    rewrite memcpy_inside by lia. f_equal. lia.
  - intros x Hx. apply memcpy_outside. exact Hx.
  - rewrite !to_u8_idem. reflexivity.
  - reflexivity.
Qed.

Lemma verbatim_dispatch context instruction :
  copied_verbatim instruction = true ->
  relocate_dispatch context instruction = ZyrexRelocateCommonInstruction context instruction.
Proof.
  unfold copied_verbatim, relocate_dispatch, ZyrexRelocateRelativeInstruction,
    ZyrexRelocateRelativeBranchInstruction, ZyrexRelocateRelativeMemoryInstruction.
  destruct (has_relative_target instruction); [|reflexivity].
  destruct (has_external_target instruction); [discriminate|]. cbn [negb orb andb].
  destruct (ZyrexIsRelativeBranchInstruction _); [reflexivity|].
  destruct (ZyrexIsRelativeMemoryInstruction _); [reflexivity|discriminate].
Qed.

(** X3.  An instruction without relative operand, and a supported relative
    branch or memory instruction whose target is inside the chunk, is copied
    byte for byte: the [length] bytes at [bytes_written] of the destination
    become the [length] bytes at [bytes_read] of the source, every other
    destination byte is left alone, one item [(bytes_read, bytes_written)]
    (as [ZyanU8]) is appended to the translation map, [bytes_written] and
    [bytes_read] advance by [length] and [instructions_read] by one. *)
Theorem relocate_instruction_copies context instruction :
  copied_verbatim instruction = true ->
  let length := Zydis.length (decoded instruction) in
  exists context',
    ZyrexRelocateInstruction context instruction = (Returned ZYAN_STATUS_SUCCESS, context')
    /\ load_bytes (destination_bytes context') (bytes_written context) (Z.to_nat length)
       = load_bytes (source_bytes context) (bytes_read context) (Z.to_nat length)
    /\ (forall x, x < bytes_written context \/ bytes_written context + length <= x ->
        destination_bytes context' x = destination_bytes context x)
    /\ translation_map context'
       = translation_map context
         ++ [map_item (to_u8 (bytes_read context)) (to_u8 (bytes_written context))]
    /\ bytes_written context' = to_u64 (bytes_written context + length)
    /\ bytes_read context' = to_u64 (bytes_read context + length)
    /\ instructions_read context' = to_u64 (instructions_read context + 1).
Proof.
  intros Hcopy len.
  destruct (common_copy_spec context instruction) as (Hok & Hbytes & Hrest & Hmap & Hwritten).
  unfold ZyrexRelocateInstruction. rewrite (verbatim_dispatch _ _ Hcopy).
  destruct (ZyrexRelocateCommonInstruction context instruction) as [r c] eqn:E.
  cbn [fst snd] in *. subst r. cbn [succeeded ZYAN_SUCCESS negb].
  eexists. split; [reflexivity|].
  cbn [destination_bytes translation_map bytes_written bytes_read instructions_read].
  split; [exact Hbytes|]. split; [exact Hrest|]. split; [exact Hmap|].
  split; [exact Hwritten|].
  pose proof (common_counters context instruction) as [Hb Hi]. rewrite E in Hb, Hi.
  cbn [snd] in Hb, Hi. rewrite Hb, Hi. auto.
Qed.

(** Five [NOP]s: the third one, copied when two bytes have been read and
    written. *)
Lemma relocate_instruction_copies_witness :
  let nop :=
    {| address_offset := 2; address := 0x1002;
       instruction := Example.plain ZYDIS_MNEMONIC_NOP 1;
       has_relative_target := false; has_external_target := false;
       is_internal_target := false; absolute_target_address := 0;
       incoming := []; outgoing := OUTGOING_NONE |} in
  let context :=
    {| source := 0x1000; source_bytes := memory_of_list [0x90; 0x90; 0x90; 0x90; 0x90];
       destination := 0x2000; destination_bytes := memory_of_list [0x90; 0x90];
       bytes_read := 2; bytes_written := 2; instructions_read := 2;
       instructions := [];
       translation_map := [map_item 0 0; map_item 1 1] |} in
  exists context',
    ZyrexRelocateInstruction context nop = (Returned ZYAN_STATUS_SUCCESS, context')
    /\ load_bytes (destination_bytes context') 0 3 = [0x90; 0x90; 0x90]
    /\ translation_map context' = [map_item 0 0; map_item 1 1; map_item 2 2]
    /\ bytes_written context' = 3
    /\ bytes_read context' = 3.
Proof.
  intros nop context.
  destruct (relocate_instruction_copies context nop eq_refl)
    as (context' & Hrun & Hbytes & Hrest & Hmap & Hwritten & Hread & _).
  exists context'. split; [exact Hrun|]. split; [|auto].
  rewrite (load_bytes_cons _ 0), (load_bytes_cons _ (0 + 1)).
  rewrite (Hrest 0), (Hrest (0 + 1)) by (simpl; lia).
  change (0 + 1 + 1) with (bytes_written context).
  change 1%nat with (Z.to_nat (Zydis.length (decoded nop))). rewrite Hbytes. reflexivity.
Defined.

(** ** A branch that still reaches its target *)

Lemma branch_distance_eqm context instruction :
  eqm 64 (branch_distance context instruction)
    (absolute_target_address instruction
     - (destination context + bytes_written context + Zydis.length (decoded instruction))).
Proof.
  unfold branch_distance, to_i64. apply eqm_signed_l; [lia|].
  replace (absolute_target_address instruction
           - (destination context + bytes_written context + Zydis.length (decoded instruction)))
    with (absolute_target_address instruction - (destination context + bytes_written context)
          - Zydis.length (decoded instruction)) by lia.
  apply eqm_sub; [|apply eqm_refl]. apply eqm_sub; [apply eqm_refl|].
  apply eqm_to_u64; [lia|apply eqm_refl].
Qed.

(** X4.  A relative branch with an external target that needs no rewrite is
    copied and its immediate is patched so that, read as a signed integer of
    its own width, it is exactly the 64-bit distance from the end of the
    relocated instruction to the target; the end of the relocated
    instruction plus that displacement is the original target again (as a
    64-bit address).  The other bytes of the instruction are copied from the
    source. *)
Theorem reachable_branch_keeps_target context instruction :
  has_external_target instruction = true ->
  ZyrexShouldRewriteBranchInstruction context instruction = Some false ->
  let length := Zydis.length (decoded instruction) in
  let width := Zydis.imm_size (Zydis.imm0 (Zydis.raw (decoded instruction))) in
  let field :=
    bytes_written context + Zydis.imm_offset (Zydis.imm0 (Zydis.raw (decoded instruction))) in
  exists context',
    ZyrexRelocateRelativeBranchInstruction context instruction
    = (Returned ZYAN_STATUS_SUCCESS, context')
    /\ load_signed (destination_bytes context') field (Z.to_nat (width / 8))
       = branch_distance context instruction
    /\ to_u64 (destination context + bytes_written context + length
               + load_signed (destination_bytes context') field (Z.to_nat (width / 8)))
       = to_u64 (absolute_target_address instruction)
    /\ (forall k, 0 <= k < length ->
        bytes_written context + k < field \/ field + width / 8 <= bytes_written context + k ->
        destination_bytes context' (bytes_written context + k)
        = source_bytes context (bytes_read context + k))
    /\ bytes_written context' = to_u64 (bytes_written context + length).
Proof.
  intros Hext Hdecision len width field.
  pose proof (should_rewrite_defined context instruction) as Hwidth.
  rewrite Hdecision in Hwidth. apply supported_width_true in Hwidth. fold width in Hwidth.
  pose proof (should_rewrite_fits context instruction width eq_refl Hwidth) as Hfits.
  rewrite Hdecision in Hfits. injection Hfits as Hfits.
  symmetry in Hfits. apply negb_false_iff in Hfits. unfold fits in Hfits.
  apply andb_true_iff in Hfits as [Hlow Hhigh]. apply Z.leb_le in Hlow, Hhigh.
  destruct (copy_and_patch_spec context instruction field width Hwidth)
    as (context' & Hrun & _ & Hsigned & Hrest & Hwritten & _).
  assert (Hdistance : load_signed (destination_bytes context') field (Z.to_nat (width / 8))
                      = branch_distance context instruction).
  { rewrite Hsigned.
    rewrite <- (to_signed_id width (branch_distance context instruction)).
    - apply to_signed_eqm, eqm_sym. apply (eqm_weaken width 64).
      + destruct Hwidth as [-> | [-> | ->]]; lia.
      + apply branch_distance_eqm.
    - destruct Hwidth as [-> | [-> | ->]]; lia.
    - unfold int_min, int_max in Hlow, Hhigh. lia. }
  exists context'. unfold ZyrexRelocateRelativeBranchInstruction.
  rewrite Hext, Hdecision. cbn [negb]. split; [exact Hrun|]. split; [exact Hdistance|].
  split; [|split; [|exact Hwritten]].
  - rewrite Hdistance.
    pose proof (branch_distance_eqm context instruction) as Heqm. fold len in Heqm.
    assert (Hsum : eqm 64 (destination context + bytes_written context + len
                           + branch_distance context instruction)
                     (destination context + bytes_written context + len
                      + (absolute_target_address instruction
                         - (destination context + bytes_written context + len))))
      by (apply eqm_add; [apply eqm_refl|exact Heqm]).
    replace (destination context + bytes_written context + len
             + (absolute_target_address instruction
                - (destination context + bytes_written context + len)))
      with (absolute_target_address instruction) in Hsum by lia.
    exact Hsum.
  - intros k Hk Hout. rewrite Hrest by exact Hout. fold len.
    rewrite memcpy_inside by lia. f_equal. lia.
Qed.

(** A short [JMP] relocated 0x6F bytes backwards: the displacement 0x10
    becomes 0x7F. *)
Lemma reachable_branch_keeps_target_witness :
  let jmp :=
    {| address_offset := 0; address := 0x1000;
       instruction := Example.branch ZYDIS_MNEMONIC_JMP 2 1 8 0x10;
       has_relative_target := true; has_external_target := true;
       is_internal_target := false; absolute_target_address := 0x1012;
       incoming := []; outgoing := OUTGOING_NONE |} in
  let context := Example.fresh_context 0x1000 [0xEB; 0x10] 0xF91 [jmp] in
  exists context',
    ZyrexRelocateRelativeBranchInstruction context jmp = (Returned ZYAN_STATUS_SUCCESS, context')
    /\ load_signed (destination_bytes context') 1 1 = 127
    /\ destination_bytes context' 0 = 0xEB.
Proof.
  intros jmp context.
  destruct (reachable_branch_keeps_target context jmp eq_refl eq_refl)
    as (context' & Hrun & Hsigned & _ & Hcopy & _).
  exists context'. split; [exact Hrun|]. split; [exact Hsigned|].
  apply (Hcopy 0); simpl; lia.
Defined.

(** ** The translation map *)

Lemma find_relocated_offset_app items more wanted :
  find_relocated_offset (items ++ more) wanted
  = match find_relocated_offset items wanted with
    | Some found => Some found
    | None => find_relocated_offset more wanted
    end.
Proof.
  induction items as [|item items IH]; [reflexivity|].
  simpl. destruct (offset_source item =? wanted); [reflexivity|exact IH].
Qed.

Lemma find_relocated_offset_spec items wanted :
  match find_relocated_offset items wanted with
  | Some found =>
      exists (k : nat) item,
        items !! k = Some item
        /\ offset_source item = wanted
        /\ offset_destination item = found
        /\ forall (k' : nat) item', (k' < k)%nat -> items !! k' = Some item' ->
             offset_source item' <> wanted
  | None => Forall (fun item => offset_source item <> wanted) items
  end.
Proof.
  induction items as [|item items IH]; [constructor|].
  simpl. destruct (Z.eqb_spec (offset_source item) wanted) as [Heq|Hne].
  - exists 0%nat, item. split; [reflexivity|]. split; [exact Heq|]. split; [reflexivity|].
    intros k' item' Hk. lia.
  - destruct (find_relocated_offset items wanted) as [found|].
    + destruct IH as (k & it & Hk & Hs & Hd & Hfirst).
      exists (S k), it. split; [exact Hk|]. split; [exact Hs|]. split; [exact Hd|].
      intros [|k'] item' Hlt Hk'.
      * injection Hk' as <-. exact Hne.
      * apply (Hfirst k' item'); [lia|exact Hk'].
    + constructor; assumption.
Qed.

(** X5.  Where the assertion of the routine holds (the translation map
    has at least as many items as there are instructions), the lookup
    returns the destination offset of the first item whose source offset is
    the wanted one, and [ZYAN_STATUS_NOT_FOUND] exactly when no item has
    that source offset. *)
Theorem relocated_offset_lookup context wanted :
  lookup_asserted context ->
  match ZyrexGetRelocatedInstructionOffset context wanted with
  | inr found =>
      exists (k : nat) item,
        translation_map context !! k = Some item
        /\ offset_source item = wanted
        /\ offset_destination item = found
        /\ forall (k' : nat) item', (k' < k)%nat ->
             translation_map context !! k' = Some item' -> offset_source item' <> wanted
  | inl status =>
      status = ZYAN_STATUS_NOT_FOUND
      /\ Forall (fun item => offset_source item <> wanted) (translation_map context)
  end.
Proof.
  intros _. unfold ZyrexGetRelocatedInstructionOffset.
  pose proof (find_relocated_offset_spec (translation_map context) wanted) as H.
  destruct (find_relocated_offset (translation_map context) wanted); [exact H|].
  split; [reflexivity|exact H].
Qed.

(** A rewritten [JRCXZ] left three items for source offset 4 behind the four
    of the instructions before it: the lookup of 4 returns the first of the
    three, the lookup of 9 finds nothing. *)
Lemma relocated_offset_lookup_witness :
  let nop k :=
    {| address_offset := k; address := 0x1000 + k;
       instruction := Example.plain ZYDIS_MNEMONIC_NOP 1;
       has_relative_target := false; has_external_target := false;
       is_internal_target := false; absolute_target_address := 0;
       incoming := []; outgoing := OUTGOING_NONE |} in
  let jrcxz :=
    {| address_offset := 4; address := 0x1004;
       instruction := Example.branch ZYDIS_MNEMONIC_JRCXZ 2 1 8 0x64;
       has_relative_target := true; has_external_target := true;
       is_internal_target := false; absolute_target_address := 0x106A;
       incoming := []; outgoing := OUTGOING_NONE |} in
  let context :=
    {| source := 0x1000; source_bytes := memory_of_list [];
       destination := 0x100000; destination_bytes := memory_of_list [];
       bytes_read := 6; bytes_written := 13; instructions_read := 5;
       instructions := [nop 0; nop 1; nop 2; nop 3; jrcxz];
       translation_map :=
         [map_item 0 0; map_item 1 1; map_item 2 2; map_item 3 3;
          map_item 4 4; map_item 4 8; map_item 4 12] |} in
  lookup_asserted context
  /\ ZyrexGetRelocatedInstructionOffset context 4 = inr 4
  /\ (exists (k : nat) item,
        translation_map context !! k = Some item /\ offset_destination item = 4
        /\ k = 4%nat)
  /\ Forall (fun item => offset_source item <> 9) (translation_map context).
Proof.
  intros nop jrcxz context.
  assert (Hassert : lookup_asserted context) by (unfold lookup_asserted; simpl; lia).
  split; [exact Hassert|]. split; [reflexivity|]. split.
  - exists 4%nat, (map_item 4 4). repeat split.
  - exact (proj2 (relocated_offset_lookup context 9 Hassert)).
Defined.

Lemma copy_and_patch_map context instruction field size :
  translation_map (snd (copy_and_patch context instruction field size))
  = translation_map context
    ++ [map_item (to_u8 (bytes_read context)) (to_u8 (bytes_written context))].
Proof.
  unfold copy_and_patch, ZyrexRelocateCommonInstruction. cbn [succeeded ZYAN_SUCCESS negb].
  destruct (width_cases size) as [-> | [-> | [-> | [_ Hdefault]]]];
    try rewrite Hdefault; cbn; rewrite !to_u8_idem; reflexivity.
Qed.

Lemma rewrite_enlarged_map context instruction :
  succeeded (fst (rewrite_enlarged context instruction)) = true ->
  translation_map (snd (rewrite_enlarged context instruction))
  = translation_map context
    ++ [map_item (to_u8 (bytes_read context)) (to_u8 (bytes_written context))].
Proof.
  unfold rewrite_enlarged.
  destruct (enlarged_opcode _) as [[opcode len]|]; [|discriminate].
  intros _. destruct (opcode =? 233); cbn; rewrite !to_u8_idem; reflexivity.
Qed.

Lemma rewrite_unenlargeable_map context instruction :
  exists d2 d3,
    translation_map (snd (rewrite_unenlargeable context instruction))
    = translation_map context
      ++ [map_item (to_u8 (bytes_read context)) (to_u8 (bytes_written context));
          map_item (to_u8 (bytes_read context)) d2;
          map_item (to_u8 (bytes_read context)) d3].
Proof.
  eexists. eexists. unfold rewrite_unenlargeable.
  cbn [snd translation_map ZyrexUpdateTranslationContext with_destination_bytes bytes_read
       bytes_written].
  rewrite <- !app_assoc. cbn [app]. rewrite !to_u8_idem. reflexivity.
Qed.

(** The items one relocation appends: the first records where the
    instruction starts, and all of them carry its source offset. *)
Lemma relocate_dispatch_map context instruction :
  succeeded (fst (relocate_dispatch context instruction)) = true ->
  exists more,
    translation_map (snd (relocate_dispatch context instruction))
    = translation_map context
      ++ map_item (to_u8 (bytes_read context)) (to_u8 (bytes_written context)) :: more
    /\ Forall (fun item => offset_source item = to_u8 (bytes_read context)) more
    /\ (more = [] \/ List.length more = 2%nat).
Proof.
  assert (Hone : forall r : outcome * ZyrexTranslationContext,
            translation_map (snd r)
            = translation_map context
              ++ [map_item (to_u8 (bytes_read context)) (to_u8 (bytes_written context))] ->
            exists more,
              translation_map (snd r)
              = translation_map context
                ++ map_item (to_u8 (bytes_read context)) (to_u8 (bytes_written context)) :: more
              /\ Forall (fun item => offset_source item = to_u8 (bytes_read context)) more
              /\ (more = [] \/ List.length more = 2%nat)).
  { intros r Hr. exists []. split; [exact Hr|]. split; [constructor|left; reflexivity]. }
  assert (Hcommon := proj1 (proj2 (proj2 (proj2 (common_copy_spec context instruction))))).
  unfold relocate_dispatch, ZyrexRelocateRelativeInstruction,
    ZyrexRelocateRelativeBranchInstruction, ZyrexRelocateRelativeMemoryInstruction.
  destruct (has_relative_target instruction); [|intros _; apply Hone, Hcommon].
  destruct (ZyrexIsRelativeBranchInstruction _).
  - destruct (has_external_target instruction); cbn [negb];
      [|intros _; apply Hone, Hcommon].
    destruct (ZyrexShouldRewriteBranchInstruction context instruction) as [[|]|];
      [| |discriminate].
    + destruct (is_unenlargeable _).
      * intros _. destruct (rewrite_unenlargeable_map context instruction) as (d2 & d3 & ->).
        eexists. split; [reflexivity|]. split; [|right; reflexivity].
        repeat constructor.
      * intros Hok. apply Hone, rewrite_enlarged_map, Hok.
    + intros _. apply Hone, copy_and_patch_map.
  - destruct (ZyrexIsRelativeMemoryInstruction _); [|discriminate].
    destruct (has_external_target instruction); intros _.
    + apply Hone, copy_and_patch_map.
    + apply Hone, Hcommon.
Qed.

Lemma relocate_instruction_map context instruction :
  translation_map (snd (ZyrexRelocateInstruction context instruction))
  = translation_map (snd (relocate_dispatch context instruction))
  /\ destination_bytes (snd (ZyrexRelocateInstruction context instruction))
     = destination_bytes (snd (relocate_dispatch context instruction))
  /\ bytes_written (snd (ZyrexRelocateInstruction context instruction))
     = bytes_written (snd (relocate_dispatch context instruction))
  /\ succeeded (fst (ZyrexRelocateInstruction context instruction))
     = succeeded (fst (relocate_dispatch context instruction)).
Proof.
  unfold ZyrexRelocateInstruction.
  destruct (relocate_dispatch context instruction) as [r c].
  destruct (succeeded r) eqn:E; cbn; auto.
Qed.

(** X6.  The translation map is append-only: a successful
    [ZyrexRelocateInstruction] keeps every item and appends either one item
    or three; the first appended item is [(bytes_read, bytes_written)] as of
    before the call (both as [ZyanU8]), and every appended item has that
    source offset. *)
Theorem relocate_instruction_appends context instruction :
  succeeded (fst (ZyrexRelocateInstruction context instruction)) = true ->
  exists more,
    translation_map (snd (ZyrexRelocateInstruction context instruction))
    = translation_map context
      ++ map_item (to_u8 (bytes_read context)) (to_u8 (bytes_written context)) :: more
    /\ Forall (fun item => offset_source item = to_u8 (bytes_read context)) more
    /\ (more = [] \/ List.length more = 2%nat).
Proof.
  destruct (relocate_instruction_map context instruction) as (-> & _ & _ & ->).
  apply relocate_dispatch_map.
Qed.

(** The [JRCXZ] far from its target appends three items. *)
Lemma relocate_instruction_appends_witness :
  let jrcxz :=
    {| address_offset := 0; address := 0x1000;
       instruction := Example.branch ZYDIS_MNEMONIC_JRCXZ 2 1 8 0x64;
       has_relative_target := true; has_external_target := true;
       is_internal_target := false; absolute_target_address := 0x1066;
       incoming := []; outgoing := OUTGOING_NONE |} in
  let context := Example.fresh_context 0x1000 [0xE3; 0x64] 0x100000 [jrcxz] in
  exists more,
    translation_map (snd (ZyrexRelocateInstruction context jrcxz)) = map_item 0 0 :: more
    /\ Forall (fun item => offset_source item = 0) more.
Proof.
  intros jrcxz context.
  destruct (relocate_instruction_appends context jrcxz eq_refl) as (more & Hmap & Hall & _).
  exists more. split; [exact Hmap|exact Hall].
Defined.

(** The lookups after a relocation. *)
Lemma relocate_instruction_lookup context instruction :
  succeeded (fst (ZyrexRelocateInstruction context instruction)) = true ->
  let context' := snd (ZyrexRelocateInstruction context instruction) in
  (forall wanted found,
     ZyrexGetRelocatedInstructionOffset context wanted = inr found ->
     ZyrexGetRelocatedInstructionOffset context' wanted = inr found)
  /\ (ZyrexGetRelocatedInstructionOffset context (to_u8 (bytes_read context))
      = inl ZYAN_STATUS_NOT_FOUND ->
      ZyrexGetRelocatedInstructionOffset context' (to_u8 (bytes_read context))
      = inr (to_u8 (bytes_written context))).
Proof.
  intros Hok context'. subst context'.
  destruct (relocate_instruction_map context instruction) as (Hmap & _ & _ & Hsucc).
  rewrite Hsucc in Hok.
  destruct (relocate_dispatch_map context instruction Hok) as (more & Hmore & _).
  unfold ZyrexGetRelocatedInstructionOffset. rewrite Hmap, Hmore.
  split.
  - intros wanted found. rewrite find_relocated_offset_app.
    destruct (find_relocated_offset (translation_map context) wanted); [auto|discriminate].
  - rewrite find_relocated_offset_app.
    destruct (find_relocated_offset (translation_map context) (to_u8 (bytes_read context)));
      [discriminate|].
    intros _. cbn [find_relocated_offset map_item offset_source offset_destination].
    rewrite Z.eqb_refl. reflexivity.
Qed.

(** X7.  After a successful [ZyrexRelocateInstruction] the lookup of the
    instruction's source offset ([bytes_read] before the call, as [ZyanU8])
    succeeds: it returns [bytes_written] before the call (as [ZyanU8]) when
    no earlier item had that source offset, and what it returned before
    otherwise.  Every lookup that succeeded before the call still returns
    the same offset. *)
Theorem relocated_instruction_is_found context instruction :
  succeeded (fst (ZyrexRelocateInstruction context instruction)) = true ->
  let context' := snd (ZyrexRelocateInstruction context instruction) in
  (forall wanted found,
     ZyrexGetRelocatedInstructionOffset context wanted = inr found ->
     ZyrexGetRelocatedInstructionOffset context' wanted = inr found)
  /\ (ZyrexGetRelocatedInstructionOffset context (to_u8 (bytes_read context))
      = inl ZYAN_STATUS_NOT_FOUND ->
      ZyrexGetRelocatedInstructionOffset context' (to_u8 (bytes_read context))
      = inr (to_u8 (bytes_written context))).
Proof. apply relocate_instruction_lookup. Qed.

Lemma relocated_instruction_is_found_witness :
  let jmp :=
    {| address_offset := 4; address := 0x1004;
       instruction := Example.branch ZYDIS_MNEMONIC_JMP 2 1 8 0x10;
       has_relative_target := true; has_external_target := true;
       is_internal_target := false; absolute_target_address := 0x1016;
       incoming := []; outgoing := OUTGOING_NONE |} in
  let context :=
    {| source := 0x1000; source_bytes := memory_of_list [0x90; 0x90; 0x90; 0x90; 0xEB; 0x10];
       destination := 0x100000; destination_bytes := memory_of_list [0x90; 0x90; 0x90; 0x90];
       bytes_read := 4; bytes_written := 4; instructions_read := 4;
       instructions := [];
       translation_map := [map_item 0 0; map_item 1 1; map_item 2 2; map_item 3 3] |} in
  ZyrexGetRelocatedInstructionOffset (snd (ZyrexRelocateInstruction context jmp)) 4 = inr 4
  /\ ZyrexGetRelocatedInstructionOffset (snd (ZyrexRelocateInstruction context jmp)) 2 = inr 2.
Proof.
  intros jmp context.
  destruct (relocated_instruction_is_found context jmp eq_refl) as [Hold Hnew].
  split; [apply Hnew; reflexivity|apply Hold; reflexivity].
Defined.


(** ** Where a relocation writes *)

Lemma common_emitted context instruction :
  emitted context (snd (ZyrexRelocateCommonInstruction context instruction))
    (Zydis.length (decoded instruction)).
Proof.
  destruct (common_copy_spec context instruction) as (_ & _ & Hrest & _ & Hwritten).
  split; [exact Hwritten|exact Hrest].
Qed.

Lemma copy_and_patch_emitted context instruction offset size :
  supported_width size = true ->
  0 <= offset -> offset + size / 8 <= Zydis.length (decoded instruction) ->
  emitted context
    (snd (copy_and_patch context instruction (bytes_written context + offset) size))
    (Zydis.length (decoded instruction)).
Proof.
  intros Hsize Hlow Hhigh. apply supported_width_true in Hsize.
  destruct (copy_and_patch_spec context instruction (bytes_written context + offset) size Hsize)
    as (context' & -> & _ & _ & Hrest & Hwritten & _).
  split; [exact Hwritten|]. intros x Hx. cbn [snd].
  rewrite Hrest by lia. apply memcpy_outside. exact Hx.
Qed.

Lemma rewrite_unenlargeable_emitted context instruction :
  0 <= Zydis.imm_offset (Zydis.imm0 (Zydis.raw (decoded instruction)))
    < Zydis.length (decoded instruction) ->
  emitted context (snd (rewrite_unenlargeable context instruction))
    (Zydis.length (decoded instruction) + 7).
Proof.
  intros Himm.
  destruct (rewrite_unenlargeable_spec context instruction Himm)
    as (context' & -> & _ & _ & Hrest & _ & Hwritten).
  split.
  - cbn [snd]. rewrite Hwritten. f_equal. lia.
  - intros x Hx. apply Hrest. lia.
Qed.

Lemma rewrite_enlarged_emitted context instruction :
  ZyrexIsRelativeBranchInstruction (decoded instruction) = true ->
  is_unenlargeable (Zydis.mnemonic (decoded instruction)) = false ->
  exists n, 5 <= n <= 6 /\ emitted context (snd (rewrite_enlarged context instruction)) n.
Proof.
  intros Hbranch Hen.
  pose proof (proj2 (accepted_branch_cases _ Hbranch)) as Hcases. cbv zeta in Hcases.
  unfold decoded in *. rewrite Hen in Hcases.
  destruct Hcases as [[_ Hop]|(cc & _ & Hcc & Hop)].
  - destruct (rewrite_enlarged_spec context instruction _ _ Hop)
      as (context' & -> & _ & _ & Hrest & Hwritten & _).
    exists 5. split; [lia|]. split; [exact Hwritten|].
    intros x Hx. apply Hrest. simpl. lia.
  - destruct (rewrite_enlarged_spec context instruction _ _ Hop)
      as (context' & -> & _ & _ & Hrest & Hwritten & _).
    exists 6. split; [lia|]. split; [exact Hwritten|].
    intros x Hx. apply Hrest.
    replace (128 + cc =? 233) with false by (symmetry; apply Z.eqb_neq; lia).
    simpl. lia.
Qed.

Lemma relocate_dispatch_emitted context instruction :
  succeeded (fst (relocate_dispatch context instruction)) = true ->
  operand_inside instruction ->
  exists n,
    0 <= n <= Zydis.length (decoded instruction) + 7
    /\ emitted context (snd (relocate_dispatch context instruction)) n.
Proof.
  intros Hok (Hlen & Himm & Hdisp).
  assert (Hcommon : exists n,
            0 <= n <= Zydis.length (decoded instruction) + 7
            /\ emitted context (snd (ZyrexRelocateCommonInstruction context instruction)) n).
  { exists (Zydis.length (decoded instruction)). split; [lia|apply common_emitted]. }
  revert Hok.
  unfold relocate_dispatch, ZyrexRelocateRelativeInstruction,
    ZyrexRelocateRelativeBranchInstruction, ZyrexRelocateRelativeMemoryInstruction.
  destruct (has_relative_target instruction); [|intros _; exact Hcommon].
  destruct (ZyrexIsRelativeBranchInstruction (decoded instruction)) eqn:Hbranch.
  - destruct (Himm eq_refl) as [Hlow Hhigh].
    destruct (has_external_target instruction); cbn [negb]; [|intros _; exact Hcommon].
    pose proof (should_rewrite_defined context instruction) as Hwidth.
    destruct (ZyrexShouldRewriteBranchInstruction context instruction) as [[|]|];
      [| |discriminate].
    + destruct (is_unenlargeable _) eqn:Hen; intros _.
      * exists (Zydis.length (decoded instruction) + 7). split; [lia|].
        apply rewrite_unenlargeable_emitted.
        apply supported_width_true in Hwidth.
        destruct Hwidth as [Hw | [Hw | Hw]]; rewrite Hw in Hhigh;
          [change (8 / 8) with 1 in Hhigh
          |change (16 / 8) with 2 in Hhigh
          |change (32 / 8) with 4 in Hhigh]; lia.
      * destruct (rewrite_enlarged_emitted context instruction Hbranch Hen) as (n & Hn & He).
        exists n. split; [lia|exact He].
    + intros _. exists (Zydis.length (decoded instruction)). split; [lia|].
      apply copy_and_patch_emitted; assumption.
  - destruct (ZyrexIsRelativeMemoryInstruction (decoded instruction)) eqn:Hmem;
      [|discriminate].
    destruct (Hdisp eq_refl) as [Hlow Hhigh].
    destruct (has_external_target instruction); [|intros _; exact Hcommon].
    rewrite copy_and_patch_succeeds. intros Hsize.
    exists (Zydis.length (decoded instruction)). split; [lia|].
    apply copy_and_patch_emitted; assumption.
Qed.

(** X8.  The destination is written forward only: when the operands of the
    instruction lie inside it and the destination offsets do not wrap
    around, a successful [ZyrexRelocateInstruction] advances [bytes_written]
    by at most [length + 7] and changes no destination byte below the old
    [bytes_written] or at or above the new one. *)
Theorem relocation_writes_emitted_range context instruction :
  succeeded (fst (ZyrexRelocateInstruction context instruction)) = true ->
  operand_inside instruction ->
  0 <= bytes_written context ->
  bytes_written context + Zydis.length (decoded instruction) + 7 < 2 ^ 64 ->
  let context' := snd (ZyrexRelocateInstruction context instruction) in
  bytes_written context <= bytes_written context'
                        <= bytes_written context + Zydis.length (decoded instruction) + 7
  /\ forall x, x < bytes_written context \/ bytes_written context' <= x ->
       destination_bytes context' x = destination_bytes context x.
Proof.
  intros Hok Hinside Hlow Hhigh context'. subst context'.
  destruct (relocate_instruction_map context instruction) as (_ & -> & -> & Hsucc).
  rewrite Hsucc in Hok.
  destruct (relocate_dispatch_emitted context instruction Hok Hinside)
    as (n & Hn & Hwritten & Hrest).
  assert (Hexact : to_u64 (bytes_written context + n) = bytes_written context + n).
  { unfold to_u64, to_unsigned. apply Z.mod_small. lia. }
  rewrite Hwritten, Hexact. split; [lia|]. intros x Hx. apply Hrest. lia.
Qed.

Lemma relocation_writes_emitted_range_witness :
  let jz :=
    {| address_offset := 0; address := 0x1000;
       instruction := Example.branch ZYDIS_MNEMONIC_JZ 2 1 8 0x7F;
       has_relative_target := true; has_external_target := true;
       is_internal_target := false; absolute_target_address := 0x1081;
       incoming := []; outgoing := OUTGOING_NONE |} in
  let context := Example.fresh_context 0x1000 [0x74; 0x7F] 0x100000 [jz] in
  bytes_written (snd (ZyrexRelocateInstruction context jz)) <= 9
  /\ destination_bytes (snd (ZyrexRelocateInstruction context jz)) 9 = 0.
Proof.
  intros jz context.
  assert (Hinside : operand_inside jz).
  { split; [simpl; lia|].
    split; [intros _; split; apply Z.leb_le; reflexivity|discriminate]. }
  destruct (relocation_writes_emitted_range context jz eq_refl Hinside
              ltac:(simpl; lia) ltac:(simpl; lia)) as [Hbound Hrest].
  split; [apply Hbound|]. apply (Hrest 9). right. apply Hbound.
Defined.


(* ====================================================================== *)
(** * Further properties of the fix-up *)
(* ====================================================================== *)

(** The short [JMP] over a [NOP] to a [RET], relocated as it is: the fix-up
    stores the displacement 1 again, whatever the byte was. *)
Lemma fixup_displacement_witness :
  let jmp :=
    {| address_offset := 0; address := 0x1000;
       instruction := Example.branch ZYDIS_MNEMONIC_JMP 2 1 8 0x01;
       has_relative_target := true; has_external_target := false;
       is_internal_target := false; absolute_target_address := 0x1003;
       incoming := []; outgoing := 2 |} in
  let nop :=
    {| address_offset := 2; address := 0x1002;
       instruction := Example.plain ZYDIS_MNEMONIC_NOP 1;
       has_relative_target := false; has_external_target := false;
       is_internal_target := false; absolute_target_address := 0;
       incoming := []; outgoing := OUTGOING_NONE |} in
  let ret :=
    {| address_offset := 3; address := 0x1003;
       instruction := Example.plain ZYDIS_MNEMONIC_RET 1;
       has_relative_target := false; has_external_target := false;
       is_internal_target := true; absolute_target_address := 0;
       incoming := [0]; outgoing := OUTGOING_NONE |} in
  let context :=
    {| source := 0x1000; source_bytes := memory_of_list [0xEB; 0x01; 0x90; 0xC3];
       destination := 0x2000; destination_bytes := memory_of_list [0xEB; 0x55; 0x90; 0xC3];
       bytes_read := 4; bytes_written := 4; instructions_read := 3;
       instructions := [jmp; nop; ret];
       translation_map := [map_item 0 0; map_item 2 2; map_item 3 3] |} in
  patched_reading (snd (ZyrexUpdateInstructionsOffsets context)) jmp = Some 1.
Proof.
  intros jmp nop ret context.
  assert (Hrun : ZyrexUpdateInstructionsOffsets context
                 = (Returned ZYAN_STATUS_SUCCESS, snd (ZyrexUpdateInstructionsOffsets context)))
    by reflexivity.
  assert (Hdisjoint : forall (k' : nat) y, (0 < k')%nat -> instructions context !! k' = Some y ->
            disjoint_ranges (patched_range context jmp) (patched_range context y)).
  { intros [|[|[|k']]] y Hk Hy; [lia| | |discriminate];
      injection Hy as <-; exact I. }
  destruct (fixup_displacement context _ Hrun 0%nat jmp eq_refl eq_refl eq_refl Hdisjoint)
    as (value & _ & Hspec & _ & Hfit).
  vm_compute in Hspec. injection Hspec as <-.
  apply Hfit. split; apply Z.leb_le; reflexivity.
Defined.

(** One iteration changes nothing but destination bytes of the field it
    patches, however it ends. *)
Lemma update_instruction_offset_frame context instruction :
  let context' := snd (update_instruction_offset context instruction) in
  same_but_destination context context'
  /\ forall x, unpatched context [instruction] x ->
       destination_bytes context' x = destination_bytes context x.
Proof.
  assert (Hsame : forall c, same_but_destination c c) by (intros c; repeat split).
  assert (Hrange : forall own offset size,
            negb (has_relative_target instruction) || has_external_target instruction = false ->
            patched_field (decoded instruction) = (offset, size) ->
            ZyrexGetRelocatedInstructionOffset context (to_u8 (address_offset instruction))
            = inr own ->
            patched_range context instruction = Some (own + offset, size)).
  { intros own offset size Hskip Hfield Hown. unfold patched_range.
    rewrite Hskip, Hown, Hfield. reflexivity. }
  unfold unpatched, update_instruction_offset. cbv zeta.
  destruct (negb (has_relative_target instruction) || has_external_target instruction)
    eqn:Hskip; [split; [apply Hsame|reflexivity]|].
  destruct (patched_field (decoded instruction)) as [offset size] eqn:Hfield.
  destruct (ZyrexGetRelocatedInstructionOffset context (to_u8 (address_offset instruction)))
    as [status|own] eqn:Hown; [split; [apply Hsame|reflexivity]|].
  specialize (Hrange own offset size eq_refl eq_refl eq_refl).
  destruct (instructions context !! Z.to_nat (outgoing instruction)) as [target_instruction|];
    [|split; [apply Hsame|reflexivity]].
  destruct (ZyrexGetRelocatedInstructionOffset context
              (to_u8 (address_offset target_instruction)))
    as [status|target]; [split; [apply Hsame|reflexivity]|].
  destruct (width_cases size) as [-> | [-> | [-> | [_ Hdefault]]]].
  - split; [repeat split|]. intros x Hx. cbn [snd destination_bytes with_destination_bytes].
    specialize (Hx instruction _ _ (or_introl eq_refl) Hrange). change (8 / 8) with 1 in Hx.
    apply store_le_outside. simpl. lia.
  - split; [repeat split|]. intros x Hx. cbn [snd destination_bytes with_destination_bytes].
    specialize (Hx instruction _ _ (or_introl eq_refl) Hrange). change (16 / 8) with 2 in Hx.
    apply store_le_outside. simpl. lia.
  - split; [repeat split|]. intros x Hx. cbn [snd destination_bytes with_destination_bytes].
    specialize (Hx instruction _ _ (or_introl eq_refl) Hrange). change (32 / 8) with 4 in Hx.
    apply store_le_outside. simpl. lia.
  - rewrite Hdefault. split; [apply Hsame|reflexivity].
Qed.

Lemma same_but_destination_trans c1 c2 c3 :
  same_but_destination c1 c2 -> same_but_destination c2 c3 -> same_but_destination c1 c3.
Proof.
  unfold same_but_destination. intros (A1 & A2 & A3 & A4 & A5 & A6 & A7 & A8)
    (B1 & B2 & B3 & B4 & B5 & B6 & B7 & B8).
  repeat split; congruence.
Qed.

Lemma same_but_destination_tables c c' : same_but_destination c c' -> same_tables c c'.
Proof. intros (_ & _ & _ & _ & _ & _ & Hi & Hm). split; assumption. Qed.

Lemma update_offsets_loop_any_frame todo : forall context,
  let context' := snd (update_offsets_loop todo context) in
  same_but_destination context context'
  /\ forall x, unpatched context todo x ->
       destination_bytes context' x = destination_bytes context x.
Proof.
  induction todo as [|y todo IH]; intros context; cbv zeta.
  - split; [repeat split|reflexivity].
  - cbn [update_offsets_loop].
    destruct (update_instruction_offset_frame context y) as [Hsame Hbytes].
    destruct (update_instruction_offset context y) as [r c1]. cbn [snd] in Hsame, Hbytes.
    assert (Hfirst : forall x, unpatched context (y :: todo) x ->
              destination_bytes c1 x = destination_bytes context x).
    { intros x Hx. apply Hbytes. intros z a w [Hz|[]] Hr. subst z.
      apply (Hx y a w); [left; reflexivity|exact Hr]. }
    destruct (succeeded r); cbn [negb]; [|split; [exact Hsame|exact Hfirst]].
    destruct (IH c1) as [Hsame' Hbytes'].
    split; [eapply same_but_destination_trans; eassumption|].
    intros x Hx. rewrite Hbytes'; [apply Hfirst, Hx|].
    intros z a w Hz Hr.
    rewrite (patched_range_same_tables context c1 z (same_but_destination_tables _ _ Hsame)) in Hr.
    apply (Hx z a w); [right; exact Hz|exact Hr].
Qed.

(** X10.  However it ends, the fix-up changes nothing of the context but
    destination bytes, and of those only bytes inside the operand fields of
    the instructions with an internal target: the source, the counters, the
    instruction list and the translation map stay as they are, and so does
    every destination byte outside those fields.  With no internal-target
    instruction in the list no byte changes. *)
Theorem fixup_changes_only_patched_fields context :
  let context' := snd (ZyrexUpdateInstructionsOffsets context) in
  same_but_destination context context'
  /\ (forall x, unpatched context (instructions context) x ->
      destination_bytes context' x = destination_bytes context x)
  /\ (Forall (fun y => has_relative_target y = false \/ has_external_target y = true)
        (instructions context) ->
      forall x, destination_bytes context' x = destination_bytes context x).
Proof.
  cbv zeta. unfold ZyrexUpdateInstructionsOffsets.
  destruct (update_offsets_loop_any_frame (instructions context) context) as [Hsame Hbytes].
  split; [exact Hsame|]. split; [exact Hbytes|].
  intros Hnone x. apply Hbytes. intros y a w Hy Hr. exfalso.
  rewrite List.Forall_forall in Hnone. specialize (Hnone y Hy).
  unfold patched_range in Hr.
  destruct Hnone as [H|H]; rewrite H in Hr; simpl in Hr;
    [discriminate|rewrite orb_true_r in Hr; discriminate].
Qed.

(** ** Failure of the fix-up *)

Lemma update_instruction_offset_outcome context instruction :
  let r := fst (update_instruction_offset context instruction) in
  r = Returned ZYAN_STATUS_SUCCESS \/ r = Returned ZYAN_STATUS_NOT_FOUND \/ r = Unreachable.
Proof.
  unfold update_instruction_offset. cbv zeta.
  destruct (negb (has_relative_target instruction) || has_external_target instruction);
    [auto|].
  destruct (patched_field (decoded instruction)) as [offset size].
  destruct (ZyrexGetRelocatedInstructionOffset context (to_u8 (address_offset instruction)))
    as [status|own] eqn:Hown; [apply lookup_failure in Hown as ->; auto|].
  destruct (instructions context !! Z.to_nat (outgoing instruction)) as [target_instruction|];
    [|auto].
  destruct (ZyrexGetRelocatedInstructionOffset context
              (to_u8 (address_offset target_instruction)))
    as [status|target] eqn:Htarget; [apply lookup_failure in Htarget as ->; auto|].
  destruct (width_cases size) as [-> | [-> | [-> | [_ Hdefault]]]]; auto.
  rewrite Hdefault. auto.
Qed.

Lemma update_offsets_loop_outcome todo : forall context,
  let r := fst (update_offsets_loop todo context) in
  r = Returned ZYAN_STATUS_SUCCESS \/ r = Returned ZYAN_STATUS_NOT_FOUND \/ r = Unreachable.
Proof.
  induction todo as [|y todo IH]; intros context; cbv zeta; [auto|].
  cbn [update_offsets_loop].
  pose proof (update_instruction_offset_outcome context y) as Hstep. cbv zeta in Hstep.
  destruct (update_instruction_offset context y) as [r c1]. cbn [fst] in Hstep.
  destruct Hstep as [-> | [-> | ->]]; cbn; auto.
Qed.

(** A successful fix-up has found the place of every internal-target
    instruction of the list. *)
Lemma update_offsets_loop_found todo : forall context,
  succeeded (fst (update_offsets_loop todo context)) = true ->
  forall x, In x todo ->
    has_relative_target x = true -> has_external_target x = false ->
    exists value, specified_displacement context x = Some value.
Proof.
  induction todo as [|y todo IH]; intros context Hok x Hx Hrel Hext; [destruct Hx|].
  cbn [update_offsets_loop] in Hok.
  destruct (update_instruction_offset context y) as [r c1] eqn:Hstep.
  destruct (succeeded r) eqn:Hr; cbn [negb] in Hok; [|cbn in Hok; congruence].
  destruct (update_instruction_offset_spec _ _ _ _ Hstep Hr) as [Htab Hcase].
  destruct Hx as [<-|Hx].
  - destruct Hcase as [[[H|H] _]|(own & size & value & _ & _ & Hvalue & _)];
      [congruence|congruence|]. exists value. exact Hvalue.
  - destruct (IH c1 Hok x Hx Hrel Hext) as [value Hvalue].
    exists value. rewrite <- (specified_displacement_same_tables context c1 x Htab).
    exact Hvalue.
Qed.

(** X11.  The only failing status the fix-up returns is
    [ZYAN_STATUS_NOT_FOUND]; and it does not succeed when the translation
    map has no item for the source offset of an instruction with an internal
    target, or none for the source offset of the instruction that one
    targets. *)
Theorem fixup_needs_map_entries context :
  (forall status, fst (ZyrexUpdateInstructionsOffsets context) = Returned status ->
     status = ZYAN_STATUS_SUCCESS \/ status = ZYAN_STATUS_NOT_FOUND)
  /\ (forall x, In x (instructions context) ->
        has_relative_target x = true -> has_external_target x = false ->
        specified_displacement context x = None ->
        succeeded (fst (ZyrexUpdateInstructionsOffsets context)) = false).
Proof.
  unfold ZyrexUpdateInstructionsOffsets. split.
  - intros status Hstatus.
    pose proof (update_offsets_loop_outcome (instructions context) context) as Hout.
    cbv zeta in Hout. rewrite Hstatus in Hout.
    destruct Hout as [[= ->] | [[= ->] | H]]; [auto|auto|discriminate].
  - intros x Hx Hrel Hext Hnone.
    destruct (succeeded (fst (update_offsets_loop (instructions context) context))) eqn:Hok;
      [|reflexivity].
    destruct (update_offsets_loop_found _ _ Hok x Hx Hrel Hext) as [value Hvalue].
    congruence.
Qed.

(** A context whose only instruction, a short [JMP] with an internal
    target, has no item in the translation map. *)
Lemma fixup_needs_map_entries_witness :
  let jmp :=
    {| address_offset := 0; address := 0x1000;
       instruction := Example.branch ZYDIS_MNEMONIC_JMP 2 1 8 0xFE;
       has_relative_target := true; has_external_target := false;
       is_internal_target := true; absolute_target_address := 0x1000;
       incoming := [0]; outgoing := 0 |} in
  let context := Example.fresh_context 0x1000 [0xEB; 0xFE] 0x2000 [jmp] in
  succeeded (fst (ZyrexUpdateInstructionsOffsets context)) = false.
Proof.
  intros jmp context.
  apply (proj2 (fixup_needs_map_entries context) jmp); [left| | |]; reflexivity.
Defined.

(* ====================================================================== *)
(** * Further properties of the analysis *)
(* ====================================================================== *)

Lemma recorded_static decode calc buffer bytes length x y :
  static x = static y ->
  recorded decode calc buffer bytes length y -> recorded decode calc buffer bytes length x.
Proof.
  intros Hs. apply static_fields in Hs as (Ho & Ha & Hi & Hr & Ht).
  unfold recorded. rewrite Ho, Ha, Hi, Hr, Ht. auto.
Qed.

Lemma first_pass_recorded decode calc buffer bytes length bytes_to_analyze fuel :
  forall offset acc l n,
    first_pass decode calc fuel buffer bytes length bytes_to_analyze offset acc
    = Some (inr (l, n)) ->
    Forall (recorded decode calc buffer bytes length) acc ->
    Forall (recorded decode calc buffer bytes length) l.
Proof.
  induction fuel as [|fuel IH]; intros offset acc l n Hrun Hacc; [discriminate|].
  simpl in Hrun. destruct (offset <? bytes_to_analyze).
  - destruct (decode _ _) as [status|decoded_instruction] eqn:Hdec; [discriminate|].
    destruct (negb (Z.land (Zydis.attributes decoded_instruction) ZYDIS_ATTRIB_IS_RELATIVE =? 0))
      eqn:Hrel.
    + destruct (calc decoded_instruction (to_u64 (buffer + offset))) as [status|target] eqn:Hcalc;
        [discriminate|].
      apply IH in Hrun; [exact Hrun|].
      apply Forall_app. split; [exact Hacc|]. apply Forall_singleton.
      unfold recorded. cbn. rewrite Hrel. auto.
    + apply IH in Hrun; [exact Hrun|].
      apply Forall_app. split; [exact Hacc|]. apply Forall_singleton.
      unfold recorded. cbn. rewrite Hrel. auto.
  - injection Hrun as <- <-. exact Hacc.
Qed.

(** X12.  Every instruction a successful analysis returns is what the
    decoder found at its offset: its address is the buffer address plus its
    offset, its decoded instruction is the decoder's answer for the bytes
    from that offset on, [has_relative_target] is the relative attribute of
    that instruction, and [absolute_target_address] is the address the
    helper resolved for it, or 0 when there is no relative operand; and
    [has_external_target] is only ever set together with
    [has_relative_target]. *)
Theorem analysis_records decode calc buffer bytes length bytes_to_analyze
    instructions bytes_read :
  ZyrexAnalyzeInstructions decode calc buffer bytes length bytes_to_analyze
  = Some (inr (instructions, bytes_read)) ->
  forall (k : nat) x, instructions !! k = Some x ->
    recorded decode calc buffer bytes length x
    /\ (has_external_target x = true -> has_relative_target x = true).
Proof.
  intros Hrun k x Hk.
  apply analysis_invariant in Hrun as (v0 & Hfirst & -> & _ & [Hstatic Htracked]).
  split.
  - destruct (static_lookup _ _ _ _ Hstatic Hk) as (x0 & Hx0 & Hs).
    apply (recorded_static _ _ _ _ _ x x0); [congruence|].
    apply first_pass_recorded in Hfirst; [|constructor].
    rewrite Forall_lookup in Hfirst. exact (Hfirst k x0 Hx0).
  - intros Hext. destruct (Htracked k x Hk) as (T1 & _). apply T1, Hext.
Qed.

Lemma analysis_records_witness :
  exists instructions item,
    Example.analyze 0x1000 [0x90; 0xEB; 0x10] 3 = Some (inr (instructions, 3))
    /\ instructions !! 1%nat = Some item
    /\ address item = 0x1001
    /\ Example.decoder [0xEB; 0x10] 2 = inr (instruction item)
    /\ absolute_target_address item = 0x1013.
Proof.
  eexists. eexists. split; [reflexivity|]. split; [reflexivity|].
  destruct (analysis_records Example.decoder Example.calc_absolute_address
              0x1000 [0x90; 0xEB; 0x10] 3 3 _ 3 eq_refl 1%nat _ eq_refl)
    as ((Haddr & Hdec & _ & Htarget) & _).
  split; [exact Haddr|]. split; [exact Hdec|]. reflexivity.
Defined.

(** ** Incoming references *)

Lemma targets_static a a' b b' :
  static a = static a' -> static b = static b' -> targets a b = targets a' b'.
Proof.
  intros Ha Hb.
  apply static_fields in Ha as (_ & _ & _ & Hr & Ht).
  apply static_fields in Hb as (_ & Hb & _).
  unfold targets. rewrite Hr, Ht, Hb. reflexivity.
Qed.

Lemma sourced_static v0 x x' :
  static x' = static x -> is_internal_target x' = is_internal_target x ->
  incoming x' = incoming x -> sourced v0 x -> sourced v0 x'.
Proof.
  intros Hs Hi Hin Hx. unfold sourced. rewrite Hi, Hin. intros Hint.
  destruct (Hx Hint) as [Hne Hall]. split; [exact Hne|].
  intros e He. destruct (Hall e He) as (j & item & Hj & Ht & ->).
  exists j, item. split; [exact Hj|]. split; [|reflexivity].
  rewrite <- Ht. apply targets_static; [reflexivity|exact Hs].
Qed.

Lemma sourced_mark_incoming v0 (j : nat) item0 x :
  v0 !! j = Some item0 -> targets item0 x = true ->
  sourced v0 x -> sourced v0 (mark_incoming j x).
Proof.
  intros Hj Ht Hx _. cbn [incoming mark_incoming]. split.
  - intros Hnil. apply app_eq_nil in Hnil as [_ Hnil]. discriminate.
  - intros e He. apply in_app_or in He as [He|[<-|[]]].
    + destruct (is_internal_target x) eqn:Hint; [|destruct He].
      destruct (Hx Hint) as [_ Hall].
      destruct (Hall e He) as (j' & item' & Hj' & Ht' & ->).
      exists j', item'. split; [exact Hj'|]. split; [|reflexivity].
      rewrite <- Ht'. apply targets_static; reflexivity.
    + exists j, item0. split; [exact Hj|]. split; [|reflexivity].
      rewrite <- Ht. apply targets_static; reflexivity.
Qed.

(** Every iteration keeps the [incoming] lists sourced. *)
Lemma xref_step_sourced v0 i j v :
  static <$> v = static <$> v0 ->
  (forall (k : nat) x, v !! k = Some x -> sourced v0 x) ->
  forall (k : nat) x, xref_step i j v !! k = Some x -> sourced v0 x.
Proof.
  intros Hs Hall k x' Hk.
  destruct (xref_step_elem _ _ _ _ _ Hk) as (x & Hx & Hcases).
  pose proof (Hall k x Hx) as Hsourced.
  destruct Hcases as [->|(current & item & Hi & Hj & Htarget & Hcase)]; [exact Hsourced|].
  destruct (static_lookup v v0 j item Hs Hj) as (item0 & Hitem0 & Hsi).
  destruct Hcase as [(-> & _ & ->)|[(-> & _ & ->)|(-> & <- & ->)]].
  - apply (sourced_static v0 x); [reflexivity|reflexivity|reflexivity|exact Hsourced].
  - rewrite Hi in Hx. injection Hx as <-.
    apply (sourced_mark_incoming v0 j item0); [exact Hitem0| |exact Hsourced].
    rewrite <- Htarget. apply targets_static; [exact Hsi|reflexivity].
  - rewrite Hi in Hx. injection Hx as <-.
    apply (sourced_mark_incoming v0 i item0); [exact Hitem0| |].
    + rewrite <- Htarget. apply targets_static; [exact Hsi|reflexivity].
    + apply (sourced_static v0 current); [reflexivity|reflexivity|reflexivity|exact Hsourced].
Qed.

Lemma second_pass_sourced buffer v0 :
  Forall (fresh buffer) v0 ->
  forall (k : nat) x, second_pass v0 !! k = Some x -> sourced v0 x.
Proof.
  intros Hfresh.
  set (P := fun v : list ZyrexAnalyzedInstruction =>
              static <$> v = static <$> v0
              /\ forall (k : nat) x, v !! k = Some x -> sourced v0 x).
  assert (HP : P (second_pass v0)); [|exact (proj2 HP)].
  rewrite second_pass_run. apply (xref_run_invariant P).
  - intros i j v [Hs Hall]. split; [rewrite xref_step_static; exact Hs|].
    apply xref_step_sourced; assumption.
  - split; [reflexivity|]. intros k x Hk Hint.
    rewrite Forall_lookup in Hfresh. destruct (Hfresh k x Hk) as (_ & _ & Hno & _).
    congruence.
Qed.

(** Iteration [(i, j)] marks the target [i] of the instruction [j]. *)
Lemma second_pass_marks buffer v0 (i j : nat) y0 x0 :
  Forall (fresh buffer) v0 ->
  v0 !! i = Some y0 -> v0 !! j = Some x0 -> targets x0 y0 = true ->
  exists y, second_pass v0 !! i = Some y
    /\ is_internal_target y = true
    /\ In (to_u8 (Z.of_nat j)) (incoming y).
Proof.
  intros Hfresh Hi Hj Htarget.
  set (Q := fun v : list ZyrexAnalyzedInstruction =>
              exists y, v !! i = Some y /\ is_internal_target y = true
                        /\ In (to_u8 (Z.of_nat j)) (incoming y)).
  change (Q (second_pass v0)). rewrite second_pass_run.
  apply (xref_run_establish (xref_invariant v0) Q i j).
  - intros i' j' v. apply xref_step_invariant.
  - intros v [Hs _].
    destruct (static_lookup v0 v i y0 (eq_sym Hs) Hi) as (y & Hy & Hsy).
    destruct (static_lookup v0 v j x0 (eq_sym Hs) Hj) as (x & Hx & Hsx).
    assert (Ht : targets x y = true).
    { rewrite <- Htarget. apply targets_static; assumption. }
    unfold Q, xref_step. rewrite Hy, Hx, Ht.
    pose proof (list_lookup_alter_eq (mark_incoming j) (alter (mark_outgoing i) j v) i)
      as Hlook.
    destruct (alter (mark_outgoing i) j v !! i) as [z|] eqn:Hz.
    + exists (mark_incoming j z). split; [exact Hlook|]. split; [reflexivity|].
      cbn. apply in_or_app. right. left. reflexivity.
    + exfalso. apply lookup_ge_None in Hz. rewrite length_alter in Hz.
      apply lookup_lt_Some in Hy. lia.
  - intros i' j' v _ (y & Hy & Hint & Hin).
    assert (Hsome : is_Some (xref_step i' j' v !! i)).
    { apply lookup_lt_is_Some. rewrite xref_step_length.
      apply lookup_lt_Some in Hy. exact Hy. }
    destruct Hsome as [y' Hy'].
    destruct (xref_step_evolves _ _ _ _ _ Hy') as (y1 & Hy1 & (_ & _ & Hgrow)).
    rewrite Hy in Hy1. injection Hy1 as <-.
    destruct (Hgrow Hint) as (Hint' & more & Hmore).
    exists y'. split; [exact Hy'|]. split; [exact Hint'|].
    rewrite Hmore. apply in_or_app. left. exact Hin.
  - eapply xref_invariant_initial, Hfresh.
  - apply xref_pairs_In; eapply lookup_lt_Some; eassumption.
Qed.

(** The instructions of the final vector that target [x], seen in [v0]. *)
Lemma final_targets_initial v0 (i j : nat) x item :
  static <$> second_pass v0 = static <$> v0 ->
  second_pass v0 !! i = Some x -> second_pass v0 !! j = Some item ->
  has_relative_target item = true -> absolute_target_address item = address x ->
  exists y0 x0, v0 !! i = Some y0 /\ v0 !! j = Some x0 /\ targets x0 y0 = true.
Proof.
  intros Hs Hi Hj Hrel Haddr.
  destruct (static_lookup _ _ _ _ Hs Hi) as (y0 & Hy0 & Hsy).
  destruct (static_lookup _ _ _ _ Hs Hj) as (x0 & Hx0 & Hsx).
  exists y0, x0. split; [exact Hy0|]. split; [exact Hx0|].
  rewrite (targets_static x0 item y0 x Hsx Hsy). apply targets_true. auto.
Qed.

(** X13.  After a successful analysis [is_internal_target] is set exactly
    on the instructions that are targeted from inside the chunk: on the
    instructions whose address is the [absolute_target_address] of some
    returned instruction with a relative target. *)
Theorem internal_target_iff decode calc buffer bytes length bytes_to_analyze
    instructions bytes_read :
  ZyrexAnalyzeInstructions decode calc buffer bytes length bytes_to_analyze
  = Some (inr (instructions, bytes_read)) ->
  forall (i : nat) x, instructions !! i = Some x ->
    (is_internal_target x = true <->
     exists (j : nat) item,
       instructions !! j = Some item
       /\ has_relative_target item = true
       /\ absolute_target_address item = address x).
Proof.
  intros Hrun i x Hi.
  apply analysis_invariant in Hrun as (v0 & _ & -> & Hfresh & [Hstatic _]).
  split.
  - intros Hint.
    destruct (second_pass_sourced buffer v0 Hfresh i x Hi Hint) as [Hne Hall].
    destruct (incoming x) as [|e rest] eqn:Hin; [congruence|].
    destruct (Hall e (or_introl eq_refl)) as (j & item0 & Hj & Ht & _).
    destruct (static_lookup v0 (second_pass v0) j item0 (eq_sym Hstatic) Hj)
      as (item & Hitem & Hs).
    exists j, item. split; [exact Hitem|].
    rewrite (targets_static item0 item x x (eq_sym Hs) eq_refl) in Ht.
    apply targets_true in Ht. exact Ht.
  - intros (j & item & Hj & Hrel & Haddr).
    destruct (final_targets_initial v0 i j x item Hstatic Hi Hj Hrel Haddr)
      as (y0 & x0 & Hy0 & Hx0 & Ht).
    destruct (second_pass_marks buffer v0 i j y0 x0 Hfresh Hy0 Hx0 Ht) as (y & Hy & Hint & _).
    congruence.
Qed.

(** X14.  After a successful analysis the [incoming] list of an instruction
    holds the index, as [ZyanU8], of every returned instruction that targets
    it; and for an instruction with [is_internal_target] set the list is not
    empty and holds nothing else. *)
Theorem incoming_lists_sources decode calc buffer bytes length bytes_to_analyze
    instructions bytes_read :
  ZyrexAnalyzeInstructions decode calc buffer bytes length bytes_to_analyze
  = Some (inr (instructions, bytes_read)) ->
  forall (i : nat) x, instructions !! i = Some x ->
    (forall (j : nat) item,
       instructions !! j = Some item ->
       has_relative_target item = true -> absolute_target_address item = address x ->
       In (to_u8 (Z.of_nat j)) (incoming x))
    /\ (is_internal_target x = true ->
        incoming x <> []
        /\ forall e, In e (incoming x) ->
             exists (j : nat) item,
               instructions !! j = Some item
               /\ has_relative_target item = true
               /\ absolute_target_address item = address x
               /\ e = to_u8 (Z.of_nat j)).
Proof.
  intros Hrun i x Hi.
  apply analysis_invariant in Hrun as (v0 & _ & -> & Hfresh & [Hstatic _]).
  split.
  - intros j item Hj Hrel Haddr.
    destruct (final_targets_initial v0 i j x item Hstatic Hi Hj Hrel Haddr)
      as (y0 & x0 & Hy0 & Hx0 & Ht).
    destruct (second_pass_marks buffer v0 i j y0 x0 Hfresh Hy0 Hx0 Ht) as (y & Hy & _ & Hin).
    congruence.
  - intros Hint.
    destruct (second_pass_sourced buffer v0 Hfresh i x Hi Hint) as [Hne Hall].
    split; [exact Hne|]. intros e He.
    destruct (Hall e He) as (j & item0 & Hj & Ht & ->).
    destruct (static_lookup v0 (second_pass v0) j item0 (eq_sym Hstatic) Hj)
      as (item & Hitem & Hs).
    exists j, item. split; [exact Hitem|].
    rewrite (targets_static item0 item x x (eq_sym Hs) eq_refl) in Ht.
    apply targets_true in Ht as [Hrel Haddr]. auto.
Qed.

(** X15.  After a successful analysis the [outgoing] index of an instruction
    with an internal target is the index, as [ZyanU8], of a returned
    instruction whose address is the target; so for a chunk of at most 256
    instructions the instruction the fix-up fetches with [outgoing] is one
    at the target address. *)
Theorem outgoing_indexes_target decode calc buffer bytes length bytes_to_analyze
    instructions bytes_read :
  ZyrexAnalyzeInstructions decode calc buffer bytes length bytes_to_analyze
  = Some (inr (instructions, bytes_read)) ->
  forall (j : nat) item, instructions !! j = Some item ->
    has_relative_target item = true -> has_external_target item = false ->
    (exists (i : nat) target_instruction,
       instructions !! i = Some target_instruction
       /\ address target_instruction = absolute_target_address item
       /\ outgoing item = to_u8 (Z.of_nat i))
    /\ ((List.length instructions <= 256)%nat ->
        exists target_instruction,
          instructions !! Z.to_nat (outgoing item) = Some target_instruction
          /\ address target_instruction = absolute_target_address item).
Proof.
  intros Hrun j item Hj Hrel Hext.
  apply analysis_invariant in Hrun as (v0 & _ & -> & Hfresh & [Hstatic Htracked]).
  destruct (Htracked j item Hj) as (_ & _ & T3).
  destruct (T3 Hrel Hext) as (i & y & Hy & Haddr & Hout).
  destruct (static_lookup v0 (second_pass v0) i y (eq_sym Hstatic) Hy) as (t & Ht & Hs).
  apply static_fields in Hs as (_ & Ha & _).
  assert (Htarget : address t = absolute_target_address item) by congruence.
  split; [exists i, t; auto|].
  intros Hsize. exists t. split; [|exact Htarget].
  apply lookup_lt_Some in Hy. rewrite second_pass_length in Hsize.
  rewrite Hout. unfold to_u8, to_unsigned. change (2 ^ 8) with 256.
  rewrite Z.mod_small by lia. rewrite Nat2Z.id. exact Ht.
Qed.

(** The jump over a [NOP] to the [RET]: the [RET] is an internal target,
    referenced by instruction 0, and [outgoing] of the jump is 2. *)
Lemma internal_target_iff_witness :
  exists instructions item,
    Example.analyze 0x1000 [0xEB; 0x01; 0x90; 0xC3] 4 = Some (inr (instructions, 4))
    /\ instructions !! 2%nat = Some item
    /\ is_internal_target item = true
    /\ exists (j : nat) source,
         instructions !! j = Some source
         /\ has_relative_target source = true
         /\ absolute_target_address source = address item.
Proof.
  analyzed_example [0xEB; 0x01; 0x90; 0xC3] 4 2%nat.
  match goal with
  | |- _ = Some (inr (?l, _)) /\ _ =>
      assert (E : Example.analyze 0x1000 [0xEB; 0x01; 0x90; 0xC3] 4 = Some (inr (l, 4)))
        by (vm_compute; reflexivity)
  end.
  split; [exact E|]. split; [reflexivity|]. split; [reflexivity|].
  apply (internal_target_iff _ _ _ _ _ _ _ _ E 2%nat _ eq_refl). reflexivity.
Defined.

Lemma incoming_lists_sources_witness :
  exists instructions item,
    Example.analyze 0x1000 [0xEB; 0x01; 0x90; 0xC3] 4 = Some (inr (instructions, 4))
    /\ instructions !! 2%nat = Some item
    /\ incoming item = [0]
    /\ In 0 (incoming item).
Proof.
  analyzed_example [0xEB; 0x01; 0x90; 0xC3] 4 2%nat.
  match goal with
  | |- _ = Some (inr (?l, _)) /\ _ =>
      assert (E : Example.analyze 0x1000 [0xEB; 0x01; 0x90; 0xC3] 4 = Some (inr (l, 4)))
        by (vm_compute; reflexivity)
  end.
  split; [exact E|]. split; [reflexivity|]. split; [reflexivity|].
  apply (proj1 (incoming_lists_sources _ _ _ _ _ _ _ _ E 2%nat _ eq_refl) 0%nat _ eq_refl);
    reflexivity.
Defined.

Lemma outgoing_indexes_target_witness :
  exists instructions item target_instruction,
    Example.analyze 0x1000 [0xEB; 0x01; 0x90; 0xC3] 4 = Some (inr (instructions, 4))
    /\ instructions !! 0%nat = Some item
    /\ instructions !! Z.to_nat (outgoing item) = Some target_instruction
    /\ address target_instruction = absolute_target_address item.
Proof.
  analyzed_example [0xEB; 0x01; 0x90; 0xC3] 4 0%nat.
  match goal with
  | |- exists _, _ = Some (inr (?l, _)) /\ _ =>
      assert (E : Example.analyze 0x1000 [0xEB; 0x01; 0x90; 0xC3] 4 = Some (inr (l, 4)))
        by (vm_compute; reflexivity)
  end.
  destruct (proj2 (outgoing_indexes_target _ _ _ _ _ _ _ _ E 0%nat _ eq_refl eq_refl eq_refl))
    as (t & Ht & Haddr); [simpl; lia|].
  exists t. split; [exact E|]. split; [reflexivity|]. split; [exact Ht|exact Haddr].
Defined.

(** Bytes the example decoder rejects: the analysis still returns. *)
Lemma ZyrexAnalyzeInstructions_terminates_witness :
  Example.analyze 0x1000 [0x90; 0xFF; 0xFF] 3 <> None.
Proof.
  apply ZyrexAnalyzeInstructions_terminates; [exact example_decoder_contract|simpl; lia].
Defined.

(* ====================================================================== *)
(** * Relocating a whole chunk, then fixing it up *)
(* ====================================================================== *)

Lemma copy_and_patch_instructions context instruction field size :
  instructions (snd (copy_and_patch context instruction field size)) = instructions context.
Proof.
  unfold copy_and_patch, ZyrexRelocateCommonInstruction. cbn [succeeded ZYAN_SUCCESS negb].
  destruct (width_cases size) as [-> | [-> | [-> | [_ Hdefault]]]];
    try rewrite Hdefault; reflexivity.
Qed.

Lemma relocate_instruction_instructions context instruction :
  instructions (snd (ZyrexRelocateInstruction context instruction)) = instructions context.
Proof.
  assert (Hdispatch : instructions (snd (relocate_dispatch context instruction))
                      = instructions context).
  { unfold relocate_dispatch, ZyrexRelocateRelativeInstruction,
      ZyrexRelocateRelativeBranchInstruction, ZyrexRelocateRelativeMemoryInstruction,
      rewrite_enlarged.
    repeat match goal with
           | |- context [copy_and_patch ?c ?i ?f ?s] =>
               rewrite (copy_and_patch_instructions c i f s)
           | |- context [if ?b then _ else _] => destruct b
           | |- context [match ZyrexShouldRewriteBranchInstruction ?c ?i with _ => _ end] =>
               destruct (ZyrexShouldRewriteBranchInstruction c i) as [[|]|]
           | |- context [match enlarged_opcode ?m with _ => _ end] =>
               destruct (enlarged_opcode m) as [[? ?]|]
           end; try reflexivity; apply copy_and_patch_instructions. }
  unfold ZyrexRelocateInstruction.
  destruct (relocate_dispatch context instruction) as [r c]. cbn [snd] in Hdispatch.
  destruct (succeeded r); cbn; exact Hdispatch.
Qed.

Lemma relocate_instruction_bytes_read context instruction :
  succeeded (fst (ZyrexRelocateInstruction context instruction)) = true ->
  bytes_read (snd (ZyrexRelocateInstruction context instruction))
  = to_u64 (bytes_read context + Zydis.length (decoded instruction)).
Proof.
  unfold ZyrexRelocateInstruction.
  pose proof (relocate_dispatch_counters context instruction) as [Hb _].
  destruct (relocate_dispatch context instruction) as [r c]. cbn [snd] in Hb.
  destruct (succeeded r) eqn:Hr; cbn; [|congruence]. intros _. rewrite Hb. reflexivity.
Qed.

(** After the instructions of a layout have been relocated in order, from a
    context that has read up to the start of the layout, every one of them
    has an item in the translation map. *)
Lemma relocate_all_entries stop l : forall context r context',
  Example.relocate_all l context = (r, context') -> succeeded r = true ->
  layout (bytes_read context) l stop -> 0 <= bytes_read context -> stop < 2 ^ 64 ->
  bytes_read context' = stop
  /\ instructions context' = instructions context
  /\ (forall wanted found,
        ZyrexGetRelocatedInstructionOffset context wanted = inr found ->
        ZyrexGetRelocatedInstructionOffset context' wanted = inr found)
  /\ (forall x, In x l ->
        exists found,
          ZyrexGetRelocatedInstructionOffset context' (to_u8 (address_offset x)) = inr found).
Proof.
  induction l as [|x l IH]; intros context r context' Hrun Hok Hlay Hlow Hhigh.
  - injection Hrun as <- <-. simpl in Hlay. split; [exact Hlay|]. split; [reflexivity|].
    split; [auto|]. intros x [].
  - cbn [Example.relocate_all] in Hrun. simpl in Hlay. destruct Hlay as (Hoff & Hlen & Hlay).
    pose proof (relocate_instruction_bytes_read context x) as Hread.
    pose proof (relocate_instruction_instructions context x) as Hins.
    pose proof (relocate_instruction_lookup context x) as Hlookup.
    destruct (ZyrexRelocateInstruction context x) as [r1 c1].
    cbn [fst snd] in Hread, Hins, Hlookup.
    destruct (succeeded r1) eqn:Hok1; cbn [negb] in Hrun;
      [|injection Hrun as <- <-; congruence].
    specialize (Hread eq_refl). destruct (Hlookup eq_refl) as [Hold Hnew].
    pose proof (layout_le _ _ _ Hlay) as Hle.
    assert (Hexact : bytes_read c1 = bytes_read context + Zydis.length (instruction x)).
    { rewrite Hread. unfold to_u64, to_unsigned, decoded. apply Z.mod_small. lia. }
    rewrite <- Hexact in Hlay.
    destruct (IH c1 r context' Hrun Hok Hlay ltac:(lia) Hhigh)
      as (Hstop & Hins' & Hkeep & Hall).
    split; [exact Hstop|]. split; [congruence|]. split; [auto|].
    intros y [<-|Hy]; [|apply Hall, Hy].
    rewrite Hoff.
    destruct (ZyrexGetRelocatedInstructionOffset context (to_u8 (bytes_read context)))
      as [status|found] eqn:Hget.
    + apply lookup_failure in Hget as Hstatus. subst status.
      eexists. apply Hkeep, Hnew. reflexivity.
    + exists found. apply Hkeep, Hold. exact Hget.
Qed.

(** With an item for every instruction of the list, no iteration of the
    fix-up returns [ZYAN_STATUS_NOT_FOUND]. *)
Lemma update_offsets_loop_with_entries todo : forall context,
  (forall y, In y (instructions context) ->
     exists found,
       ZyrexGetRelocatedInstructionOffset context (to_u8 (address_offset y)) = inr found) ->
  (forall x, In x todo -> In x (instructions context)) ->
  fst (update_offsets_loop todo context) <> Returned ZYAN_STATUS_NOT_FOUND.
Proof.
  induction todo as [|x todo IH]; intros context Hall Hsub; [discriminate|].
  cbn [update_offsets_loop].
  pose proof (update_instruction_offset_frame context x) as [Hsame _].
  assert (Hstep : fst (update_instruction_offset context x) <> Returned ZYAN_STATUS_NOT_FOUND).
  { unfold update_instruction_offset.
    destruct (negb (has_relative_target x) || has_external_target x); [discriminate|].
    destruct (patched_field (decoded x)) as [offset size].
    destruct (Hall x (Hsub x (or_introl eq_refl))) as [own ->].
    destruct (instructions context !! Z.to_nat (outgoing x)) as [target_instruction|] eqn:Hout;
      [|discriminate].
    assert (Hin : In target_instruction (instructions context)).
    { apply list_elem_of_In, list_elem_of_lookup. eauto. }
    destruct (Hall target_instruction Hin) as [target ->].
    destruct (width_cases size) as [-> | [-> | [-> | [_ Hdefault]]]]; try discriminate.
    rewrite Hdefault. discriminate. }
  destruct (update_instruction_offset context x) as [r c1]. cbn [fst snd] in *.
  destruct (succeeded r) eqn:Hr; cbn [negb]; [|exact Hstep].
  pose proof (same_but_destination_tables _ _ Hsame) as [Hmap Hins].
  apply IH.
  - intros y Hy. unfold ZyrexGetRelocatedInstructionOffset in *. rewrite Hmap.
    apply Hall. rewrite <- Hins. exact Hy.
  - intros y Hy. rewrite Hins. apply Hsub. right. exact Hy.
Qed.

(** X17.  Relocation and fix-up fit together: when the instructions of the
    context, lying back to back from offset 0 (as the analysis returns
    them), have all been relocated in order by [ZyrexRelocateInstruction],
    then [bytes_read] is the end of the last instruction, every instruction
    has an item in the translation map for its source offset, and the
    fix-up that follows does not fail with [ZYAN_STATUS_NOT_FOUND]. *)
Theorem relocated_chunk_has_entries context context' stop :
  bytes_read context = 0 ->
  layout 0 (instructions context) stop ->
  stop < 2 ^ 64 ->
  Example.relocate_all (instructions context) context
  = (Returned ZYAN_STATUS_SUCCESS, context') ->
  bytes_read context' = stop
  /\ (forall x, In x (instructions context') ->
        exists found,
          ZyrexGetRelocatedInstructionOffset context' (to_u8 (address_offset x)) = inr found)
  /\ fst (ZyrexUpdateInstructionsOffsets context') <> Returned ZYAN_STATUS_NOT_FOUND.
Proof.
  intros Hstart Hlay Hstop Hrun. rewrite <- Hstart in Hlay.
  destruct (relocate_all_entries stop _ _ _ _ Hrun eq_refl Hlay ltac:(lia) Hstop)
    as (Hread & Hins & _ & Hall).
  rewrite Hins. split; [exact Hread|]. split; [exact Hall|].
  unfold ZyrexUpdateInstructionsOffsets. apply update_offsets_loop_with_entries.
  - rewrite Hins. exact Hall.
  - auto.
Qed.

(** The jump over a [NOP] to the [RET], relocated. *)
Lemma relocated_chunk_has_entries_witness :
  let jmp :=
    {| address_offset := 0; address := 0x1000;
       instruction := Example.branch ZYDIS_MNEMONIC_JMP 2 1 8 0x01;
       has_relative_target := true; has_external_target := false;
       is_internal_target := false; absolute_target_address := 0x1003;
       incoming := []; outgoing := 2 |} in
  let nop :=
    {| address_offset := 2; address := 0x1002;
       instruction := Example.plain ZYDIS_MNEMONIC_NOP 1;
       has_relative_target := false; has_external_target := false;
       is_internal_target := false; absolute_target_address := 0;
       incoming := []; outgoing := OUTGOING_NONE |} in
  let ret :=
    {| address_offset := 3; address := 0x1003;
       instruction := Example.plain ZYDIS_MNEMONIC_RET 1;
       has_relative_target := false; has_external_target := false;
       is_internal_target := true; absolute_target_address := 0;
       incoming := [0]; outgoing := OUTGOING_NONE |} in
  let context :=
    Example.fresh_context 0x1000 [0xEB; 0x01; 0x90; 0xC3] 0x2000 [jmp; nop; ret] in
  let context' := snd (Example.relocate_all [jmp; nop; ret] context) in
  bytes_read context' = 4
  /\ fst (ZyrexUpdateInstructionsOffsets context') <> Returned ZYAN_STATUS_NOT_FOUND.
Proof.
  intros jmp nop ret context context'.
  assert (Hlay : layout 0 (instructions context) 4).
  { repeat split; simpl; lia. }
  destruct (relocated_chunk_has_entries context context' 4 eq_refl Hlay ltac:(lia) eq_refl)
    as (Hread & _ & Hfix).
  split; [exact Hread|exact Hfix].
Defined.
